(** * freyr-js, [src/services/youtube.js]: the match-and-rank engine

    A shallow embedding of the two search adapters of [youtube.js]
    ([YouTubeMusic.search], "Backend A", and [YouTube.search], "Backend B")
    together with the argument normaliser [_getSearchArgs] they share, and
    the properties of the specification proved or refuted on it.

    Modelling conventions.
    - A JavaScript number is a [num]: an exact rational, one of the two
      infinities, or NaN.  Rounding to binary64 and the sign of zero are
      not modelled (the one zero divisor the code can meet,
      [highestViews], is [+0]): a statement on [num] is a statement on the
      exact value of the formulas.  Where rounding decides, Backend B's
      accuracy is embedded a second time, on binary64 numbers
      ([Binary64.YouTube_calculateAccuracyFor]).
    - A value passed to [search] is a [jsval]; functions, symbols and big
      integers are left out.
    - The object [final], used as a dictionary keyed by video id, is an
      association list of its own properties in insertion order.  A key is
      [in] it when it is its own or a name inherited from
      [Object.prototype] ([Object_in]), and [Object.values] lists the
      values under the canonical array indices first, in ascending order,
      then the others in insertion order ([Object_values]).
    - [Array.prototype.sort] is the stable insertion sort that places an
      element before another only when the comparator answers a negative
      number.  (The comparator of both adapters never answers 0, so the
      language leaves the order of ties to the engine; V8, the engine of
      Node.js, only tests whether the answer is negative.)
    - The collaborators that are not part of this file ([text_utils.js],
      the requests to the two backends) and the language's conversion of
      a string to a number are parameters of the development.  The
      capability [getFeeds] of a candidate, a closure over its video id
      that [search] never calls, is left out of the records.
    - The private methods of [YouTubeMusic] ([#request], [#deriveConfig]
      and [#search], lines 88-282) are embedded over [value], the tree of
      values a parsed response holds, with the errors the language throws
      on such a tree.  [walk], of [walkr.js], is modelled from the spec;
      the pattern of line 110 and [JSON.parse] are parameters, as are
      [toLowerCase], [parseInt] and the conversion of a value to a string.
      The transport answers the requests in the order they are sent, and
      the calls of one instance run one after the other. *)

From Stdlib Require Import List String Ascii Bool ZArith NArith QArith Qabs.
From Stdlib Require Import Lia Lqa Permutation Sorted.
From Stdlib Require Import DecimalString.
From Stdlib Require PrimFloat.
Import ListNotations.

Local Open Scope string_scope.
Local Open Scope list_scope.
Local Set Warnings "-register-all".

(* ================================================================= *)
(** ** JavaScript numbers *)

Inductive num : Type :=
| Fin (q : Q)
| PInf
| NInf
| NaN.

Definition Qsign (q : Q) : comparison := Qcompare q 0.

Definition num_neg (a : num) : num :=
  match a with
  | Fin q => Fin (- q)
  | PInf => NInf
  | NInf => PInf
  | NaN => NaN
  end.

Definition num_add (a b : num) : num :=
  match a, b with
  | NaN, _ | _, NaN => NaN
  | Fin x, Fin y => Fin (x + y)
  | PInf, NInf | NInf, PInf => NaN
  | PInf, _ | _, PInf => PInf
  | NInf, _ | _, NInf => NInf
  end.

Definition num_sub (a b : num) : num := num_add a (num_neg b).

(** An infinity times a finite number: the sign decides, and zero gives NaN. *)
Definition inf_times (positive : bool) (q : Q) : num :=
  match Qsign q with
  | Eq => NaN
  | Gt => if positive then PInf else NInf
  | Lt => if positive then NInf else PInf
  end.

Definition num_mul (a b : num) : num :=
  match a, b with
  | NaN, _ | _, NaN => NaN
  | Fin x, Fin y => Fin (x * y)
  | Fin x, PInf | PInf, Fin x => inf_times true x
  | Fin x, NInf | NInf, Fin x => inf_times false x
  | PInf, PInf | NInf, NInf => PInf
  | PInf, NInf | NInf, PInf => NInf
  end.

Definition num_div (a b : num) : num :=
  match a, b with
  | NaN, _ | _, NaN => NaN
  | Fin x, Fin y =>
      match Qsign y with
      | Eq => match Qsign x with Eq => NaN | Gt => PInf | Lt => NInf end
      | _ => Fin (x / y)
      end
  | Fin _, (PInf | NInf) => Fin 0
  | PInf, Fin y => match Qsign y with Lt => NInf | _ => PInf end
  | NInf, Fin y => match Qsign y with Lt => PInf | _ => NInf end
  | (PInf | NInf), (PInf | NInf) => NaN
  end.

(** [Math.abs] *)
Definition Math_abs (a : num) : num :=
  match a with
  | Fin q => Fin (Qabs q)
  | PInf | NInf => PInf
  | NaN => NaN
  end.

(** [a > b] *)
Definition num_gt (a b : num) : bool :=
  match a, b with
  | NaN, _ | _, NaN => false
  | Fin x, Fin y => negb (Qle_bool x y)
  | PInf, (Fin _ | NInf) => true
  | Fin _, NInf => true
  | _, _ => false
  end.

(** [a >= b] *)
Definition num_ge (a b : num) : bool :=
  match a, b with
  | NaN, _ | _, NaN => false
  | Fin x, Fin y => Qle_bool y x
  | PInf, _ => true
  | _, NInf => true
  | _, _ => false
  end.

(** [Math.max] of two numbers, then of a list ([Math.max()] is [-Infinity]). *)
Definition num_max (a b : num) : num :=
  match a, b with
  | NaN, _ | _, NaN => NaN
  | _, _ => if num_gt b a then b else a
  end.

Definition Math_max (l : list num) : num := fold_left num_max l NInf.

(** Truthiness of a number: everything but zero and NaN. *)
Definition num_truthy (a : num) : bool :=
  match a with
  | Fin q => negb (Qeq_bool q 0)
  | PInf | NInf => true
  | NaN => false
  end.

Definition of_N (n : N) : num := Fin (inject_Z (Z.of_N n)).
Definition of_Z (z : Z) : num := Fin (inject_Z z).

(** The same number, up to the representation of the rational. *)
Definition num_same (a b : num) : Prop :=
  match a, b with
  | Fin x, Fin y => x == y
  | PInf, PInf | NInf, NInf | NaN, NaN => True
  | _, _ => False
  end.

Definition num_sameb (a b : num) : bool :=
  match a, b with
  | Fin x, Fin y => Qeq_bool x y
  | PInf, PInf | NInf, NInf | NaN, NaN => true
  | _, _ => false
  end.

Definition is_NaN (a : num) : bool :=
  match a with NaN => true | _ => false end.

Declare Scope num_scope.
Delimit Scope num_scope with num.
Bind Scope num_scope with num.
Infix "+" := num_add : num_scope.
Infix "-" := num_sub : num_scope.
Infix "*" := num_mul : num_scope.
Infix "/" := num_div : num_scope.
Infix ">?" := num_gt (at level 70, no associativity) : num_scope.
Infix ">=?" := num_ge (at level 70, no associativity) : num_scope.

(* ================================================================= *)
(** ** JavaScript values, as far as [_getSearchArgs] inspects them *)

Inductive jsval : Type :=
| JUndefined
| JNull
| JBool (b : bool)
| JNum (n : num)
| JStr (s : string)
| JArr (elems : list jsval)
| JObj.

Definition typeof (v : jsval) : string :=
  match v with
  | JUndefined => "undefined"
  | JNull | JArr _ | JObj => "object"
  | JBool _ => "boolean"
  | JNum _ => "number"
  | JStr _ => "string"
  end.

Definition truthy (v : jsval) : bool :=
  match v with
  | JUndefined | JNull => false
  | JBool b => b
  | JNum n => num_truthy n
  | JStr s => negb (s =? "")
  | JArr _ | JObj => true
  end.

(** [a || b] *)
Definition js_or (a b : jsval) : jsval := if truthy a then a else b.

(** The number a validated [duration] stands for in arithmetic. *)
Definition num_of (v : jsval) : num :=
  match v with JNum n => n | _ => NaN end.

(* ================================================================= *)
(** ** Strings: [split] on one character and [join] *)

Fixpoint split (sep : ascii) (s : string) : list string :=
  match s with
  | EmptyString => [EmptyString]
  | String c rest =>
      if Ascii.eqb c sep then EmptyString :: split sep rest
      else match split sep rest with
           | [] => [String c EmptyString]
           | w :: ws => String c w :: ws
           end
  end.

Definition join (sep : string) (l : list string) : string := String.concat sep l.

Definition space : ascii := " "%char.
Definition colon : ascii := ":"%char.

(* ================================================================= *)
(** ** [_getSearchArgs] (lines 23-35) *)

(** The four positional arguments, before and after the shuffle. *)
Record searchArgs : Type := mkArgs {
  sa_artists : list jsval;
  sa_track : jsval;
  sa_album : jsval;
  sa_duration : jsval
}.

(** Lines 24-28: the argument shuffle.  Whatever [artists] was, it is an
    array once line 28 is passed: its elements are what the record keeps. *)
Definition shuffleArgs (artists track album duration : jsval) : searchArgs :=
  let '(track, duration) :=
    if typeof track =? "number" then (JUndefined, track) else (track, duration) in
  let '(album, duration) :=
    if typeof album =? "number" then (JUndefined, album) else (album, duration) in
  let '(artists, track) :=
    match artists with
    | JArr elems => (elems, track)
    | _ =>
        if truthy track && truthy artists then ([artists], track)
        else ([], js_or artists track)
    end in
  mkArgs artists track album duration.

(** The validated arguments [[artists, track, album, duration]]. *)
Record validArgs : Type := mkValid {
  va_artists : list string;
  va_track : string;
  va_album : string;
  va_duration : jsval
}.

Definition as_string (v : jsval) : option string :=
  match v with JStr s => Some s | _ => None end.

(** [artists.some(artist => typeof artist !== 'string')] fails: every
    element is a string, and the strings are returned. *)
Fixpoint all_strings (l : list jsval) : option (list string) :=
  match l with
  | [] => Some []
  | v :: l' =>
      match as_string v, all_strings l' with
      | Some s, Some ss => Some (s :: ss)
      | _, _ => None
      end
  end.

(** Lines 29-34: the checks, in the order of the source; [inl] is the
    message of the [Error] thrown. *)
Definition validateArgs (a : searchArgs) : string + validArgs :=
  match sa_track a with
  | JStr track =>
      match sa_album a with
      | JStr album =>
          match all_strings (sa_artists a) with
          | Some artists =>
              if truthy (sa_duration a) && negb (typeof (sa_duration a) =? "number")
              then inl "<duration>, if defined must be a valid number"
              else inr (mkValid artists track album (sa_duration a))
          | None => inl "<artist>, if defined must be a valid array of strings"
          end
      | _ => inl "<album> must be a valid string"
      end
  | _ => inl "<track> must be a valid string"
  end.

Definition _getSearchArgs (artists track album duration : jsval) : string + validArgs :=
  validateArgs (shuffleArgs artists track album duration).


(* ================================================================= *)
(** ** Errors, completions and the record of network requests *)

(** [YouTubeSearchError] (lines 14-21): a property is set only when the
    constructor's argument is truthy. *)
Record YouTubeSearchError : Type := mkSearchError {
  se_message : string;
  se_statusCode : option Z;
  se_status : option string;
  se_body : option string
}.

Definition new_YouTubeSearchError (message : string) (statusCode : option Z)
    (status : option string) (body : option string) : YouTubeSearchError :=
  {| se_message := message;
     se_statusCode :=
       match statusCode with
       | Some c => if (c =? 0)%Z then None else Some c
       | None => None
       end;
     se_status :=
       match status with
       | Some s => if s =? "" then None else Some s
       | None => None
       end;
     se_body :=
       match body with
       | Some b => if b =? "" then None else Some b
       | None => None
       end |}.

(** What a call can throw: the plain [Error] of [_getSearchArgs], or a
    [YouTubeSearchError]. *)
Inductive exn : Type :=
| Error (message : string)
| SearchError (e : YouTubeSearchError).

Inductive completion (A : Type) : Type :=
| Return (value : A)
| Throw (e : exn).
Arguments Return {A} value.
Arguments Throw {A} e.

(** A call of [search]: the queries it sent to its backend, in order, and
    how it completed. *)
Record run (A : Type) : Type := mkRun {
  requests : list string;
  outcome : completion A
}.
Arguments mkRun {A} requests outcome.
Arguments requests {A} r.
Arguments outcome {A} r.

(* ================================================================= *)
(** ** Objects used as dictionaries, and [Array.prototype.sort] *)

Definition dict (A : Type) : Type := list (string * A).

(** [k] is an own property of [o].  For a key that no object inherits
    this is [k in o]; the keys [has_key] is asked for below are such. *)
Definition js_in {A : Type} (k : string) (o : dict A) : bool :=
  existsb (fun e => fst e =? k) o.

(** The names an object made by [{}] inherits from [Object.prototype]. *)
Definition Object_prototype_names : list string :=
  ["constructor"; "__defineGetter__"; "__defineSetter__"; "hasOwnProperty";
   "__lookupGetter__"; "__lookupSetter__"; "isPrototypeOf"; "propertyIsEnumerable";
   "toString"; "valueOf"; "__proto__"; "toLocaleString"].

Definition inherited (k : string) : bool :=
  existsb (String.eqb k) Object_prototype_names.

(** [k in o], for an object [o] made by [{}]: the property is inherited,
    or it is the object's own. *)
Definition Object_in {A : Type} (k : string) (o : dict A) : bool :=
  inherited k || js_in k o.

(** [o[k] = v]: a new key goes last, a known key keeps its place.  (An
    assignment under ["__proto__"] stores no property; [search] assigns
    under a key only when it is not [in] the object, so never under that
    name.) *)
Fixpoint js_set {A : Type} (k : string) (v : A) (o : dict A) : dict A :=
  match o with
  | [] => [(k, v)]
  | (k', v') :: o' => if k' =? k then (k', v) :: o' else (k', v') :: js_set k v o'
  end.

(** The value of a decimal digit, and of a run of digits that continues
    the number [acc]. *)
Definition digit_of (c : ascii) : option N :=
  let n := N_of_ascii c in
  if ((48 <=? n) && (n <=? 57))%N then Some (n - 48)%N else None.

Fixpoint digits_value (s : string) (acc : N) : option N :=
  match s with
  | EmptyString => Some acc
  | String c rest =>
      match digit_of c with
      | Some d => digits_value rest (10 * acc + d)%N
      | None => None
      end
  end.

(** The array index a property name stands for, if it is one: the name is
    the decimal numeral, with no leading zero, of an integer below
    [2^32 - 1]. *)
Definition array_index (k : string) : option N :=
  match k with
  | EmptyString => None
  | String c rest =>
      if Ascii.eqb c "0"%char && negb (rest =? "") then None
      else
        match digits_value k 0%N with
        | Some n => if (n <? 4294967295)%N then Some n else None
        | None => None
        end
  end.

(** An entry goes before the first entry of a greater index. *)
Fixpoint insert_by_index {A : Type} (i : N) (v : A) (l : list (N * A)) : list (N * A) :=
  match l with
  | [] => [(i, v)]
  | (j, w) :: rest =>
      if (i <? j)%N then (i, v) :: (j, w) :: rest
      else (j, w) :: insert_by_index i v rest
  end.

(** The entries whose keys are array indices, in ascending order of index,
    and the values of the other entries, in the order they were added. *)
Definition indexed {A : Type} (o : dict A) : list (N * A) :=
  fold_right
    (fun e l =>
       match array_index (fst e) with
       | Some i => insert_by_index i (snd e) l
       | None => l
       end)
    [] o.

Definition named {A : Type} (o : dict A) : list A :=
  flat_map
    (fun e =>
       match array_index (fst e) with
       | Some _ => []
       | None => [snd e]
       end)
    o.

(** [Object.values(o)]: the values under the array indices first, in
    ascending order, then the others in the order their keys were added. *)
Definition Object_values {A : Type} (o : dict A) : list A :=
  map snd (indexed o) ++ named o.

(** The values an object holds, in the order their keys were added. *)
Definition stored {A : Type} (o : dict A) : list A := map snd o.

(** A key on which an object made by [{}] is a plain dictionary: no
    inherited name, and no array index. *)
Definition plain_key (k : string) : bool :=
  negb (inherited k)
  && match array_index k with
     | Some _ => false
     | None => true
     end.

(** The property name a video id is turned into: [undefined] names the
    property ["undefined"]. *)
Definition propertyKey (videoId : option string) : string :=
  match videoId with
  | Some s => s
  | None => "undefined"
  end.

(** Deduplication as both adapters do it: what an element [x] proposes
    enters [final] under its key unless the key is [in] it. *)
Definition first_wins {X V : Type} (key : V -> string) (propose : X -> option V)
    (final : dict V) (x : X) : dict V :=
  match propose x with
  | Some v => if Object_in (key v) final then final else js_set (key v) v final
  | None => final
  end.

(** The proposals that can be stored: those under a key that is not
    inherited, which [final] holds from the start. *)
Definition storable {X V : Type} (key : V -> string) (propose : X -> option V) (x : X)
    : option V :=
  match propose x with
  | Some v => if inherited (key v) then None else Some v
  | None => None
  end.

(** Every entry is stored under the key of its value, once. *)
Definition keyed {V : Type} (key : V -> string) (d : dict V) : Prop :=
  Forall (fun e => fst e = key (snd e)) d /\ NoDup (map fst d).

(** What the elements of [xs] propose, in the order of [xs]. *)
Definition proposed {X V : Type} (propose : X -> option V) (xs : list X) : list V :=
  flat_map (fun x => match propose x with Some v => [v] | None => [] end) xs.

(** The first value under each key, in the order of [l]; [seen] holds the
    keys already taken. *)
Fixpoint firsts {V : Type} (key : V -> string) (seen : list string) (l : list V) : list V :=
  match l with
  | [] => []
  | v :: l' =>
      if existsb (fun k => k =? key v) seen then firsts key seen l'
      else v :: firsts key (seen ++ [key v]) l'
  end.

(** The entries of a list of values under one key, and the first of them. *)
Definition with_key {V : Type} (key : V -> string) (k : string) (l : list V) : list V :=
  filter (fun v => key v =? k) l.

Definition first_with_key {V : Type} (key : V -> string) (k : string) (l : list V)
    : option V :=
  find (fun v => key v =? k) l.

Section Sort.
Context {A : Type} (comparefn : A -> A -> Z).

(** [x] goes before the first element it must precede. *)
Fixpoint sort_insert (x : A) (sorted : list A) : list A :=
  match sorted with
  | [] => [x]
  | y :: rest =>
      if (comparefn x y <? 0)%Z then x :: y :: rest
      else y :: sort_insert x rest
  end.

Definition Array_sort (l : list A) : list A :=
  fold_left (fun sorted x => sort_insert x sorted) l [].

End Sort.

(** The comparator of both adapters (lines 352 and 461):
    [(a, b) => (a.accuracy > b.accuracy ? -1 : 1)] *)
Definition byAccuracy {A : Type} (acc : A -> num) (a b : A) : Z :=
  if (acc a >? acc b)%num then (-1)%Z else 1%Z.

(** Descending order: no element is followed by one of strictly greater
    accuracy. *)
Definition descending {A : Type} (acc : A -> num) (l : list A) : Prop :=
  StronglySorted (fun a b => (acc b >? acc a)%num = false) l.

(** The elements of [l] whose accuracy is [v], in the order of [l]. *)
Definition of_accuracy {A : Type} (acc : A -> num) (v : num) (l : list A) : list A :=
  filter (fun c => num_sameb (acc c) v) l.

(* ================================================================= *)
(** ** The shapes of the data *)

(** A navigable run of a YouTube Music item: [{name, id}] (line 207). *)
Record artistRef : Type := mkRef {
  ref_name : string;
  ref_id : string
}.

(** An item of a shelf as [#search] returns it (lines 197-255).  A field
    that is an [option] may be missing from the object.  [#search] always
    creates the key [videoId] of a song or a video (line 225), with the
    value [undefined] when the play button carries no video id: the outer
    [option] of [item_videoId] is the key, the inner one its value. *)
Record ytmItem : Type := mkItem {
  item_type : option string;
  item_title : option string;
  item_artists : list artistRef;
  item_album : option artistRef;
  item_videoId : option (option string);
  item_duration : string
}.

Record ytmSection : Type := mkSection {
  contents : list ytmItem
}.

(** The shelves [search] reads of the object [#search] returns. *)
Record ytmResults : Type := mkResults {
  top : option ytmSection;
  songs : option ytmSection;
  videos : option ytmSection
}.

(** An item of [validSections]: [{...item, weight}]. *)
Record weighted : Type := mkWeighted {
  w_item : ytmItem;
  weight : num
}.

(** [cleanItem] (lines 338-346), then with its [accuracy] (line 347). *)
Record cleanItem : Type := mkClean {
  title : option string;
  type : option string;
  author : list artistRef;
  duration : string;
  duration_ms : num;
  videoId : option string
}.

Record ytmCandidate : Type := mkCandidate {
  clean : cleanItem;
  accuracy : num
}.

(** A video of a [yt-search] listing, as far as [YouTube] reads it. *)
Record video : Type := mkVideo {
  v_title : string;
  v_type : string;
  v_author_name : string;
  v_views : option N;
  v_seconds : N;
  v_timestamp : string;
  v_videoId : option string
}.

(** What the worker of [searchQueue] returns for one query variant. *)
Record source : Type := mkSource {
  xFilters : list (list string);
  highestViews : num;
  results : list video
}.

(** The reason of a rejected task. *)
Record jsError : Type := mkError {
  err_message : string;
  err_code : option string
}.

(** A task of the queue once settled (bluebird's [reflect()]). *)
Inductive TaskOutcome (A : Type) : Type :=
| Fulfilled (value : A)
| Rejected (reason : jsError).
Arguments Fulfilled {A} value.
Arguments Rejected {A} reason.

Definition isRejected {A : Type} (r : TaskOutcome A) : bool :=
  match r with Rejected _ => true | Fulfilled _ => false end.

(** A candidate of [YouTube.search] (lines 448-458). *)
Record ytCandidate : Type := mkYt {
  yt_title : string;
  yt_type : string;
  yt_author : string;
  yt_duration : string;
  yt_duration_ms : num;
  yt_videoId : string;
  yt_xFilters : list (list string);
  yt_accuracy : num
}.

(* ================================================================= *)
(** ** Response trees, and the language's operations on them *)

(** A value of a parsed response, or of an object [#search] builds from
    one. *)
Inductive value : Type :=
| VUndefined
| VNull
| VBool (b : bool)
| VNum (n : num)
| VStr (s : string)
| VArr (elems : list value)
| VObj (props : list (string * value)).

Definition value_typeof (v : value) : string :=
  match v with
  | VUndefined => "undefined"
  | VNull | VArr _ | VObj _ => "object"
  | VBool _ => "boolean"
  | VNum _ => "number"
  | VStr _ => "string"
  end.

Definition value_truthy (v : value) : bool :=
  match v with
  | VUndefined | VNull => false
  | VBool b => b
  | VNum n => num_truthy n
  | VStr s => negb (s =? "")
  | VArr _ | VObj _ => true
  end.

(** [a || b] *)
Definition value_or (a b : value) : value := if value_truthy a then a else b.

(** [v === 'literal'] *)
Definition is_text (v : value) (literal : string) : bool :=
  match v with
  | VStr s => s =? literal
  | _ => false
  end.

(** [list.includes(s)], on strings. *)
Definition includes (l : list string) (s : string) : bool :=
  existsb (fun x => s =? x) l.

(** [o[k]] and [delete o[k]], on an object used as a dictionary. *)
Fixpoint js_get {A : Type} (k : string) (o : dict A) : option A :=
  match o with
  | [] => None
  | (k', v) :: o' => if k' =? k then Some v else js_get k o'
  end.

Definition js_delete {A : Type} (k : string) (o : dict A) : dict A :=
  filter (fun e => negb (fst e =? k)) o.

(** [Object.fromEntries]: a later entry replaces the value of an earlier
    one with the same key, at the place of the earlier one. *)
Definition Object_fromEntries {A : Type} (entries : list (string * A)) : dict A :=
  fold_left (fun o e => js_set (fst e) (snd e) o) entries [].

(** The decimal numeral of an index, the property name it stands for. *)
Definition decimal (n : nat) : string := NilEmpty.string_of_uint (Nat.to_uint n).

(** [array.slice(-n)]: the last [n] elements, or all of them. *)
Definition slice_last {A : Type} (n : nat) (l : list A) : list A :=
  skipn (List.length l - n) l.

(** What the code of [YouTubeMusic] can throw: a [TypeError] of the
    language (a property of [undefined] or [null], a call of what is no
    function, [in] on what is no object), the [SyntaxError] of
    [JSON.parse], or an error the file creates itself. *)
Inductive thrown : Type :=
| TypeError
| SyntaxError
| Thrown (e : exn).

(** A computation that returns or throws. *)
Definition attempt (A : Type) : Type := (thrown + A)%type.

Definition attempt_bind {A B : Type} (m : attempt A) (f : A -> attempt B) : attempt B :=
  match m with
  | inl e => inl e
  | inr a => f a
  end.

Declare Scope attempt_scope.
Delimit Scope attempt_scope with attempt.
Notation "x <- m ;; k" := (attempt_bind m (fun x => k))
  (at level 61, m at next level, right associativity) : attempt_scope.

Local Open Scope attempt_scope.

(** [array.map(f)], [array.filter(f)] and [array.reduce(f, init)] with a
    callback that can throw: the elements are visited in order. *)
Fixpoint mapM {A B : Type} (f : A -> attempt B) (l : list A) : attempt (list B) :=
  match l with
  | [] => inr []
  | x :: l' => y <- f x ;; ys <- mapM f l' ;; inr (y :: ys)
  end.

Fixpoint filterM {A : Type} (f : A -> attempt bool) (l : list A) : attempt (list A) :=
  match l with
  | [] => inr []
  | x :: l' => b <- f x ;; ys <- filterM f l' ;; inr (if b then x :: ys else ys)
  end.

Fixpoint foldM {A B : Type} (f : B -> A -> attempt B) (l : list A) (acc : B) : attempt B :=
  match l with
  | [] => inr acc
  | x :: l' => acc' <- f acc x ;; foldM f l' acc'
  end.

(** [v.k], for the property names this file reads: none of them is a
    property of arrays, of strings or of [Object.prototype], so a value
    that is no object (or an object without the key) answers [undefined],
    and [undefined] and [null] throw. *)
Definition get (v : value) (k : string) : attempt value :=
  match v with
  | VUndefined | VNull => inl TypeError
  | VObj props =>
      inr (match js_get k props with
           | Some x => x
           | None => VUndefined
           end)
  | _ => inr VUndefined
  end.

(** [v[i]] for an index [i].  A string is indexed by byte here; every call
    of the file reads index 0, where this is the language's first code
    unit. *)
Definition elem (v : value) (i : nat) : attempt value :=
  match v with
  | VUndefined | VNull => inl TypeError
  | VArr elems => inr (nth i elems VUndefined)
  | VObj props =>
      inr (match js_get (decimal i) props with
           | Some x => x
           | None => VUndefined
           end)
  | VStr s =>
      inr (match String.get i s with
           | Some c => VStr (String c EmptyString)
           | None => VUndefined
           end)
  | VBool _ | VNum _ => inr VUndefined
  end.

(** [k in v], for the two keys the file tests: an array has none of them,
    and a value that is no object throws. *)
Definition has_key (k : string) (v : value) : attempt bool :=
  match v with
  | VObj props => inr (js_in k props)
  | VArr _ => inr false
  | _ => inl TypeError
  end.

(** The receiver of [map] and [filter] must be an array, that of
    [toLowerCase], [split], [startsWith] and [match] a string: on any
    other value the method is missing and the call throws. *)
Definition as_array (v : value) : attempt (list value) :=
  match v with
  | VArr elems => inr elems
  | _ => inl TypeError
  end.

Definition as_text (v : value) : attempt string :=
  match v with
  | VStr s => inr s
  | _ => inl TypeError
  end.

(** [{...o, ...v}]: the own properties of [v] are set on [o] in order.
    [undefined], [null], a number and a boolean have none; the properties
    of an array are its elements under their indices, those of a string
    its characters.  (The language lists the keys that are indices before
    the others; the order of the keys of a request is not observed.) *)
Definition spread (v : value) (o : dict value) : dict value :=
  let indexed := fun elems : list value =>
    fold_left (fun o e => js_set (decimal (fst e)) (snd e) o)
      (combine (seq 0 (List.length elems)) elems) o in
  match v with
  | VObj props => fold_left (fun o e => js_set (fst e) (snd e) o) props o
  | VArr elems => indexed elems
  | VStr s => indexed (map (fun c => VStr (String c EmptyString)) (list_ascii_of_string s))
  | _ => o
  end.

(** A segment of a path: a key or an index. *)
Inductive segment : Type :=
| Key (k : string)
| Index (i : nat).

(** Modelled from the spec: [walkr.js] is not among the sources.
    "[walk(root, path...)] where [path] is a sequence of string keys and/or
    integer indices.  Traverses [root] one segment at a time; if at any
    step the current value is absent, not indexable, or the key/index does
    not exist, returns an absence marker (never throws)"; a path is given
    as variadic segments, as one sequence, or as both, flattened. *)
Definition walk_step (v : value) (s : segment) : value :=
  match v, s with
  | VObj props, Key k =>
      match js_get k props with
      | Some x => x
      | None => VUndefined
      end
  | VArr elems, Index i => nth i elems VUndefined
  | _, _ => VUndefined
  end.

Definition walk (root : value) (path : list segment) : value :=
  fold_left walk_step path root.

(** [#YTM_PATHS] (lines 117-124) *)
Definition PLAY_BUTTON : list segment :=
  [Key "overlay"; Key "musicItemThumbnailOverlayRenderer"; Key "content";
   Key "musicPlayButtonRenderer"].
Definition NAVIGATION_BROWSE_ID : list segment :=
  [Key "navigationEndpoint"; Key "browseEndpoint"; Key "browseId"].
Definition NAVIGATION_VIDEO_ID : list segment :=
  [Key "navigationEndpoint"; Key "watchEndpoint"; Key "videoId"].
Definition NAVIGATION_PLAYLIST_ID : list segment :=
  [Key "navigationEndpoint"; Key "watchEndpoint"; Key "playlistId"].
Definition SECTION_LIST : list segment :=
  [Key "sectionListRenderer"; Key "contents"].
Definition TITLE_TEXT : list segment :=
  [Key "title"; Key "runs"; Index 0; Key "text"].

(** A section of the object [#search] returns (lines 185-278).  The keys
    [loadMore] and [expand] are missing from "Top result"; elsewhere each
    is [undefined] or a function, which closes over the layer it reads
    when called: the outer [option] is the key, the inner one the
    function, given by its layer. *)
Record shelfSection : Type := mkShelf {
  shelf_contents : list (dict value);
  shelf_loadMore : option (option value);
  shelf_expand : option (option value)
}.

(** The request [got] is called with: the URL and the options the file
    sets (lines 108 and 138-157). *)
Record gotOptions : Type := mkOptions {
  opt_url : string;
  opt_method : string;
  opt_timeout : option N;
  opt_searchParams : option (dict value);
  opt_responseType : option string;
  opt_json : option (dict value);
  opt_referer : option string
}.

(** What [got] answers: a response, with the URL it was finally served
    from ([response.req.res.url]) and its body, or an error, with the
    response it may carry (its status code, and its body as text). *)
Record gotResponse : Type := mkResponse {
  res_url : string;
  res_body : value
}.

Record gotError : Type := mkGotError {
  got_message : string;
  got_code : option string;
  got_response : option (Z * string)
}.

(** The transport: the answer to the [n]-th request an adapter sends. *)
Definition transport : Type := nat -> gotOptions -> gotError + gotResponse.

(** The state of a [YouTubeMusic] instance ([#store.apiConfig], [null] at
    first), with the requests sent so far. *)
Record world : Type := mkWorld {
  apiConfig : value;
  sent : list gotOptions
}.

(** An asynchronous method: it reads and changes the state, and returns
    or throws.  ([await] runs the methods of this file one after the
    other.) *)
Definition action (A : Type) : Type := world -> world * attempt A.

Definition action_bind {A B : Type} (m : action A) (f : A -> action B) : action B :=
  fun w =>
    match m w with
    | (w', inl e) => (w', inl e)
    | (w', inr a) => f a w'
    end.

Definition action_ret {A : Type} (a : A) : action A := fun w => (w, inr a).
Definition action_throw {A : Type} (e : thrown) : action A := fun w => (w, inl e).
Definition action_of {A : Type} (m : attempt A) : action A := fun w => (w, m).

Declare Scope action_scope.
Delimit Scope action_scope with action.
Notation "x <~ m ;; k" := (action_bind m (fun x => k))
  (at level 61, m at next level, right associativity) : action_scope.

(* ================================================================= *)
(** ** Stand-ins for the collaborators, used to run the model *)

(** The language's conversion of a string to a number, on the strings the
    examples use: a run of decimal digits is its value, the empty string
    is 0; any other string is given NaN here. *)
Definition decimalToNumber (s : string) : num :=
  match digits_value s 0%N with
  | Some n => of_N n
  | None => NaN
  end.

Definition lower (c : ascii) : ascii :=
  let n := N_of_ascii c in
  if ((65 <=? n) && (n <=? 90))%N then ascii_of_N (n + 32) else c.

Definition is_word_char (c : ascii) : bool :=
  let n := N_of_ascii c in
  (((48 <=? n) && (n <=? 57)) || ((97 <=? n) && (n <=? 122)) || (n =? 32))%N.

Fixpoint normalize (s : string) : string :=
  match s with
  | EmptyString => EmptyString
  | String c rest =>
      let c' := lower c in
      if is_word_char c' then String c' (normalize rest) else normalize rest
  end.

(** Modelled from the spec: [text_utils.js] is not among the sources.
    [stripText] "lower-cases, strips diacritics and punctuation, and splits
    into a set of normalized word tokens", flattening a sequence of strings
    and filtering empty tokens (here on ASCII text). *)
Definition stripText_model (l : list string) : list string :=
  nodup string_dec
    (filter (fun t => negb (t =? ""))
       (flat_map (fun s => split space (normalize s)) l)).

(** Modelled from the spec: [text_utils.js] is not among the sources.
    [getWeight] "returns a similarity percentage (0-100) between two
    stripped token sets", 100 on the same tokens and falling as the
    symmetric difference grows relative to the union: the share of the
    union that is common to both. *)
Definition getWeight_model (expected actual : list string) : num :=
  let common := filter (fun t => existsb (String.eqb t) actual) (nodup string_dec expected) in
  let union := nodup string_dec (expected ++ actual) in
  (Fin 100 * of_N (N.of_nat (List.length common)) / of_N (N.of_nat (List.length union)))%num.

(* ================================================================= *)
(** ** Example data: the query of the spec's scenarios and some answers *)

Definition q_artists : jsval := JArr [JStr "Daft Punk"].
Definition q_track : jsval := JStr "One More Time".
Definition q_album : jsval := JStr "Discovery".
Definition q_duration : jsval := JNum (Fin 320000).

Definition q_args : validArgs :=
  mkValid ["Daft Punk"] "One More Time" "Discovery" (JNum (Fin 320000)).

Definition daft_punk : artistRef := mkRef "Daft Punk" "UCOP7nLCrjcOGMrbkhCWvVyQ".
Definition discovery : artistRef := mkRef "Discovery" "MPREb_Fi6ZaP4Ey0e".

(** The studio recording, 5:20 long, in the shelf "Songs". *)
Definition item_studio : ytmItem :=
  mkItem (Some "song") (Some "One More Time") [daft_punk] (Some discovery)
    (Some (Some "abc")) "5:20".

(** Another item under the same video id, 10:40 long. *)
Definition item_long : ytmItem :=
  mkItem (Some "song") (Some "One More Time") [daft_punk] (Some discovery)
    (Some (Some "abc")) "10:40".

(** A song whose play button carries no video id: line 225 stores
    [undefined] under the key [videoId]. *)
Definition item_no_id : ytmItem :=
  mkItem (Some "song") (Some "One More Time") [daft_punk] (Some discovery)
    (Some None) "5:20".

(** A video (line 237 deletes its album) and three more songs, to rank. *)
Definition item_video : ytmItem :=
  mkItem (Some "video") (Some "One More Time") [daft_punk] None
    (Some (Some "v1")) "5:20".

Definition item_song_1 : ytmItem :=
  mkItem (Some "song") (Some "One More Time") [daft_punk] (Some discovery)
    (Some (Some "s1")) "5:30".

Definition item_song_2 : ytmItem :=
  mkItem (Some "song") (Some "One More Time") [daft_punk] (Some discovery)
    (Some (Some "s2")) "5:20".

Definition item_song_3 : ytmItem :=
  mkItem (Some "song") (Some "One More Time") [daft_punk] (Some discovery)
    (Some (Some "s3")) "5:20".

Definition songs_shelf (items : list ytmItem) (query : string) : exn + ytmResults :=
  inr (mkResults None (Some (mkSection items)) None).

(** An answer with a video in "Top result" and the songs in "Songs". *)
Definition mixed_shelves (query : string) : exn + ytmResults :=
  inr (mkResults (Some (mkSection [item_video]))
         (Some (mkSection [item_song_1; item_song_2; item_song_3])) None).

Definition video_ok : video :=
  mkVideo "One More Time" "video" "Daft Punk" (Some 100%N) 320%N "5:20" (Some "abc").

(** A video four times as long as expected, with no view count. *)
Definition video_long : video :=
  mkVideo "One More Time" "video" "Daft Punk" None 1280%N "21:20" (Some "long").

Definition timeout_error : jsError := mkError "Timeout awaiting response" (Some "ETIMEDOUT").

(** Every variant answers with the same two videos. *)
Definition all_succeed (query : string) : jsError + list video :=
  inr [video_ok; video_long].

(** Every variant fails. *)
Definition all_fail (query : string) : jsError + list video := inl timeout_error.

(** Only the last variant, the one with no filter word, succeeds. *)
Definition last_succeeds (query : string) : jsError + list video :=
  if query =? "one more time daft punk " then inr [video_ok] else inl timeout_error.

(** The first variant fails; each of the others answers with the long
    video, then the right one. *)
Definition first_fails (query : string) : jsError + list video :=
  if query =? "one more time daft punk Official Audio" then inl timeout_error
  else inr [video_long; video_ok].

(** Two videos that differ in their ids only, ["10"] and ["9"], and the
    answer that lists them in this order. *)
Definition video_10 : video :=
  mkVideo "One More Time" "video" "Daft Punk" (Some 100%N) 320%N "5:20" (Some "10").

Definition video_9 : video :=
  mkVideo "One More Time" "video" "Daft Punk" (Some 100%N) 320%N "5:20" (Some "9").

Definition numbered (query : string) : jsError + list video :=
  inr [video_10; video_9].

(** A video whose id is a name every object inherits. *)
Definition video_constructor : video :=
  mkVideo "One More Time" "video" "Daft Punk" (Some 100%N) 320%N "5:20"
    (Some "constructor").

Definition with_constructor (query : string) : jsError + list video :=
  inr [video_constructor; video_ok].

(** Two songs for an expected duration that is negative: one 0:00 long,
    one 1:40 long. *)
Definition item_start : ytmItem :=
  mkItem (Some "song") (Some "One More Time") [daft_punk] (Some discovery)
    (Some (Some "t0")) "0:00".

Definition item_short : ytmItem :=
  mkItem (Some "song") (Some "One More Time") [daft_punk] (Some discovery)
    (Some (Some "t1")) "1:40".

Definition negative_duration : jsval := JNum (Fin (-100000)).

(* ================================================================= *)
(** ** Stand-ins for the language and the page, to run Backend A's requests *)

(** [toLowerCase] on ASCII text. *)
Definition toLowerCase_ascii (s : string) : string :=
  string_of_list_ascii (map lower (list_ascii_of_string s)).

(** [parseInt(text, 10)] on the texts the examples use: a run of decimal
    digits is its value; any other text is given NaN here. *)
Definition parseInt10_digits (s : string) : num :=
  if s =? "" then NaN else decimalToNumber s.

(** The conversion to a string of the values that need no formatting; a
    number and an array are given the empty string here. *)
Definition ToString_plain (v : value) : string :=
  match v with
  | VUndefined => "undefined"
  | VNull => "null"
  | VBool true => "true"
  | VBool false => "false"
  | VStr s => s
  | VObj _ => "[object Object]"
  | VNum _ | VArr _ => ""
  end.

(** The double quote, and the configuration the example page embeds, as
    text and as the object [JSON.parse] makes of it. *)
Definition quote : string := String (ascii_of_nat 34) EmptyString.

Definition example_config_text : string :=
  "{" ++ quote ++ "INNERTUBE_API_KEY" ++ quote ++ ":" ++ quote ++ "AIza" ++ quote ++ ","
      ++ quote ++ "INNERTUBE_CLIENT_NAME" ++ quote ++ ":" ++ quote ++ "WEB_REMIX" ++ quote ++ ","
      ++ quote ++ "INNERTUBE_CLIENT_VERSION" ++ quote ++ ":" ++ quote ++ "1.2" ++ quote ++ "}".

Definition example_config : dict value :=
  [("INNERTUBE_API_KEY", VStr "AIza");
   ("INNERTUBE_CLIENT_NAME", VStr "WEB_REMIX");
   ("INNERTUBE_CLIENT_VERSION", VStr "1.2")].

Definition example_page : string :=
  "<script>ytcfg.set(" ++ example_config_text ++ ");</script>".

(** The pattern of line 110 and [JSON.parse], on the example page: any
    other text is given no match, any other capture a [SyntaxError]. *)
Definition ytcfg_match_example (text : string) : option string :=
  if text =? example_page then Some example_config_text else None.

Definition JSON_parse_example (captured : string) : option (dict value) :=
  if captured =? example_config_text then Some example_config else None.

(* ================================================================= *)
(** ** Example data: answers of YouTube Music *)

Definition text_run (text : string) : value := VObj [("text", VStr text)].

Definition navigable_run (text id : string) : value :=
  VObj [("text", VStr text);
        ("navigationEndpoint",
         VObj [("browseEndpoint", VObj [("browseId", VStr id)])])].

Definition flex_column (runs : list value) : value :=
  VObj [("musicResponsiveListItemFlexColumnRenderer",
         VObj [("text", VObj [("runs", VArr runs)])])].

Definition play_button (id : value) : value :=
  VObj [("musicItemThumbnailOverlayRenderer",
         VObj [("content",
                VObj [("musicPlayButtonRenderer",
                       VObj [("playNavigationEndpoint",
                              VObj [("watchEndpoint", VObj [("videoId", id)])])])])])].

Definition list_item (props : list (string * value)) : value :=
  VObj [("musicResponsiveListItemRenderer", VObj props)].

Definition separator : value := text_run " • ".

(** A song of the shelf "Songs", and the same with no video id under its
    play button. *)
Definition raw_song_columns : value :=
  VArr [flex_column [text_run "One More Time"];
        flex_column [navigable_run "Daft Punk" "UCOP7nLCrjcOGMrbkhCWvVyQ"; separator;
                     navigable_run "Discovery" "MPREb_Fi6ZaP4Ey0e"; separator;
                     text_run "5:20"]].

Definition raw_song : value :=
  list_item [("flexColumns", raw_song_columns); ("overlay", play_button (VStr "abc"))].

Definition raw_song_no_id : value :=
  list_item [("flexColumns", raw_song_columns)].

Definition raw_video : value :=
  list_item
    [("flexColumns",
      VArr [flex_column [text_run "One More Time (Official Video)"];
            flex_column [text_run "Video"; separator;
                         navigable_run "Daft Punk" "UCOP7nLCrjcOGMrbkhCWvVyQ"; separator;
                         text_run "512M views"; separator; text_run "5:22"]]);
     ("overlay", play_button (VStr "v1"))].

Definition raw_album : value :=
  list_item
    [("flexColumns",
      VArr [flex_column [text_run "Discovery"];
            flex_column [text_run "Album"; separator;
                         navigable_run "Daft Punk" "UCOP7nLCrjcOGMrbkhCWvVyQ"; separator;
                         text_run "2001"]]);
     ("navigationEndpoint",
      VObj [("browseEndpoint", VObj [("browseId", VStr "MPREb_Fi6ZaP4Ey0e")])])].

(** An artist with nowhere to browse to. *)
Definition raw_artist : value :=
  list_item
    [("flexColumns",
      VArr [flex_column [text_run "Daft Punk"];
            flex_column [text_run "Artist"; separator; text_run "5.2M subscribers"]])].

Definition raw_shelf (title : string) (items : list value) (more : list (string * value))
    : value :=
  VObj [("musicShelfRenderer",
         VObj ([("title", VObj [("runs", VArr [text_run title])]);
                ("contents", VArr items)] ++ more))].

Definition continuation_data : value :=
  VArr [VObj [("nextContinuationData",
               VObj [("continuation", VStr "token");
                     ("clickTrackingParams", VStr "clicks")])]].

(** An answer with four shelves, two of them titled "Songs". *)
Definition example_response : value :=
  VObj [("sectionListRenderer",
         VObj [("contents",
                VArr [raw_shelf "Top result" [raw_video] [];
                      raw_shelf "Songs" [raw_song_no_id] [];
                      raw_shelf "Albums" [raw_album; raw_artist] [];
                      raw_shelf "Songs" [raw_song]
                        [("continuations", continuation_data)]])])].

(** The answer to a continuation: one shelf, with no title. *)
Definition example_continuation : value :=
  VObj [("continuationContents",
         VObj [("musicShelfContinuation", VObj [("contents", VArr [raw_song])])])].

(** A transport that serves the example page and the example answer, one
    that serves the page "coming soon" whatever is asked, and one that is
    down. *)
Definition got_example : transport :=
  fun n opts =>
    if opt_url opts =? "https://music.youtube.com/"
    then inr (mkResponse "https://music.youtube.com/" (VStr example_page))
    else inr (mkResponse (opt_url opts) example_response).

Definition got_coming_soon : transport :=
  fun n opts => inr (mkResponse "https://music.youtube.com/coming-soon/" (VStr "")).

Definition got_down : transport :=
  fun n opts => inl (mkGotError "connect ECONNREFUSED" (Some "ECONNREFUSED") None).

(** A new instance, and one that holds the example configuration. *)
Definition new_instance : world := mkWorld VNull [].
Definition configured_instance : world := mkWorld (VObj example_config) [].

(** A keyword search that lists one video, with no view count. *)
Definition no_views (query : string) : jsError + list video := inr [video_long].

(* ================================================================= *)
(** ** Backend B's accuracy, in the arithmetic of the language *)

(** Lines 429-441 on binary64 numbers, each operation rounded as the
    language rounds it: [duration] is the expected duration when it is
    supplied (truthy), [seconds] and [views] are [item.duration.seconds]
    and [item.views], and [authorMatches] is the test of line 437. *)
Module Binary64.
Import PrimFloat.
Local Open Scope float_scope.

Definition YouTube_calculateAccuracyFor (authorMatches : bool) (duration : option float)
    (highestViews views seconds : float) : float :=
  let accuracy := 0 in
  let accuracy :=
    accuracy
    + (100
       - match duration with
         | Some d => abs (d - seconds * 1000) / d
         | None => 0.5
         end
         * 100) in
  let accuracy :=
    accuracy + (fun cur => cur * (80 / 100) * (views / highestViews)) (100 - accuracy) in
  let accuracy :=
    accuracy + (fun cur => if authorMatches then (60 / 100) * cur else 0) (100 - accuracy) in
  accuracy.

(** A query of 320000 ms, a video of 1280 s, and view counts below 2^53. *)
Definition expected_ms : float := 320000.
Definition seconds : float := 1280.
Definition batch_views : float := 6941689281138253.
Definition some_views : float := 2990744756030718.
Definition one_more_view : float := 2990744756030719.

End Binary64.

(* ================================================================= *)
(** ** The two adapters *)

Section Services.

(** [textUtils.stripText] and [textUtils.getWeight], of [text_utils.js]. *)
Variable stripText : list string -> list string.
Variable getWeight : list string -> list string -> num.
(** The conversion of a string to a number (unary [+], and [*] on a string). *)
Variable ToNumber : string -> num.
(** [String.prototype.toLowerCase], [parseInt(text, 10)] and the conversion
    to a string of a value that is no string. *)
Variable toLowerCase : string -> string.
Variable parseInt10 : string -> num.
Variable ToString : value -> string.
(** What [/ytcfg\.set\s*\(\s*({.+})\s*\)\s*;/] captures in a text, if it
    matches, and [JSON.parse] on a text that starts with a brace: the
    object it stands for, or nothing when it throws [SyntaxError]. *)
Variable ytcfg_match : string -> option string.
Variable JSON_parse : string -> option (dict value).

(* ----------------------------------------------------------------- *)
(** *** Backend A: [YouTubeMusic.search] (lines 298-354) *)

Definition section_contents (s : option ytmSection) : list ytmItem :=
  match s with
  | Some sec => contents sec
  | None => []
  end.

(** [['song', 'video'].includes(item.type)] *)
Definition is_song_or_video (t : option string) : bool :=
  match t with
  | Some s => (s =? "song") || (s =? "video")
  | None => false
  end.

(** Lines 316-320: the words an item is matched by. *)
Definition item_words (item : ytmItem) (title : string) : list string :=
  split space title
    ++ match item_album item with
       | Some album => split space (ref_name album)
       | None => []
       end
    ++ map ref_name (item_artists item).

(** Lines 303-324. *)
Definition validSections (strippedMeta : list string) (results : ytmResults) : list weighted :=
  flat_map
    (fun item =>
       match item_title item with
       | Some title =>
           if is_song_or_video (item_type item)
           then [mkWeighted item (getWeight strippedMeta (stripText (item_words item title)))]
           else []
       | None => []
       end)
    (section_contents (top results)
       ++ section_contents (songs results)
       ++ section_contents (videos results)).

(** Line 343: [item.duration.split(':').reduce((acc, time) => 60 * acc + +time) * 1000].
    [reduce] starts from the first piece, which the first product (or the
    final one, when there is one piece only) converts to a number.  [split]
    never returns the empty list, so the first branch is not reached. *)
Definition parse_duration_ms (duration : string) : num :=
  match split colon duration with
  | [] => NaN
  | first :: rest =>
      (fold_left (fun acc time => Fin 60 * acc + ToNumber time) rest (ToNumber first)
       * Fin 1000)%num
  end.

(** Line 330: the share of the remaining gap an item's type earns. *)
Definition type_bonus (t : option string) : num :=
  match t with
  | Some s => if s =? "song" then Fin 50 else if s =? "video" then Fin 25 else Fin 5
  | None => Fin 5
  end.

(** Lines 325-333. *)
Definition YouTubeMusic_calculateAccuracyFor (expected : jsval)
    (item : cleanItem) (weight : num) : num :=
  let accuracy := Fin 0 in
  let accuracy :=
    (accuracy
     + (weight
        - (if truthy expected
           then Math_abs (num_of expected - duration_ms item) / num_of expected
           else Fin (1 # 2))
          * Fin 100))%num in
  let accuracy :=
    (accuracy
     + (fun cur => (type_bonus (type item) / Fin 100) * cur) (Fin 100 - accuracy))%num in
  accuracy.

Definition mk_cleanItem (item : ytmItem) (id : option string) : cleanItem :=
  {| title := item_title item;
     type := item_type item;
     author := item_artists item;
     duration := item_duration item;
     duration_ms := parse_duration_ms (item_duration item);
     videoId := id |}.

(** Lines 335-350: one step of the reduction that fills [final]. *)
Definition classify (expected : jsval) (final : dict ytmCandidate) (item : weighted)
    : dict ytmCandidate :=
  match item_videoId (w_item item) with
  | Some id =>
      if (weight item >? Fin 65)%num && negb (Object_in (propertyKey id) final) then
        let cleanItem := mk_cleanItem (w_item item) id in
        let accuracy := YouTubeMusic_calculateAccuracyFor expected cleanItem (weight item) in
        if (accuracy >? Fin 80)%num
        then js_set (propertyKey id) (mkCandidate cleanItem accuracy) final
        else final
      else final
  | None => final
  end.

Definition YouTubeMusic_final (expected : jsval) (valid : list weighted) : dict ytmCandidate :=
  fold_left (classify expected) valid [].

(** Lines 302-353, once [#search] has answered. *)
Definition YouTubeMusic_strippedMeta (args : validArgs) : list string :=
  stripText (split space (va_track args) ++ [va_album args] ++ va_artists args).

Definition YouTubeMusic_classified (args : validArgs) (results : ytmResults) : list ytmCandidate :=
  let strippedMeta := YouTubeMusic_strippedMeta args in
  Array_sort (byAccuracy accuracy)
    (Object_values
       (YouTubeMusic_final (va_duration args) (validSections strippedMeta results))).

Definition YouTubeMusic_query (args : validArgs) : string :=
  join " " (va_track args :: va_album args :: va_artists args).

(** [search]; [ytm_search] is [#search], the request to YouTube Music, which
    answers with the shelves or throws. *)
Definition YouTubeMusic_search (ytm_search : string -> exn + ytmResults)
    (artists track album duration : jsval) : run (list ytmCandidate) :=
  match _getSearchArgs artists track album duration with
  | inl message => mkRun [] (Throw (Error message))
  | inr args =>
      let query := YouTubeMusic_query args in
      match ytm_search query with
      | inl e => mkRun [query] (Throw e)
      | inr results => mkRun [query] (Return (YouTubeMusic_classified args results))
      end
  end.

(* ----------------------------------------------------------------- *)
(** *** Backend B: [YouTube.search] (lines 371-462) *)

(** Line 386: [item.views = item.views || 0] *)
Definition views_or_0 (item : video) : N :=
  match v_views item with
  | Some n => n
  | None => 0%N
  end.

Definition set_views (item : video) (views : N) : video :=
  {| v_title := v_title item;
     v_type := v_type item;
     v_author_name := v_author_name item;
     v_views := Some views;
     v_seconds := v_seconds item;
     v_timestamp := v_timestamp item;
     v_videoId := v_videoId item |}.

(** Lines 381-389: one step of the worker's reduction over [videos]. *)
Definition keep_video (strippedMeta : list string) (final : source) (item : video) : source :=
  if (getWeight strippedMeta (stripText (split space (v_title item) ++ [v_author_name item]))
      >? Fin 70)%num
  then
    let views := views_or_0 item in
    {| xFilters := xFilters final;
       highestViews := Math_max [highestViews final; of_N views];
       results := results final ++ [set_views item views] |}
  else final.

(** An array of strings turned into a string, as [join] does to an
    element that is an array. *)
Definition Array_toString (l : list string) : string := join "," l.

(** Line 376: the query of a variant.  The rest parameter [xFilters] holds
    the one array of filter words the queue passes after [strippedMeta]. *)
Definition variant_query (strippedMeta : list string) (xFilters : list (list string)) : string :=
  join " " (strippedMeta ++ map Array_toString xFilters).

(** Lines 373-392: the worker of [searchQueue]; [ytSearch] is the keyword
    search, which answers a query with a listing of videos or fails. *)
Definition searchQueue_worker (ytSearch : string -> jsError + list video)
    (strippedMeta : list string) (xFilters : list (list string)) : TaskOutcome source :=
  match ytSearch (variant_query strippedMeta xFilters) with
  | inl reason => Rejected reason
  | inr videos =>
      Fulfilled (fold_left (keep_video strippedMeta) videos (mkSource xFilters (Fin 0) []))
  end.

(** Lines 415-420: the four variants, in the order they are queued; each
    is what the worker receives as [xFilters]. *)
Definition variants : list (list (list string)) :=
  [ [["Official Audio"]]; [["Audio"]]; [["Lyrics"]]; [[]] ].

(** [item.views], as a number. *)
Definition views_num (item : video) : num :=
  match v_views item with
  | Some n => of_N n
  | None => NaN
  end.

(** Lines 429-441. *)
Definition YouTube_calculateAccuracyFor (strippedArtists : list string) (expected : jsval)
    (highestViews : num) (item : video) : num :=
  let accuracy := Fin 0 in
  let accuracy :=
    (accuracy
     + (Fin 100
        - (if truthy expected
           then Math_abs (num_of expected - of_N (v_seconds item) * Fin 1000) / num_of expected
           else Fin (1 # 2))
          * Fin 100))%num in
  let accuracy :=
    (accuracy
     + (fun cur => cur * (Fin 80 / Fin 100) * (views_num item / highestViews))
         (Fin 100 - accuracy))%num in
  let accuracy :=
    (accuracy
     + (fun cur =>
          if (getWeight strippedArtists (stripText [v_author_name item]) >=? Fin 80)%num
          then (Fin 60 / Fin 100) * cur
          else Fin 0)
         (Fin 100 - accuracy))%num in
  accuracy.

(** Line 427: a fulfilled task gives its value, a rejected one [{}]. *)
Definition settled_value (ret : TaskOutcome source) : option source :=
  match ret with
  | Fulfilled value => Some value
  | Rejected _ => None
  end.

(** [sources.highestViews]; [Math.max] turns the [undefined] of [{}] into NaN. *)
Definition source_highestViews (s : option source) : num :=
  match s with
  | Some src => highestViews src
  | None => NaN
  end.

(** Lines 445-459: one video of one source. *)
Definition collect_item (strippedArtists : list string) (expected : jsval)
    (highestViews : num) (src : source) (final : dict ytCandidate) (item : video)
    : dict ytCandidate :=
  match v_videoId item with
  | Some id =>
      if negb (Object_in id final) then
        js_set id
          {| yt_title := v_title item;
             yt_type := v_type item;
             yt_author := v_author_name item;
             yt_duration := v_timestamp item;
             yt_duration_ms := (of_N (v_seconds item) * Fin 1000)%num;
             yt_videoId := id;
             yt_xFilters := xFilters src;
             yt_accuracy := YouTube_calculateAccuracyFor strippedArtists expected highestViews item |}
          final
      else final
  | None => final
  end.

(** Lines 443-460: [Array.isArray(source.results)] fails on [{}]. *)
Definition collect_source (strippedArtists : list string) (expected : jsval)
    (highestViews : num) (final : dict ytCandidate) (s : option source) : dict ytCandidate :=
  match s with
  | Some src => fold_left (collect_item strippedArtists expected highestViews src) (results src) final
  | None => final
  end.

(** Line 428: [Math.max(...searchResults.map(sources => sources.highestViews))] *)
Definition YouTube_highestViews (searchResults : list (option source)) : num :=
  Math_max (map source_highestViews searchResults).

Definition YouTube_final (strippedArtists : list string) (expected : jsval)
    (searchResults : list (option source)) : dict ytCandidate :=
  let highestViews := YouTube_highestViews searchResults in
  fold_left (collect_source strippedArtists expected highestViews) searchResults [].

(** Lines 423-461, once the four tasks have settled.  The last branch of
    the first test cannot be reached: when every task is rejected, so is
    the last of them. *)
Definition YouTube_rank (strippedArtists : list string) (expected : jsval)
    (searchResults : list (TaskOutcome source)) : completion (list ytCandidate) :=
  if forallb isRejected searchResults then
    match last (map Some searchResults) None with
    | Some (Rejected err) =>
        Throw (SearchError (new_YouTubeSearchError (err_message err) None (err_code err) None))
    | _ => Throw (Error "TypeError")
    end
  else
    Return
      (Array_sort (byAccuracy yt_accuracy)
         (Object_values
            (YouTube_final strippedArtists expected (map settled_value searchResults)))).

Definition YouTube_strippedMeta (args : validArgs) : list string :=
  stripText (split space (va_track args)) ++ stripText (va_artists args).

(** Modelled from the spec: [async_queue.js] is not among the sources.
    "[push(batch)] accepts an ordered sequence of argument tuples and
    returns, once all tasks in the batch have settled, an ordered sequence
    of results/errors in the same order as submitted", and a task's failure
    fails no sibling task.  Lines 413-422: the worker is applied to the
    elements of each tuple, and [reflect()] gives the outcome of each
    task. *)
Definition YouTube_searchResults (ytSearch : string -> jsError + list video)
    (args : validArgs) : list (TaskOutcome source) :=
  map (searchQueue_worker ytSearch (YouTube_strippedMeta args)) variants.

(** [search] *)
Definition YouTube_search (ytSearch : string -> jsError + list video)
    (artists track album duration : jsval) : run (list ytCandidate) :=
  match _getSearchArgs artists track album duration with
  | inl message => mkRun [] (Throw (Error message))
  | inr args =>
      mkRun (map (variant_query (YouTube_strippedMeta args)) variants)
            (YouTube_rank (stripText (va_artists args)) (va_duration args)
               (YouTube_searchResults ytSearch args))
  end.

(* ----------------------------------------------------------------- *)
(** *** Backend A: [#request], [#deriveConfig] and [#search] (lines 88-282) *)

(** [#request] (lines 88-104): an error of the transport is thrown again
    as a [YouTubeSearchError]; so is a response served from the page
    "coming soon". *)
Definition request (got : transport) (opts : gotOptions) : action value :=
  fun w =>
    let w' := {| apiConfig := apiConfig w; sent := sent w ++ [opts] |} in
    match got (List.length (sent w)) opts with
    | inl err =>
        (w', inl (Thrown (SearchError
                   (new_YouTubeSearchError (got_message err)
                      (option_map fst (got_response err))
                      (got_code err)
                      (option_map snd (got_response err))))))
    | inr response =>
        if res_url response =? "https://music.youtube.com/coming-soon/"
        then (w', inl (Thrown (SearchError
                        (new_YouTubeSearchError
                           "YouTube Music is not available in your country"
                           None None None))))
        else (w', inr (res_body response))
    end.

(** The request of line 108. *)
Definition config_request : gotOptions :=
  {| opt_url := "https://music.youtube.com/";
     opt_method := "get";
     opt_timeout := None;
     opt_searchParams := None;
     opt_responseType := None;
     opt_json := None;
     opt_referer := None |}.

(** [#deriveConfig] (lines 106-115). *)
Definition deriveConfig (got : transport) (force : bool) : action value :=
  fun w =>
    if value_truthy (apiConfig w) && negb force then (w, inr (apiConfig w))
    else
      (body <~ request got config_request ;;
       text <~ action_of (as_text (value_or body (VStr ""))) ;;
       match ytcfg_match text with
       | Some captured =>
           match JSON_parse captured with
           | Some config =>
               fun w' => ({| apiConfig := VObj config; sent := sent w' |}, inr (VObj config))
           | None => action_throw SyntaxError
           end
       | None =>
           action_throw
             (Thrown (SearchError
                (new_YouTubeSearchError "Failed to extract YouTube Music Configuration"
                   None None None)))
       end)%action w.

(** The request of lines 138-157. *)
Definition search_request (INNERTUBE_API_KEY INNERTUBE_CLIENT_NAME INNERTUBE_CLIENT_VERSION
    queryObject params : value) : gotOptions :=
  {| opt_url := "https://music.youtube.com/youtubei/v1/search";
     opt_method := "post";
     opt_timeout := Some 10000%N;
     opt_searchParams :=
       Some (spread params [("alt", VStr "json"); ("key", INNERTUBE_API_KEY)]);
     opt_responseType := Some "json";
     opt_json :=
       Some (spread queryObject
               [("context",
                 VObj [("client",
                        VObj [("clientName", INNERTUBE_CLIENT_NAME);
                              ("clientVersion", INNERTUBE_CLIENT_VERSION);
                              ("hl", VStr "en");
                              ("gl", VStr "US")])])]);
     opt_referer := Some "https://music.youtube.com/search" |}.

(** Lines 161-166: the layers of the response. *)
Definition shelf_of (response : value) : attempt (list value) :=
  continued <- has_key "continuationContents" response ;;
  if negb continued then
    sections <- as_array (walk response SECTION_LIST) ;;
    mapM (fun section =>
            renderer <- get section "musicShelfRenderer" ;;
            inr (value_or renderer section))
         sections
  else
    inr [value_or
           (walk response [Key "continuationContents"; Key "musicShelfContinuation"])
           (walk response [Key "continuationContents"; Key "sectionListContinuation"])].

(** A value in a template literal. *)
Definition template (v : value) : string :=
  match v with
  | VStr s => s
  | _ => ToString v
  end.

(** Lines 172-184: the key a layer is stored under. *)
Definition sectionKey (layerName : value) : string :=
  if is_text layerName "Top result" then "top"
  else if is_text layerName "Songs" then "songs"
  else if is_text layerName "Videos" then "videos"
  else if is_text layerName "Albums" then "albums"
  else if is_text layerName "Artists" then "artists"
  else if is_text layerName "Playlists" then "playlists"
  else "other" ++ (if value_truthy layerName then "(" ++ template layerName ++ ")" else "").

(** Lines 189-195. *)
Definition getItemRuns (item : value) (index : nat) : value :=
  walk item [Key "flexColumns"; Index index;
             Key "musicResponsiveListItemFlexColumnRenderer"; Key "text"; Key "runs"].

Definition getItemText (item : value) (index run_index : nat) : attempt value :=
  run <- elem (getItemRuns item index) run_index ;;
  get run "text".

(** [runs[runs.length - 1].text] and [runs[0].text], on the array [runs]:
    of an empty array both elements are [undefined]. *)
Definition last_text (runs : list value) : attempt value :=
  get (last runs VUndefined) "text".

Definition first_text (runs : list value) : attempt value :=
  get (nth 0 runs VUndefined) "text".

(** [text.split(' ')[0]] and the first element a destructuring takes of
    [text.split(' ')]: [split] never answers the empty array. *)
Definition first_word (text : string) : string := hd "" (split space text).

(** Lines 214-221: the navigable runs whose id starts with "UC" are the
    artists, the last of the others is the album. *)
Definition artists_and_album (navigable : list value) : attempt (list value * value) :=
  foldM (fun acc item =>
           id <- get item "id" ;;
           id <- as_text id ;;
           inr (if String.prefix "UC" id
                then (fst acc ++ [item], snd acc)
                else (fst acc, item)))
        navigable ([], VNull).

(** Line 204: the runs of the second column, less the separators. *)
Definition item_runs (content : value) : attempt (list value) :=
  runs <- as_array (getItemRuns content 1) ;;
  filterM (fun item =>
             text <- get item "text" ;;
             inr (negb (is_text text " • ")))
          runs.

(** Lines 205-207: the runs that lead somewhere, as [{name, id}]. *)
Definition item_navigable (runs : list value) : attempt (list value) :=
  items <- filterM (has_key "navigationEndpoint") runs ;;
  mapM (fun item =>
          text <- get item "text" ;;
          inr (VObj [("name", text); ("id", walk item NAVIGATION_BROWSE_ID)]))
       items.

(** Lines 199-200: the type of an item. *)
Definition content_type (layerName : value) (content : value) : attempt string :=
  type <- (if is_text layerName "Songs" then inr "song"
           else text <- getItemText content 1 0 ;;
                text <- as_text text ;;
                inr (toLowerCase text)) ;;
  inr (if type =? "single" then "album" else type).

(** Lines 197 and 202-255: the item of that type. *)
Definition build_item (type : string) (content : value) : attempt (dict value) :=
  let result : dict value := [] in
  let result :=
    if includes ["song"; "video"; "album"; "artist"; "playlist"] type
    then js_set "type" (VStr type) result else result in
  runs <- item_runs content ;;
  navigable <- item_navigable runs ;;
  result <- (if includes ["song"; "video"; "album"; "playlist"] type
             then title <- getItemText content 0 0 ;;
                  inr (js_set "title" title result)
             else inr result) ;;
  result <- (if includes ["song"; "video"; "album"; "playlist"] type
             then both <- artists_and_album navigable ;;
                  inr (js_set "album" (snd both)
                         (js_set "artists" (VArr (fst both)) result))
             else inr result) ;;
  let result :=
    if includes ["song"; "video"] type
    then js_set "videoId"
           (walk content
              (PLAY_BUTTON ++ [Key "playNavigationEndpoint"; Key "watchEndpoint";
                               Key "videoId"]))
           result
    else result in
  let browseId := walk content NAVIGATION_BROWSE_ID in
  let result :=
    if includes ["artist"; "album"; "playlist"] type
    then js_set "browseId" browseId result else result in
  if includes ["artist"; "album"; "playlist"] type && negb (value_truthy browseId)
  then inr []
  else if type =? "song" then
    duration <- last_text runs ;;
    inr (js_set "duration" duration result)
  else if type =? "video" then
    let result := js_delete "album" result in
    texts <- mapM (fun item => get item "text") (slice_last 2 runs) ;;
    let result := js_set "views" (nth 0 texts VUndefined) result in
    let result := js_set "duration" (nth 1 texts VUndefined) result in
    views <- as_text (nth 0 texts VUndefined) ;;
    inr (js_set "views" (VStr (first_word views)) result)
  else if type =? "album" then
    text <- first_text runs ;;
    text <- as_text text ;;
    let result := js_set "type" (VStr (toLowerCase text)) result in
    let result := js_delete "album" result in
    title <- getItemText content 0 0 ;;
    let result := js_set "title" title result in
    year <- last_text runs ;;
    inr (js_set "year" year result)
  else if type =? "artist" then
    artist <- getItemText content 0 0 ;;
    let result := js_set "artist" artist result in
    text <- last_text runs ;;
    text <- as_text text ;;
    inr (js_set "subscribers" (VStr (first_word text)) result)
  else if type =? "playlist" then
    let result :=
      js_set "author"
        (match js_get "artists" result with Some a => a | None => VUndefined end)
        result in
    let result := js_delete "artists" result in
    let result := js_delete "album" result in
    text <- last_text runs ;;
    text <- as_text text ;;
    inr (js_set "itemCount" (VNum (parseInt10 (first_word text))) result)
  else inr result.

(** Lines 186-256: an element of [layer.contents] turned into an item. *)
Definition parse_content (layerName : value) (content : value) : attempt (dict value) :=
  content <- get content "musicResponsiveListItemRenderer" ;;
  type <- content_type layerName content ;;
  build_item type content.

(** Lines 169-280: a layer turned into an entry, the key and the section. *)
Definition parse_layer (layer : value) : attempt (string * shelfSection) :=
  let layerName := walk layer TITLE_TEXT in
  contents <- get layer "contents" ;;
  contents <- as_array (value_or contents (VArr [])) ;;
  items <- mapM (parse_content layerName) contents ;;
  if is_text layerName "Top result"
  then inr (sectionKey layerName, mkShelf items None None)
  else
    continuations <- get layer "continuations" ;;
    bottomEndpoint <- get layer "bottomEndpoint" ;;
    inr (sectionKey layerName,
         mkShelf items
           (Some (if value_truthy continuations then Some layer else None))
           (Some (if value_truthy bottomEndpoint then Some layer else None))).

(** Lines 159-281: the response turned into the sections. *)
Definition parse_response (response : value) : attempt (dict shelfSection) :=
  shelf <- shelf_of response ;;
  entries <- mapM parse_layer shelf ;;
  inr (Object_fromEntries entries).

(** [#search] (lines 126-282). *)
Definition private_search (got : transport) (queryObject params : value)
    : action (dict shelfSection) :=
  if negb (value_typeof queryObject =? "object")
  then action_throw (Thrown (Error "<queryObject> must be an object"))
  else if value_truthy params && negb (value_typeof params =? "object")
  then action_throw (Thrown (Error "<params>, if defined must be an object"))
  else
    (config <~ deriveConfig got false ;;
     INNERTUBE_API_KEY <~ action_of (get config "INNERTUBE_API_KEY") ;;
     INNERTUBE_CLIENT_NAME <~ action_of (get config "INNERTUBE_CLIENT_NAME") ;;
     INNERTUBE_CLIENT_VERSION <~ action_of (get config "INNERTUBE_CLIENT_VERSION") ;;
     response <~ request got
                   (search_request INNERTUBE_API_KEY INNERTUBE_CLIENT_NAME
                      INNERTUBE_CLIENT_VERSION queryObject params) ;;
     action_of (parse_response response))%action.

(** Lines 262-273 and 276: the functions [loadMore] and [expand] of a
    section, called; each reads its layer, searches again and answers the
    section "other" of what it gets ([undefined] when there is none). *)
Definition loadMore (got : transport) (layer : value) : action (option shelfSection) :=
  (continuationObject <~ action_of (continuations <- get layer "continuations" ;;
                                    first <- elem continuations 0 ;;
                                    get first "nextContinuationData") ;;
   icit <~ action_of (get continuationObject "clickTrackingParams") ;;
   continuation <~ action_of (get continuationObject "continuation") ;;
   found <~ private_search got (VObj [])
              (VObj [("icit", icit); ("continuation", continuation)]) ;;
   action_ret (js_get "other" found))%action.

Definition expand (got : transport) (layer : value) : action (option shelfSection) :=
  (searchEndpoint <~ action_of (bottomEndpoint <- get layer "bottomEndpoint" ;;
                                get bottomEndpoint "searchEndpoint") ;;
   found <~ private_search got searchEndpoint (VObj []) ;;
   action_ret (js_get "other" found))%action.

(* ----------------------------------------------------------------- *)
(** *** The notions the properties below are stated with *)

(** The candidate an item of [validSections] yields when it carries the
    key [videoId] and passes both thresholds of lines 337 and 347. *)
Definition YouTubeMusic_candidate (expected : jsval) (item : weighted) : option ytmCandidate :=
  match item_videoId (w_item item) with
  | Some id =>
      let cleanItem := mk_cleanItem (w_item item) id in
      let accuracy := YouTubeMusic_calculateAccuracyFor expected cleanItem (weight item) in
      if (weight item >? Fin 65)%num && (accuracy >? Fin 80)%num
      then Some (mkCandidate cleanItem accuracy)
      else None
  | None => None
  end.

(** The key of [final] a candidate of Backend A is stored under. *)
Definition ytm_key (c : ytmCandidate) : string := propertyKey (videoId (clean c)).

(** The candidate a video of a source yields when it carries a video id. *)
Definition YouTube_candidate (strippedArtists : list string) (expected : jsval)
    (highestViews : num) (entry : source * video) : option ytCandidate :=
  let (src, item) := entry in
  match v_videoId item with
  | Some id =>
      Some {| yt_title := v_title item;
              yt_type := v_type item;
              yt_author := v_author_name item;
              yt_duration := v_timestamp item;
              yt_duration_ms := (of_N (v_seconds item) * Fin 1000)%num;
              yt_videoId := id;
              yt_xFilters := xFilters src;
              yt_accuracy :=
                YouTube_calculateAccuracyFor strippedArtists expected highestViews item |}
  | None => None
  end.

(** The videos of the sources in the order [search] meets them, each with
    the source it comes from; a failed variant brings none. *)
Definition encountered (searchResults : list (option source)) : list (source * video) :=
  flat_map
    (fun s => match s with
              | Some src => map (pair src) (results src)
              | None => []
              end)
    searchResults.

(** The test of line 383: the video is kept by the worker. *)
Definition kept (strippedMeta : list string) (item : video) : bool :=
  (getWeight strippedMeta (stripText (split space (v_title item) ++ [v_author_name item]))
   >? Fin 70)%num.

(** The sources [search] works on (line 427). *)
Definition YouTube_sources (ytSearch : string -> jsError + list video) (args : validArgs)
    : list (option source) :=
  map settled_value (YouTube_searchResults ytSearch args).

(** The keyword search in which a failure is an empty listing instead. *)
Definition absorb_failures (ytSearch : string -> jsError + list video)
    : string -> jsError + list video :=
  fun query =>
    match ytSearch query with
    | inl _ => inr []
    | inr videos => inr videos
    end.

(** A candidate of Backend B but for its accuracy. *)
Definition without_accuracy (c : ytCandidate) : ytCandidate :=
  {| yt_title := yt_title c;
     yt_type := yt_type c;
     yt_author := yt_author c;
     yt_duration := yt_duration c;
     yt_duration_ms := yt_duration_ms c;
     yt_videoId := yt_videoId c;
     yt_xFilters := yt_xFilters c;
     yt_accuracy := NaN |}.

(** The expected duration, when one was supplied: what the test
    [duration ? ... : 0.5] of both adapters accepts.  (A duration of 0 is
    taken as none.) *)
Definition supplied (duration : jsval) : option num :=
  if truthy duration then Some (num_of duration) else None.

(** The spec's words for Backend A (section 4.5): the duration penalty,
    the boost "toward 100 by a type-dependent fraction of the remaining
    gap", and the accuracy they make. *)
Definition spec_duration_penalty (expected_ms : option num) (actual_ms : num) : num :=
  match expected_ms with
  | Some e => (Math_abs (e - actual_ms) / e * Fin 100)%num
  | None => Fin 50
  end.

Definition spec_boost (percent : Q) (a : num) : num :=
  (a + Fin (percent / 100) * (Fin 100 - a))%num.

Definition spec_percent_A (type : option string) : Q :=
  match type with
  | Some s => if s =? "song" then 50 else if s =? "video" then 25 else 5
  | None => 5
  end.

Definition spec_accuracy_A (expected_ms : option num) (actual_ms weight : num)
    (type : option string) : num :=
  spec_boost (spec_percent_A type) (weight - spec_duration_penalty expected_ms actual_ms)%num.

(** The spec's words for Backend B (section 4.5): the accuracy "starts at
    100 - duration_penalty", "then gains up to 80% of its remaining gap
    scaled by views / maxViews across the batch, then gains up to 60% of its
    remaining gap if the candidate's author" matches. *)
Definition spec_accuracy_B (penalty views maxViews : num) (authorMatches : bool) : num :=
  let a := (Fin 100 - penalty)%num in
  let a := (a + (Fin 100 - a) * Fin (80 / 100) * (views / maxViews))%num in
  if authorMatches then spec_boost 60 a else a.

(** The accuracies on rationals, for finite inputs.  Backend A: the weight
    less the penalty, boosted by [p] percent of the gap.  Backend B: 100
    less the penalty, then 80% of the gap scaled by [views / highestViews],
    then 60% of the gap when the author matches. *)
Definition accA_Q (p w pen : Q) : Q :=
  (w - pen) + p / 100 * (100 - (w - pen)).

Definition accB1_Q (a0 v h : Q) : Q :=
  a0 + (100 - a0) * (80 / 100) * (v / h).

Definition accB2_Q (authorMatches : bool) (a1 : Q) : Q :=
  a1 + (if authorMatches then 60 / 100 * (100 - a1) else 0).

Definition accB_Q (authorMatches : bool) (pen v h : Q) : Q :=
  accB2_Q authorMatches (accB1_Q (100 - pen) v h).

(** The penalty on rationals: 50 when no duration is supplied. *)
Definition penalty_Q (expected : option Q) (actual_ms : Q) : Q :=
  match expected with
  | Some d => Qabs (d - actual_ms) / d * 100
  | None => 50
  end.

(** The expected duration of a well-formed query (section 3 of the spec:
    "optional, non-negative"): none, or a finite number that is not
    negative.  [expected_Q] is the duration the adapters then work with. *)
Definition well_formed_duration (duration : jsval) : Prop :=
  duration = JUndefined \/ exists d, duration = JNum (Fin d) /\ 0 <= d.

Definition expected_Q (duration : jsval) : option Q :=
  match duration with
  | JNum (Fin d) => if Qeq_bool d 0 then None else Some d
  | _ => None
  end.

(** Line 437: the author of the video matches the artists of the query. *)
Definition authorMatches (strippedArtists : list string) (item : video) : bool :=
  (getWeight strippedArtists (stripText [v_author_name item]) >=? Fin 80)%num.

Definition Q_of_N (n : N) : Q := inject_Z (Z.of_N n).

(** The largest of the view counts of some videos, absent ones counting
    as 0; 0 when there is no video. *)
Definition most_views (videos : list video) : N :=
  fold_right N.max 0%N (map views_or_0 videos).

(** The character occurs in the string. *)
Fixpoint occurs (c : ascii) (s : string) : bool :=
  match s with
  | EmptyString => false
  | String c' rest => Ascii.eqb c' c || occurs c rest
  end.

(** The keys of an item of each type, in the order lines 202-252 set
    them (less the keys lines 237-251 delete). *)
Definition item_keys (type : string) : list string :=
  if type =? "song" then ["type"; "title"; "artists"; "album"; "videoId"; "duration"]
  else if type =? "video" then ["type"; "title"; "artists"; "videoId"; "views"; "duration"]
  else if type =? "album" then ["type"; "title"; "artists"; "browseId"; "year"]
  else if type =? "artist" then ["type"; "browseId"; "artist"; "subscribers"]
  else if type =? "playlist" then ["type"; "title"; "browseId"; "author"; "itemCount"]
  else [].

(** A navigable run whose id is channel-like: it starts with "UC". *)
Definition is_channel (item : value) : bool :=
  match item with
  | VObj props =>
      match js_get "id" props with
      | Some (VStr id) => String.prefix "UC" id
      | _ => false
      end
  | _ => false
  end.

(** A computation that, when it throws, throws a [TypeError]. *)
Definition throws_only_TypeError {A : Type} (m : attempt A) : Prop :=
  forall e, m = inl e -> e = TypeError.

(** A method that never throws a plain [Error]. *)
Definition throws_no_Error {A : Type} (m : action A) : Prop :=
  forall w w' message, m w <> (w', inl (Thrown (Error message))).

(** The two checks of lines 133-134 pass. *)
Definition valid_query (queryObject params : value) : bool :=
  (value_typeof queryObject =? "object")
  && negb (value_truthy params && negb (value_typeof params =? "object")).

(* ================================================================= *)
(** ** Numbers: the finite fragment *)

Lemma Qsign_Eq (q : Q) : Qsign q = Eq <-> q == 0.
Proof. unfold Qsign. symmetry. apply Qeq_alt. Qed.

Lemma Qsign_Gt (q : Q) : Qsign q = Gt <-> 0 < q.
Proof. unfold Qsign. symmetry. apply Qgt_alt. Qed.

Lemma num_gt_Fin (x y : Q) : (Fin x >? Fin y)%num = true <-> y < x.
Proof.
  simpl. rewrite negb_true_iff. split; intros H.
  - apply Qnot_le_lt. intros Hle. apply Qle_bool_iff in Hle. congruence.
  - destruct (Qle_bool x y) eqn:E; [|reflexivity].
    apply Qle_bool_iff in E. exfalso. apply (Qlt_not_le _ _ H E).
Qed.

Lemma num_gt_Fin_false (x y : Q) : (Fin x >? Fin y)%num = false <-> x <= y.
Proof.
  simpl. rewrite negb_false_iff. apply Qle_bool_iff.
Qed.

Lemma num_ge_Fin (x y : Q) : (Fin x >=? Fin y)%num = true <-> y <= x.
Proof. simpl. apply Qle_bool_iff. Qed.

Lemma num_truthy_Fin (q : Q) : num_truthy (Fin q) = true <-> ~ q == 0.
Proof.
  simpl. rewrite negb_true_iff. split; intros H.
  - now apply Qeq_bool_neq.
  - destruct (Qeq_bool q 0) eqn:E; [|reflexivity].
    apply Qeq_bool_iff in E. contradiction.
Qed.

Lemma num_div_Fin (x d : Q) : ~ d == 0 -> (Fin x / Fin d)%num = Fin (x / d).
Proof.
  intros Hd. simpl. destruct (Qsign d) eqn:E; try reflexivity.
  apply Qsign_Eq in E. contradiction.
Qed.

Lemma num_gt_irrefl (a : num) : (a >? a)%num = false.
Proof.
  destruct a; simpl; try reflexivity.
  rewrite negb_false_iff. apply Qle_bool_iff. apply Qle_refl.
Qed.

Lemma num_gt_asym (a b : num) : (a >? b)%num = true -> (b >? a)%num = false.
Proof.
  destruct a, b; simpl; try reflexivity; try discriminate.
  rewrite negb_true_iff, negb_false_iff. intros H.
  apply Qle_bool_iff. apply Qlt_le_weak. apply Qnot_le_lt. intros Hle.
  apply Qle_bool_iff in Hle. congruence.
Qed.

Lemma num_gt_trans (a b c : num) :
  (a >? b)%num = true -> (b >? c)%num = true -> (a >? c)%num = true.
Proof.
  destruct a, b, c; simpl; try reflexivity; try discriminate.
  intros H1 H2. apply num_gt_Fin. apply num_gt_Fin in H1, H2.
  eapply Qlt_trans; eassumption.
Qed.

(** A number equal to another is greater than the same numbers. *)
Lemma num_gt_same_l (a b c : num) :
  num_sameb a b = true -> (a >? c)%num = (b >? c)%num.
Proof.
  destruct a, b, c; simpl; try reflexivity; try discriminate.
  intros H. apply Qeq_bool_iff in H. now rewrite H.
Qed.

Lemma num_gt_same_r (a b c : num) :
  num_sameb a b = true -> (c >? a)%num = (c >? b)%num.
Proof.
  destruct a, b, c; simpl; try reflexivity; try discriminate.
  intros H. apply Qeq_bool_iff in H. now rewrite H.
Qed.

Lemma num_sameb_both (a b v : num) :
  num_sameb a v = true -> num_sameb b v = true -> num_sameb a b = true.
Proof.
  destruct a, b, v; simpl; try reflexivity; try discriminate.
  intros H1 H2. apply Qeq_bool_iff in H1, H2. apply Qeq_bool_iff.
  now rewrite H1, H2.
Qed.

Lemma num_sameb_same (a b : num) : num_sameb a b = true <-> num_same a b.
Proof.
  destruct a, b; simpl; try tauto; try (split; [discriminate | contradiction]).
  apply Qeq_bool_iff.
Qed.

(* ================================================================= *)
(** ** [Array_sort]: a stable sort *)

Section SortFacts.
Context {A : Type} (acc : A -> num).

Lemma byAccuracy_neg (a b : A) :
  (byAccuracy acc a b <? 0)%Z = (acc a >? acc b)%num.
Proof. unfold byAccuracy. now destruct (acc a >? acc b)%num. Qed.

Lemma sort_insert_perm (cmp : A -> A -> Z) (x : A) (l : list A) :
  Permutation (sort_insert cmp x l) (x :: l).
Proof.
  induction l as [|y l IH]; simpl.
  - apply Permutation_refl.
  - destruct (cmp x y <? 0)%Z.
    + apply Permutation_refl.
    + eapply perm_trans; [apply perm_skip, IH | apply perm_swap].
Qed.

Lemma fold_insert_perm (cmp : A -> A -> Z) (l done : list A) :
  Permutation (fold_left (fun s x => sort_insert cmp x s) l done) (done ++ l).
Proof.
  revert done. induction l as [|x l IH]; intros done; simpl.
  - rewrite app_nil_r. apply Permutation_refl.
  - eapply perm_trans; [apply IH|].
    eapply perm_trans; [apply Permutation_app_tail, sort_insert_perm|].
    simpl. apply Permutation_middle.
Qed.

Lemma Array_sort_perm (cmp : A -> A -> Z) (l : list A) :
  Permutation (Array_sort cmp l) l.
Proof. unfold Array_sort. apply (fold_insert_perm cmp l []). Qed.

Lemma Array_sort_In (cmp : A -> A -> Z) (l : list A) (x : A) :
  In x (Array_sort cmp l) <-> In x l.
Proof.
  split; apply Permutation_in;
    [apply Array_sort_perm | apply Permutation_sym, Array_sort_perm].
Qed.

Lemma sort_insert_descending (x : A) (l : list A) :
  descending acc l -> descending acc (sort_insert (byAccuracy acc) x l).
Proof.
  unfold descending. induction 1 as [|y l Hl IH Hy]; simpl.
  - constructor; constructor.
  - rewrite byAccuracy_neg. destruct (acc x >? acc y)%num eqn:E.
    + constructor; [constructor; assumption|].
      constructor; [now apply num_gt_asym|].
      rewrite Forall_forall in *. intros z Hz.
      specialize (Hy z Hz).
      destruct (acc z >? acc x)%num eqn:E'; [|reflexivity].
      rewrite (num_gt_trans _ _ _ E' E) in Hy. discriminate.
    + constructor; [assumption|].
      rewrite Forall_forall in *. intros z Hz.
      apply (Permutation_in _ (sort_insert_perm _ x l)) in Hz.
      destruct Hz as [<-|Hz]; [assumption | now apply Hy].
Qed.

Lemma fold_insert_descending (l done : list A) :
  descending acc done ->
  descending acc (fold_left (fun s x => sort_insert (byAccuracy acc) x s) l done).
Proof.
  revert done. induction l as [|x l IH]; intros done Hd; simpl.
  - assumption.
  - apply IH. now apply sort_insert_descending.
Qed.

Lemma Array_sort_descending (l : list A) :
  descending acc (Array_sort (byAccuracy acc) l).
Proof. apply fold_insert_descending. constructor. Qed.

(** Where [x] goes in, nothing from there on has the accuracy of [x]. *)
Lemma of_accuracy_below (v : num) (x y : A) (l : list A) :
  (acc x >? acc y)%num = true ->
  num_sameb (acc x) v = true ->
  Forall (fun z => (acc z >? acc y)%num = false) l ->
  of_accuracy acc v (y :: l) = [].
Proof.
  intros Hxy Hx Hl. unfold of_accuracy. simpl.
  destruct (num_sameb (acc y) v) eqn:Ey.
  - rewrite (num_gt_same_r _ _ _ (num_sameb_both _ _ _ Ey Hx)) in Hxy.
    rewrite num_gt_irrefl in Hxy. discriminate.
  - induction Hl as [|z l Hz Hl IH]; simpl; [reflexivity|].
    destruct (num_sameb (acc z) v) eqn:Ez; [|assumption].
    rewrite (num_gt_same_l _ _ _ (num_sameb_both _ _ _ Ez Hx)) in Hz. congruence.
Qed.

(** Stability, one insertion at a time. *)
Lemma sort_insert_of_accuracy (v : num) (x : A) (l : list A) :
  descending acc l ->
  of_accuracy acc v (sort_insert (byAccuracy acc) x l)
  = of_accuracy acc v l ++ of_accuracy acc v [x].
Proof.
  unfold descending. induction 1 as [|y l Hl IH Hy]; simpl.
  - reflexivity.
  - rewrite byAccuracy_neg. destruct (acc x >? acc y)%num eqn:E.
    + destruct (num_sameb (acc x) v) eqn:Ex.
      * pose proof (of_accuracy_below v x y l E Ex Hy) as Hnone.
        unfold of_accuracy in *. cbn [filter] in *. rewrite Ex, Hnone.
        reflexivity.
      * unfold of_accuracy. cbn [filter]. rewrite Ex, app_nil_r. reflexivity.
    + unfold of_accuracy in *. simpl.
      destruct (num_sameb (acc y) v); simpl; now rewrite IH.
Qed.

Lemma fold_insert_of_accuracy (v : num) (l done : list A) :
  descending acc done ->
  of_accuracy acc v (fold_left (fun s x => sort_insert (byAccuracy acc) x s) l done)
  = of_accuracy acc v done ++ of_accuracy acc v l.
Proof.
  revert done. induction l as [|x l IH]; intros done Hd; simpl.
  - unfold of_accuracy. simpl. now rewrite app_nil_r.
  - rewrite IH by now apply sort_insert_descending.
    rewrite sort_insert_of_accuracy by assumption.
    rewrite <- app_assoc. f_equal.
    unfold of_accuracy. simpl. now destruct (num_sameb (acc x) v).
Qed.

Lemma Array_sort_stable (v : num) (l : list A) :
  of_accuracy acc v (Array_sort (byAccuracy acc) l) = of_accuracy acc v l.
Proof. unfold Array_sort. now rewrite fold_insert_of_accuracy by constructor. Qed.

End SortFacts.

(** A list of NaN accuracies is returned as it is. *)
Lemma fold_insert_all_NaN {A : Type} (acc : A -> num) (l done : list A) :
  (forall c, In c l -> acc c = NaN) ->
  fold_left (fun s x => sort_insert (byAccuracy acc) x s) l done = done ++ l.
Proof.
  revert done. induction l as [|x l IH]; intros done Hl; simpl.
  - now rewrite app_nil_r.
  - rewrite IH by (intros c Hc; apply Hl; now right).
    assert (Hx : sort_insert (byAccuracy acc) x done = done ++ [x]).
    { induction done as [|y done IHd]; simpl; [reflexivity|].
      rewrite byAccuracy_neg, (Hl x (or_introl eq_refl)). simpl. now rewrite IHd. }
    rewrite Hx, <- app_assoc. reflexivity.
Qed.

Lemma Array_sort_all_NaN {A : Type} (acc : A -> num) (l : list A) :
  (forall c, In c l -> acc c = NaN) -> Array_sort (byAccuracy acc) l = l.
Proof. intros H. unfold Array_sort. now rewrite fold_insert_all_NaN. Qed.

(* ================================================================= *)
(** ** Dictionaries: the first proposal under a key wins *)

Section DictFacts.
Context {X V : Type} (key : V -> string) (propose : X -> option V).

Lemma js_in_In (k : string) (d : dict V) : js_in k d = true <-> In k (map fst d).
Proof.
  unfold js_in. rewrite existsb_exists, in_map_iff. split.
  - intros [e [He Hk]]. apply String.eqb_eq in Hk. now exists e.
  - intros [e [Hk He]]. exists e. split; [assumption|]. now apply String.eqb_eq.
Qed.

Lemma js_set_absent (k : string) (v : V) (d : dict V) :
  js_in k d = false -> js_set k v d = d ++ [(k, v)].
Proof.
  induction d as [|[k' v'] d IH]; simpl; [reflexivity|].
  intros H. apply orb_false_iff in H. destruct H as [Hk Hd].
  rewrite Hk. f_equal. now apply IH.
Qed.

Lemma keyed_nil : keyed key [].
Proof. split; constructor. Qed.

Lemma keyed_snoc (d : dict V) (v : V) :
  keyed key d -> js_in (key v) d = false -> keyed key (d ++ [(key v, v)]).
Proof.
  intros [Hk Hn] Hin. split.
  - apply Forall_app. split; [assumption|]. constructor; [reflexivity|constructor].
  - rewrite map_app. simpl.
    apply Permutation_NoDup with (l := key v :: map fst d).
    + apply Permutation_cons_append.
    + constructor; [|assumption].
      intros Hc. apply js_in_In in Hc. congruence.
Qed.

(** The keys of a dictionary are the keys of its values. *)
Lemma keyed_keys (d : dict V) : keyed key d -> map fst d = map key (stored d).
Proof.
  intros [Hk _]. unfold stored. induction Hk as [|[k v] d He _ IH]; [reflexivity|].
  simpl in *. now rewrite He, IH.
Qed.

Lemma first_with_key_values_None (k : string) (d : dict V) :
  keyed key d -> js_in k d = false -> first_with_key key k (stored d) = None.
Proof.
  intros [Hk _] Hin. unfold first_with_key, stored.
  induction d as [|[k' v'] d IH]; simpl in *; [reflexivity|].
  apply orb_false_iff in Hin. destruct Hin as [Hk' Hd].
  inversion Hk as [|? ? He Hk'']; subst. simpl in He. subst k'.
  rewrite Hk'. now apply IH.
Qed.

Lemma first_with_key_values_Some (k : string) (d : dict V) :
  keyed key d -> js_in k d = true ->
  exists v, first_with_key key k (stored d) = Some v.
Proof.
  intros [Hk _] Hin. unfold first_with_key, stored.
  induction d as [|[k' v'] d IH]; simpl in *; [discriminate|].
  inversion Hk as [|? ? He Hk'']; subst. simpl in He. subst k'.
  destruct (key v' =? k) eqn:E; [now exists v'|].
  simpl in Hin. now apply IH.
Qed.

Lemma first_with_key_app (k : string) (l1 l2 : list V) :
  first_with_key key k (l1 ++ l2)
  = match first_with_key key k l1 with
    | Some v => Some v
    | None => first_with_key key k l2
    end.
Proof.
  unfold first_with_key. induction l1 as [|v l1 IH]; simpl; [reflexivity|].
  now destruct (key v =? k).
Qed.

(** A proposal under an inherited name is dropped; any other is stored
    unless the object has the key. *)
Lemma first_wins_storable (d : dict V) (x : X) :
  first_wins key propose d x
  = match storable key propose x with
    | Some v => if js_in (key v) d then d else js_set (key v) v d
    | None => d
    end.
Proof.
  unfold first_wins, storable, Object_in. destruct (propose x) as [v|]; [|reflexivity].
  now destruct (inherited (key v)).
Qed.

Lemma proposed_cons (f : X -> option V) (x : X) (xs : list X) :
  proposed f (x :: xs)
  = match f x with
    | Some v => v :: proposed f xs
    | None => proposed f xs
    end.
Proof. unfold proposed. simpl. now destruct (f x). Qed.

Lemma proposed_storable_In (xs : list X) (v : V) :
  In v (proposed (storable key propose) xs)
  <-> In v (proposed propose xs) /\ inherited (key v) = false.
Proof.
  induction xs as [|x xs IH]; [simpl; split; [intros []|intros [[] _]]|].
  rewrite !proposed_cons. unfold storable at 1.
  destruct (propose x) as [w|]; [|exact IH].
  destruct (inherited (key w)) eqn:E; simpl; rewrite IH.
  - split.
    + intros [H Hv]. split; [now right|assumption].
    + intros [[<-|H] Hv]; [congruence|now split].
  - split.
    + intros [<-|[H Hv]]; [split; [now left|assumption]|split; [now right|assumption]].
    + intros [[<-|H] Hv]; [now left|right; now split].
Qed.

Lemma first_with_key_storable (xs : list X) (k : string) :
  first_with_key key k (proposed (storable key propose) xs)
  = if inherited k then None else first_with_key key k (proposed propose xs).
Proof.
  induction xs as [|x xs IH]; [simpl; now destruct (inherited k)|].
  rewrite !proposed_cons. unfold storable at 1.
  destruct (propose x) as [w|]; [|exact IH].
  unfold first_with_key in *. simpl.
  destruct (key w =? k) eqn:Ek.
  - apply String.eqb_eq in Ek. subst k.
    destruct (inherited (key w)) eqn:E; [exact IH|].
    simpl. now rewrite String.eqb_refl.
  - destruct (inherited (key w)); [exact IH|]. simpl. now rewrite Ek.
Qed.

Lemma proposed_storable_all (xs : list X) :
  forallb (fun v => negb (inherited (key v))) (proposed propose xs) = true ->
  proposed (storable key propose) xs = proposed propose xs.
Proof.
  induction xs as [|x xs IH]; [reflexivity|].
  rewrite !proposed_cons. unfold storable at 1.
  destruct (propose x) as [w|]; [|exact IH].
  simpl. intros H. apply andb_true_iff in H. destruct H as [Hw Hxs].
  apply negb_true_iff in Hw. rewrite Hw. f_equal. now apply IH.
Qed.

Lemma first_wins_keyed (d : dict V) (x : X) :
  keyed key d -> keyed key (first_wins key propose d x).
Proof.
  intros Hd. rewrite first_wins_storable.
  destruct (storable key propose x) as [v|]; [|assumption].
  destruct (js_in (key v) d) eqn:E; [assumption|].
  rewrite js_set_absent by assumption. now apply keyed_snoc.
Qed.

Lemma fold_first_wins_keyed (xs : list X) (d : dict V) :
  keyed key d -> keyed key (fold_left (first_wins key propose) xs d).
Proof.
  revert d. induction xs as [|x xs IH]; intros d Hd; simpl; [assumption|].
  apply IH. now apply first_wins_keyed.
Qed.

(** The entry found under a key is the one that was there, or else the
    first proposal with that key that can be stored. *)
Lemma fold_first_wins_first (xs : list X) (d : dict V) (k : string) :
  keyed key d ->
  first_with_key key k (stored (fold_left (first_wins key propose) xs d))
  = match first_with_key key k (stored d) with
    | Some v => Some v
    | None => first_with_key key k (proposed (storable key propose) xs)
    end.
Proof.
  revert d. induction xs as [|x xs IH]; intros d Hd; simpl fold_left.
  - now destruct (first_with_key key k (stored d)).
  - rewrite IH by now apply first_wins_keyed.
    rewrite first_wins_storable, proposed_cons.
    destruct (storable key propose x) as [v|]; [|reflexivity].
    destruct (js_in (key v) d) eqn:E.
    + destruct (first_with_key key k (stored d)) eqn:F; [reflexivity|].
      unfold first_with_key at 2. simpl.
      destruct (key v =? k) eqn:Ek; [|reflexivity].
      apply String.eqb_eq in Ek. subst k.
      destruct (first_with_key_values_Some _ _ Hd E) as [w Hw]. congruence.
    + rewrite js_set_absent by assumption.
      unfold stored. rewrite map_app. fold (stored d). simpl.
      rewrite first_with_key_app.
      destruct (first_with_key key k (stored d)) eqn:F; [reflexivity|].
      unfold first_with_key. simpl. now destruct (key v =? k).
Qed.

(** Under a key there is at most one value. *)
Lemma with_key_values (k : string) (d : dict V) :
  keyed key d ->
  with_key key k (stored d)
  = match first_with_key key k (stored d) with
    | Some v => [v]
    | None => []
    end.
Proof.
  intros Hd. induction d as [|[k' v'] d IH]; [reflexivity|].
  destruct Hd as [Hk Hn].
  inversion Hk as [|? ? He Hk'']; subst. simpl in He. subst k'.
  inversion Hn as [|? ? Hnotin Hn']; subst.
  assert (Hd : keyed key d) by now split.
  pose proof (first_with_key_values_None (key v') d Hd) as HN.
  unfold with_key, first_with_key, stored in *. simpl.
  destruct (key v' =? k) eqn:E.
  - f_equal. apply String.eqb_eq in E. subst k.
    rewrite IH by assumption. rewrite HN; [reflexivity|].
    destruct (js_in (key v') d) eqn:F; [|reflexivity].
    apply js_in_In in F. contradiction.
  - now apply IH.
Qed.

(** Deduplication: under a key that is not inherited, the dictionary holds
    the first proposal with that key, and nothing else; under an inherited
    name it holds nothing. *)
Lemma first_wins_stored (xs : list X) (k : string) :
  with_key key k (stored (fold_left (first_wins key propose) xs []))
  = if inherited k then []
    else match first_with_key key k (proposed propose xs) with
         | Some v => [v]
         | None => []
         end.
Proof.
  rewrite with_key_values by (apply fold_first_wins_keyed, keyed_nil).
  rewrite fold_first_wins_first by apply keyed_nil. simpl.
  rewrite first_with_key_storable. now destruct (inherited k).
Qed.

Lemma fold_first_wins_In (xs : list X) (d : dict V) (v : V) :
  In v (stored (fold_left (first_wins key propose) xs d)) ->
  In v (stored d) \/ In v (proposed propose xs).
Proof.
  revert d. induction xs as [|x xs IH]; intros d; simpl; [now left|].
  intros H. apply IH in H. destruct H as [H|H]; [|right; apply in_or_app; now right].
  rewrite first_wins_storable in H. unfold storable in H. unfold proposed. simpl.
  destruct (propose x) as [w|]; [|now left].
  destruct (inherited (key w)); [now left|].
  destruct (js_in (key w) d) eqn:E; [now left|].
  rewrite js_set_absent in H by assumption.
  unfold stored in H. rewrite map_app in H. apply in_app_or in H.
  destruct H as [H|[H|[]]]; [now left|]. simpl in H. subst. right. now left.
Qed.

End DictFacts.

(* ================================================================= *)
(** ** [Object.values]: array indices first *)

Lemma filter_Permutation {V : Type} (f : V -> bool) (l l' : list V) :
  Permutation l l' -> Permutation (filter f l) (filter f l').
Proof.
  induction 1 as [|x l l' _ IH|x y l|l l' l'' _ IH1 _ IH2]; simpl.
  - constructor.
  - destruct (f x); [now constructor|assumption].
  - destruct (f x), (f y); try apply Permutation_refl. apply perm_swap.
  - eapply perm_trans; eassumption.
Qed.

Lemma insert_by_index_perm {A : Type} (i : N) (v : A) (l : list (N * A)) :
  Permutation (insert_by_index i v l) ((i, v) :: l).
Proof.
  induction l as [|[j w] l IH]; simpl; [apply Permutation_refl|].
  destruct (i <? j)%N; [apply Permutation_refl|].
  eapply perm_trans; [apply perm_skip, IH|]. apply perm_swap.
Qed.

(** [Object.values] lists the values the object holds. *)
Lemma Object_values_perm {A : Type} (o : dict A) : Permutation (Object_values o) (stored o).
Proof.
  unfold Object_values, stored, indexed, named.
  induction o as [|[k v] o IH]; simpl; [constructor|].
  destruct (array_index k) as [i|]; simpl.
  - eapply perm_trans;
      [apply Permutation_app_tail, Permutation_map, insert_by_index_perm|].
    simpl. now constructor.
  - eapply perm_trans; [apply Permutation_sym, Permutation_middle|]. now constructor.
Qed.

Lemma Object_values_In {A : Type} (o : dict A) (v : A) :
  In v (Object_values o) <-> In v (stored o).
Proof.
  split; apply Permutation_in; [|apply Permutation_sym]; apply Object_values_perm.
Qed.

(** With no array index among the keys, [Object.values] follows the order
    in which the keys were added. *)
Lemma Object_values_named {A : Type} (o : dict A) :
  forallb (fun k => match array_index k with Some _ => false | None => true end)
    (map fst o) = true ->
  Object_values o = stored o.
Proof.
  intros H.
  assert (Hboth : indexed o = [] /\ named o = stored o).
  { unfold indexed, named, stored.
    induction o as [|[k v] o IH]; simpl in *; [now split|].
    apply andb_true_iff in H. destruct H as [Hk Ho].
    destruct (IH Ho) as [Hi Hn].
    destruct (array_index k); [discriminate|]. simpl. split; [assumption|].
    now f_equal. }
  destruct Hboth as [Hi Hn]. unfold Object_values. now rewrite Hi, Hn.
Qed.

(* ================================================================= *)
(** ** Numbers up to the representation of rationals *)

Lemma num_same_refl (a : num) : num_same a a.
Proof. destruct a; simpl; auto. apply Qeq_refl. Qed.

Lemma num_same_sym (a b : num) : num_same a b -> num_same b a.
Proof. destruct a, b; simpl; auto. apply Qeq_sym. Qed.

Lemma num_same_trans (a b c : num) : num_same a b -> num_same b c -> num_same a c.
Proof. destruct a, b, c; simpl; auto; try contradiction. apply Qeq_trans. Qed.

#[local] Instance num_same_Equivalence : Equivalence num_same.
Proof.
  split; [exact num_same_refl | exact num_same_sym | exact num_same_trans].
Qed.

Lemma Qsign_same (x y : Q) : x == y -> Qsign x = Qsign y.
Proof. intros H. unfold Qsign. now rewrite H. Qed.

#[local] Instance num_add_Proper : Proper (num_same ==> num_same ==> num_same) num_add.
Proof.
  intros a a' Ha b b' Hb.
  destruct a, a', b, b'; simpl in *; auto; try contradiction.
  now rewrite Ha, Hb.
Qed.

#[local] Instance num_neg_Proper : Proper (num_same ==> num_same) num_neg.
Proof.
  intros a a' Ha. destruct a, a'; simpl in *; auto. now rewrite Ha.
Qed.

#[local] Instance num_sub_Proper : Proper (num_same ==> num_same ==> num_same) num_sub.
Proof.
  intros a a' Ha b b' Hb. unfold num_sub. now rewrite Ha, Hb.
Qed.

#[local] Instance num_mul_Proper : Proper (num_same ==> num_same ==> num_same) num_mul.
Proof.
  intros a a' Ha b b' Hb.
  destruct a, a', b, b'; simpl in *; auto; try contradiction;
    unfold inf_times;
    try (rewrite (Qsign_same _ _ Ha)); try (rewrite (Qsign_same _ _ Hb));
    try reflexivity.
  now rewrite Ha, Hb.
Qed.

Lemma num_add_0_l (a : num) : num_same (Fin 0 + a)%num a.
Proof. destruct a; simpl; auto. apply Qplus_0_l. Qed.

Lemma num_add_0_r (a : num) : num_same (a + Fin 0)%num a.
Proof. destruct a; simpl; auto. apply Qplus_0_r. Qed.

(* ================================================================= *)
(** ** Backend A: the accuracy formula and the thresholds *)

Lemma type_bonus_percent (t : option string) : type_bonus t = Fin (spec_percent_A t).
Proof.
  destruct t as [s|]; simpl; [|reflexivity].
  destruct (s =? "song"); [reflexivity|]. now destruct (s =? "video").
Qed.

(** The function of lines 325-333 computes the accuracy of the spec. *)
Lemma YouTubeMusic_calculateAccuracyFor_spec (expected : jsval) (item : cleanItem) (w : num) :
  num_same (YouTubeMusic_calculateAccuracyFor expected item w)
           (spec_accuracy_A (supplied expected) (duration_ms item) w (type item)).
Proof.
  unfold YouTubeMusic_calculateAccuracyFor, spec_accuracy_A, spec_boost.
  rewrite type_bonus_percent.
  rewrite (num_div_Fin (spec_percent_A (type item)) 100) by (intros H; discriminate H).
  assert (Hp : num_same
                 ((if truthy expected
                   then Math_abs (num_of expected - duration_ms item) / num_of expected
                   else Fin (1 # 2)) * Fin 100)%num
                 (spec_duration_penalty (supplied expected) (duration_ms item))).
  { unfold supplied, spec_duration_penalty.
    destruct (truthy expected); [reflexivity|]. simpl. reflexivity. }
  rewrite num_add_0_l. rewrite Hp. reflexivity.
Qed.

Lemma classify_first_wins (expected : jsval) (final : dict ytmCandidate) (item : weighted) :
  classify expected final item
  = first_wins ytm_key (YouTubeMusic_candidate expected) final item.
Proof.
  unfold classify, first_wins, YouTubeMusic_candidate.
  destruct (item_videoId (w_item item)) as [id|]; [|reflexivity].
  cbv zeta.
  destruct (weight item >? Fin 65)%num; simpl; [|reflexivity].
  destruct (YouTubeMusic_calculateAccuracyFor expected (mk_cleanItem (w_item item) id)
              (weight item) >? Fin 80)%num; simpl.
  - unfold ytm_key. simpl. now destruct (Object_in (propertyKey id) final).
  - now destruct (Object_in (propertyKey id) final).
Qed.

Lemma YouTubeMusic_final_first_wins (expected : jsval) (valid : list weighted) :
  YouTubeMusic_final expected valid
  = fold_left (first_wins ytm_key (YouTubeMusic_candidate expected)) valid [].
Proof.
  unfold YouTubeMusic_final. generalize (@nil (string * ytmCandidate)).
  induction valid as [|x valid IH]; intros d; simpl; [reflexivity|].
  now rewrite classify_first_wins, IH.
Qed.

Lemma proposed_In {X V : Type} (propose : X -> option V) (xs : list X) (v : V) :
  In v (proposed propose xs) <-> exists x, In x xs /\ propose x = Some v.
Proof.
  unfold proposed. rewrite in_flat_map. split.
  - intros [x [Hx Hv]]. exists x. split; [assumption|].
    destruct (propose x) as [w|]; simpl in Hv; [|contradiction].
    destruct Hv as [<-|[]]. reflexivity.
  - intros [x [Hx Hv]]. exists x. split; [assumption|]. rewrite Hv. now left.
Qed.

(** Every candidate returned comes from an item of [validSections] that
    passed the thresholds. *)
Lemma YouTubeMusic_classified_In (args : validArgs) (results : ytmResults) (c : ytmCandidate) :
  In c (YouTubeMusic_classified args results) ->
  exists item,
    In item (validSections (YouTubeMusic_strippedMeta args) results)
    /\ YouTubeMusic_candidate (va_duration args) item = Some c.
Proof.
  unfold YouTubeMusic_classified. cbv zeta. rewrite Array_sort_In, Object_values_In.
  rewrite YouTubeMusic_final_first_wins. intros H.
  apply fold_first_wins_In in H. destruct H as [[]|H].
  now apply proposed_In in H.
Qed.

Lemma YouTubeMusic_candidate_Some (expected : jsval) (item : weighted) (c : ytmCandidate) :
  YouTubeMusic_candidate expected item = Some c ->
  exists id,
    item_videoId (w_item item) = Some id
    /\ clean c = mk_cleanItem (w_item item) id
    /\ accuracy c = YouTubeMusic_calculateAccuracyFor expected (clean c) (weight item)
    /\ (weight item >? Fin 65)%num = true
    /\ (accuracy c >? Fin 80)%num = true.
Proof.
  unfold YouTubeMusic_candidate.
  destruct (item_videoId (w_item item)) as [id|]; [|discriminate].
  cbv zeta.
  destruct (weight item >? Fin 65)%num eqn:Ew; simpl; [|discriminate].
  destruct (YouTubeMusic_calculateAccuracyFor expected (mk_cleanItem (w_item item) id)
              (weight item) >? Fin 80)%num eqn:Ea; [|discriminate].
  intros H. injection H as <-. exists id. simpl. auto.
Qed.

Lemma YouTubeMusic_search_Return (ytm_search : string -> exn + ytmResults)
    (artists track album duration : jsval) (l : list ytmCandidate) :
  outcome (YouTubeMusic_search ytm_search artists track album duration) = Return l ->
  exists args results,
    _getSearchArgs artists track album duration = inr args
    /\ ytm_search (YouTubeMusic_query args) = inr results
    /\ l = YouTubeMusic_classified args results.
Proof.
  unfold YouTubeMusic_search.
  destruct (_getSearchArgs artists track album duration) as [m|args]; [discriminate|].
  cbv zeta.
  destruct (ytm_search (YouTubeMusic_query args)) as [e|results] eqn:E; [discriminate|].
  simpl. intros H. injection H as <-. now exists args, results.
Qed.

(** C1.  For Backend A, every candidate of the list [search] returns was
    computed from an item of the valid sections whose textual weight
    exceeds 65; its accuracy is the weight minus the duration penalty
    ([|expected - actual| / expected * 100] when an expected duration was
    supplied, 50 otherwise), boosted toward 100 by 50% of the remaining gap
    for a song, 25% for a video and 5% otherwise; and that accuracy is
    strictly above 80. *)
Theorem YouTubeMusic_accuracy_formula (ytm_search : string -> exn + ytmResults)
    (artists track album duration : jsval) (l : list ytmCandidate) (c : ytmCandidate) :
  outcome (YouTubeMusic_search ytm_search artists track album duration) = Return l ->
  In c l ->
  exists args results item,
    _getSearchArgs artists track album duration = inr args
    /\ ytm_search (YouTubeMusic_query args) = inr results
    /\ In item (validSections (YouTubeMusic_strippedMeta args) results)
    /\ (weight item >? Fin 65)%num = true
    /\ type (clean c) = item_type (w_item item)
    /\ duration_ms (clean c) = parse_duration_ms (item_duration (w_item item))
    /\ num_same (accuracy c)
         (spec_accuracy_A (supplied (va_duration args)) (duration_ms (clean c))
            (weight item) (type (clean c)))
    /\ (accuracy c >? Fin 80)%num = true.
Proof.
  intros Hrun Hc.
  destruct (YouTubeMusic_search_Return _ _ _ _ _ _ Hrun) as [args [results [Hargs [Hres ->]]]].
  destruct (YouTubeMusic_classified_In _ _ _ Hc) as [item [Hitem Hcand]].
  destruct (YouTubeMusic_candidate_Some _ _ _ Hcand) as [id [Hid [Hclean [Hacc [Hw Ha]]]]].
  exists args, results, item. repeat split; try assumption.
  - now rewrite Hclean.
  - now rewrite Hclean.
  - rewrite Hacc. apply YouTubeMusic_calculateAccuracyFor_spec.
Qed.

(* ================================================================= *)
(** ** [_getSearchArgs]: the shuffle and the checks *)

Lemma all_strings_map (l : list string) : all_strings (map JStr l) = Some l.
Proof. induction l as [|x l IH]; simpl; [reflexivity|]. now rewrite IH. Qed.

(** With no album, no call passes the checks. *)
Lemma absent_album_never_valid (artists track duration : jsval) :
  exists message, _getSearchArgs artists track JUndefined duration = inl message.
Proof.
  unfold _getSearchArgs, shuffleArgs, validateArgs. simpl.
  destruct (typeof track =? "number");
    destruct artists; simpl;
    repeat match goal with
           | |- context [if ?b then _ else _] => destruct b; simpl
           | |- context [match js_or ?a ?b with _ => _ end] => destruct (js_or a b); simpl
           | |- context [match ?t with JUndefined => _ | _ => _ end] => destruct t; simpl
           end; eauto.
Qed.

(** A number in the place of the album leaves the album undefined too. *)
Lemma numeric_album_never_valid (artists track duration : jsval) (n : num) :
  exists message, _getSearchArgs artists track (JNum n) duration = inl message.
Proof.
  unfold _getSearchArgs, shuffleArgs, validateArgs. simpl.
  destruct (typeof track =? "number");
    destruct artists; simpl;
    repeat match goal with
           | |- context [if ?b then _ else _] => destruct b; simpl
           | |- context [match js_or ?a ?b with _ => _ end] => destruct (js_or a b); simpl
           | |- context [match ?t with JUndefined => _ | _ => _ end] => destruct t; simpl
           end; eauto.
Qed.

(** C4.  The call [search(["Daft Punk"], "One More Time", undefined, 320000)]
    supplies artists, a track title and a duration but no album: the album
    stays [undefined] after the shuffle, and line 30 throws.  So does the
    call [search(["Daft Punk"], "One More Time", 320000)], the form the
    documentation of [YouTube.search] gives: the shuffle makes the number
    the duration and leaves the album [undefined].  Neither adapter sends
    a request. *)
Theorem absent_album_is_rejected :
  shuffleArgs (JArr [JStr "Daft Punk"]) (JStr "One More Time") JUndefined (JNum (Fin 320000))
  = mkArgs [JStr "Daft Punk"] (JStr "One More Time") JUndefined (JNum (Fin 320000))
  /\ _getSearchArgs (JArr [JStr "Daft Punk"]) (JStr "One More Time") JUndefined
       (JNum (Fin 320000))
     = inl "<album> must be a valid string"
  /\ (forall ytm_search,
        YouTubeMusic_search ytm_search (JArr [JStr "Daft Punk"]) (JStr "One More Time")
          JUndefined (JNum (Fin 320000))
        = mkRun [] (Throw (Error "<album> must be a valid string")))
  /\ (forall ytSearch,
        YouTube_search ytSearch (JArr [JStr "Daft Punk"]) (JStr "One More Time")
          JUndefined (JNum (Fin 320000))
        = mkRun [] (Throw (Error "<album> must be a valid string")))
  /\ shuffleArgs (JArr [JStr "Daft Punk"]) (JStr "One More Time") (JNum (Fin 320000)) JUndefined
     = mkArgs [JStr "Daft Punk"] (JStr "One More Time") JUndefined (JNum (Fin 320000))
  /\ (forall ytSearch,
        YouTube_search ytSearch (JArr [JStr "Daft Punk"]) (JStr "One More Time")
          (JNum (Fin 320000)) JUndefined
        = mkRun [] (Throw (Error "<album> must be a valid string"))).
Proof. repeat split. Qed.

(** C7.  A call with only a number in the place of the track: the shuffle
    makes the number the duration and leaves the track undefined; the first
    check then throws, and neither adapter has sent a request. *)
Theorem numeric_track_only_is_rejected (n : num) :
  shuffleArgs JUndefined (JNum n) JUndefined JUndefined
  = mkArgs [] JUndefined JUndefined (JNum n)
  /\ _getSearchArgs JUndefined (JNum n) JUndefined JUndefined
     = inl "<track> must be a valid string"
  /\ (forall ytm_search,
        YouTubeMusic_search ytm_search JUndefined (JNum n) JUndefined JUndefined
        = mkRun [] (Throw (Error "<track> must be a valid string")))
  /\ (forall ytSearch,
        YouTube_search ytSearch JUndefined (JNum n) JUndefined JUndefined
        = mkRun [] (Throw (Error "<track> must be a valid string"))).
Proof. repeat split. Qed.

(* ================================================================= *)
(** ** An expected duration of 0 *)

(** The shuffle overwrites [duration] with a numeric album or track, and
    touches it in no other way. *)
Lemma shuffleArgs_duration (artists track album duration : jsval) :
  shuffleArgs artists track album duration
  = let s := shuffleArgs artists track album JUndefined in
    mkArgs (sa_artists s) (sa_track s) (sa_album s)
      (if typeof album =? "number" then album
       else if typeof track =? "number" then track
       else duration).
Proof.
  unfold shuffleArgs.
  destruct (typeof track =? "number"), (typeof album =? "number"), artists;
    cbn -[truthy js_or]; try reflexivity;
    match goal with |- context [if ?b then _ else _] => destruct b end; reflexivity.
Qed.

Lemma validateArgs_falsy_duration (artists : list jsval) (track album d d' : jsval) :
  truthy d = false -> truthy d' = false ->
  validateArgs (mkArgs artists track album d)
  = match validateArgs (mkArgs artists track album d') with
    | inl message => inl message
    | inr args => inr (mkValid (va_artists args) (va_track args) (va_album args) d)
    end.
Proof.
  intros Hd Hd'. unfold validateArgs. simpl.
  destruct track; try reflexivity. destruct album; try reflexivity.
  destruct (all_strings artists); [|reflexivity].
  rewrite Hd, Hd'. reflexivity.
Qed.

Lemma getSearchArgs_duration_0 (artists track album : jsval) :
  _getSearchArgs artists track album (JNum (Fin 0))
  = match _getSearchArgs artists track album JUndefined with
    | inl message => inl message
    | inr args =>
        inr (mkValid (va_artists args) (va_track args) (va_album args)
               (if typeof album =? "number" then album
                else if typeof track =? "number" then track
                else JNum (Fin 0)))
    end
  /\ forall args, _getSearchArgs artists track album JUndefined = inr args ->
       va_duration args = (if typeof album =? "number" then album
                           else if typeof track =? "number" then track
                           else JUndefined).
Proof.
  unfold _getSearchArgs.
  pose proof (shuffleArgs_duration artists track album (JNum (Fin 0))) as H0.
  pose proof (shuffleArgs_duration artists track album JUndefined) as HU.
  cbv zeta in H0, HU. rewrite H0. clear H0.
  destruct (shuffleArgs artists track album JUndefined) as [A T AL D].
  simpl in *. injection HU as HD.
  destruct (typeof album =? "number").
  - subst D. split.
    + unfold validateArgs. simpl. destruct T; try reflexivity.
      destruct AL; try reflexivity. destruct (all_strings A); [|reflexivity].
      now destruct (truthy album && negb (typeof album =? "number")).
    + intros args. unfold validateArgs. simpl. destruct T; try discriminate.
      destruct AL; try discriminate. destruct (all_strings A); [|discriminate].
      destruct (truthy album && negb (typeof album =? "number")); [discriminate|].
      intros H. now injection H as <-.
  - destruct (typeof track =? "number").
    + subst D. split.
      * unfold validateArgs. simpl. destruct T; try reflexivity.
        destruct AL; try reflexivity. destruct (all_strings A); [|reflexivity].
        now destruct (truthy track && negb (typeof track =? "number")).
      * intros args. unfold validateArgs. simpl. destruct T; try discriminate.
        destruct AL; try discriminate. destruct (all_strings A); [|discriminate].
        destruct (truthy track && negb (typeof track =? "number")); [discriminate|].
        intros H. now injection H as <-.
    + subst D. split.
      * now rewrite (validateArgs_falsy_duration _ _ _ (JNum (Fin 0)) JUndefined).
      * intros args. unfold validateArgs. simpl. destruct T; try discriminate.
        destruct AL; try discriminate. destruct (all_strings A); [|discriminate].
        intros H. now injection H as <-.
Qed.

Lemma YouTubeMusic_search_0 (ytm_search : string -> exn + ytmResults)
    (artists track album : jsval) :
  YouTubeMusic_search ytm_search artists track album (JNum (Fin 0))
  = YouTubeMusic_search ytm_search artists track album JUndefined.
Proof.
  unfold YouTubeMusic_search.
  destruct (getSearchArgs_duration_0 artists track album) as [H0 HU].
  rewrite H0.
  destruct (_getSearchArgs artists track album JUndefined) as [m|[a t al d]];
    [reflexivity|].
  specialize (HU _ eq_refl). simpl in HU. subst d. simpl.
  unfold YouTubeMusic_query. simpl.
  destruct (typeof album =? "number"); [reflexivity|].
  destruct (typeof track =? "number"); [reflexivity|].
  destruct (ytm_search _); reflexivity.
Qed.

Lemma YouTube_search_0 (ytSearch : string -> jsError + list video)
    (artists track album : jsval) :
  YouTube_search ytSearch artists track album (JNum (Fin 0))
  = YouTube_search ytSearch artists track album JUndefined.
Proof.
  unfold YouTube_search.
  destruct (getSearchArgs_duration_0 artists track album) as [H0 HU].
  rewrite H0.
  destruct (_getSearchArgs artists track album JUndefined) as [m|[a t al d]];
    [reflexivity|].
  specialize (HU _ eq_refl). simpl in HU. subst d. simpl.
  destruct (typeof album =? "number"); [reflexivity|].
  destruct (typeof track =? "number"); reflexivity.
Qed.

Lemma division_by_zero_not_finite (x : num) (q : Q) : (x / Fin 0)%num <> Fin q.
Proof.
  destruct x as [y| | |]; simpl; try discriminate.
  destruct (Qsign y); discriminate.
Qed.

(** The function of lines 429-441 computes the accuracy of the spec. *)
Lemma YouTube_calculateAccuracyFor_spec (strippedArtists : list string) (expected : jsval)
    (highestViews : num) (item : video) :
  num_same (YouTube_calculateAccuracyFor strippedArtists expected highestViews item)
           (spec_accuracy_B
              (spec_duration_penalty (supplied expected)
                 (of_N (v_seconds item) * Fin 1000)%num)
              (views_num item) highestViews (authorMatches strippedArtists item)).
Proof.
  unfold YouTube_calculateAccuracyFor, spec_accuracy_B, spec_boost, authorMatches.
  assert (Hp : num_same
                 ((if truthy expected
                   then Math_abs (num_of expected - of_N (v_seconds item) * Fin 1000)
                        / num_of expected
                   else Fin (1 # 2)) * Fin 100)%num
                 (spec_duration_penalty (supplied expected)
                    (of_N (v_seconds item) * Fin 1000)%num)).
  { unfold supplied, spec_duration_penalty.
    destruct (truthy expected); [reflexivity|]. simpl. reflexivity. }
  change (Fin 80 / Fin 100)%num with (Fin (80 / 100)).
  change (Fin 60 / Fin 100)%num with (Fin (60 / 100)).
  cbv beta.
  destruct (getWeight strippedArtists (stripText [v_author_name item]) >=? Fin 80)%num.
  - rewrite num_add_0_l, Hp. reflexivity.
  - rewrite num_add_0_r, num_add_0_l, Hp. reflexivity.
Qed.

(** Backend A on a finite weight, when the duration is not supplied: the
    duration of the item is not read. *)
Lemma YouTubeMusic_accuracy_unsupplied (duration : jsval) (w : Q) (item : cleanItem) :
  truthy duration = false ->
  exists q,
    YouTubeMusic_calculateAccuracyFor duration item (Fin w) = Fin q
    /\ q == accA_Q (spec_percent_A (type item)) w 50.
Proof.
  intros Ht. unfold YouTubeMusic_calculateAccuracyFor. rewrite Ht, type_bonus_percent.
  rewrite !num_div_Fin by (intros H; discriminate H).
  cbn [num_mul num_sub num_neg num_add].
  eexists. split; [reflexivity|].
  unfold accA_Q, Qminus, Qdiv. change (/ 100) with (1 # 100). ring.
Qed.

(** Backend B on a positive batch maximum, when the duration is not
    supplied. *)
Lemma YouTube_accuracy_unsupplied (strippedArtists : list string) (duration : jsval)
    (h : Q) (v : N) (item : video) :
  truthy duration = false ->
  0 < h ->
  v_views item = Some v ->
  exists q,
    YouTube_calculateAccuracyFor strippedArtists duration (Fin h) item = Fin q
    /\ q == accB_Q (authorMatches strippedArtists item) 50 (Q_of_N v) h.
Proof.
  intros Ht Hh Hv.
  unfold YouTube_calculateAccuracyFor, views_num, authorMatches.
  rewrite Hv, Ht. unfold of_N.
  assert (Hh0 : ~ h == 0) by (intros H; rewrite H in Hh; discriminate Hh).
  rewrite !num_div_Fin by (assumption || (intros H; discriminate H)).
  cbn [num_mul num_sub num_neg num_add].
  destruct (getWeight strippedArtists (stripText [v_author_name item]) >=? Fin 80)%num;
    cbn [num_mul num_sub num_neg num_add];
    (eexists; split; [reflexivity|]);
    unfold accB_Q, accB2_Q, accB1_Q, Q_of_N, Qminus, Qdiv;
    change (/ 100) with (1 # 100); ring.
Qed.

(** C10.  An expected duration of exactly 0 passes the checks of
    [_getSearchArgs], and both adapters then treat it as no duration.
    Backend A: the accuracy is the one of the spec with the fixed penalty
    of 50, whatever the item gives as its duration; on a finite weight [w]
    it is the finite number [(w - 50) + p% of (100 - (w - 50))].  Backend B:
    the accuracy is the one of the spec with the fixed penalty of 50; on a
    positive batch maximum [h] and [v] views it is the finite number that
    starts at [100 - 50], gains 80% of the gap scaled by [v / h], then 60%
    of the gap when the author matches.  Each whole search runs as it does
    with [duration] undefined.  No division by the zero duration takes
    place: it would not give a finite number. *)
Theorem zero_duration_is_no_duration :
  (forall artists track album,
      _getSearchArgs (JArr (map JStr artists)) (JStr track) (JStr album) (JNum (Fin 0))
      = inr (mkValid artists track album (JNum (Fin 0))))
  /\ supplied (JNum (Fin 0)) = None
  /\ (forall item w,
        YouTubeMusic_calculateAccuracyFor (JNum (Fin 0)) item w
        = YouTubeMusic_calculateAccuracyFor JUndefined item w
        /\ num_same (YouTubeMusic_calculateAccuracyFor (JNum (Fin 0)) item w)
             (spec_boost (spec_percent_A (type item)) (w - Fin 50)%num))
  /\ (forall item (w : Q),
        exists q,
          YouTubeMusic_calculateAccuracyFor (JNum (Fin 0)) item (Fin w) = Fin q
          /\ q == accA_Q (spec_percent_A (type item)) w 50)
  /\ (forall strippedArtists highestViews item,
        YouTube_calculateAccuracyFor strippedArtists (JNum (Fin 0)) highestViews item
        = YouTube_calculateAccuracyFor strippedArtists JUndefined highestViews item
        /\ num_same
             (YouTube_calculateAccuracyFor strippedArtists (JNum (Fin 0)) highestViews item)
             (spec_accuracy_B (Fin 50) (views_num item) highestViews
                (authorMatches strippedArtists item)))
  /\ (forall strippedArtists (h : Q) item v,
        0 < h ->
        v_views item = Some v ->
        exists q,
          YouTube_calculateAccuracyFor strippedArtists (JNum (Fin 0)) (Fin h) item = Fin q
          /\ q == accB_Q (authorMatches strippedArtists item) 50 (Q_of_N v) h)
  /\ (forall ytm_search artists track album,
        YouTubeMusic_search ytm_search artists track album (JNum (Fin 0))
        = YouTubeMusic_search ytm_search artists track album JUndefined)
  /\ (forall ytSearch artists track album,
        YouTube_search ytSearch artists track album (JNum (Fin 0))
        = YouTube_search ytSearch artists track album JUndefined)
  /\ (forall x q, (x / Fin 0)%num <> Fin q).
Proof.
  split; [|split; [|split; [|split; [|split; [|split; [|split; [|split]]]]]]].
  - intros artists track album. unfold _getSearchArgs, shuffleArgs, validateArgs.
    simpl. now rewrite all_strings_map.
  - reflexivity.
  - intros item w. split; [reflexivity|].
    apply (YouTubeMusic_calculateAccuracyFor_spec (JNum (Fin 0)) item w).
  - intros item w. now apply YouTubeMusic_accuracy_unsupplied.
  - intros strippedArtists highestViews item. split; [reflexivity|].
    apply (YouTube_calculateAccuracyFor_spec strippedArtists (JNum (Fin 0))).
  - intros strippedArtists h item v Hh Hv. now apply YouTube_accuracy_unsupplied.
  - apply YouTubeMusic_search_0.
  - apply YouTube_search_0.
  - apply division_by_zero_not_finite.
Qed.

(* ================================================================= *)
(** ** The accuracies on finite inputs *)

Lemma spec_percent_A_range (t : option string) :
  0 <= spec_percent_A t /\ spec_percent_A t <= 100.
Proof.
  destruct t as [s|]; simpl; [|split; discriminate].
  destruct (s =? "song"); [split; discriminate|].
  destruct (s =? "video"); split; discriminate.
Qed.

Lemma well_formed_expected (duration : jsval) :
  well_formed_duration duration ->
  truthy duration = match expected_Q duration with Some _ => true | None => false end
  /\ match expected_Q duration with
     | Some d => duration = JNum (Fin d) /\ 0 < d
     | None => True
     end.
Proof.
  intros [->|[d [-> Hd]]]; simpl; [split; exact I || reflexivity|].
  destruct (Qeq_bool d 0) eqn:E; simpl; [split; exact I || reflexivity|].
  split; [reflexivity|]. split; [reflexivity|].
  apply Qeq_bool_neq in E. apply Qle_lteq in Hd.
  destruct Hd as [Hd|Hd]; [assumption|]. exfalso. apply E. now symmetry.
Qed.

Lemma penalty_Q_nonneg (expected : option Q) (m : Q) :
  match expected with Some d => 0 < d | None => True end ->
  0 <= penalty_Q expected m.
Proof.
  destruct expected as [d|]; unfold penalty_Q; [|discriminate].
  intros Hd.
  assert (H : 0 <= Qabs (d - m) / d).
  { apply Qle_shift_div_l; [assumption|]. rewrite Qmult_0_l. apply Qabs_nonneg. }
  set (x := Qabs (d - m) / d) in *. lra.
Qed.

(** Backend A on a finite weight and a finite actual duration. *)
Lemma YouTubeMusic_accuracy_finite (duration : jsval) (w m : Q) (item : cleanItem) :
  well_formed_duration duration ->
  duration_ms item = Fin m ->
  exists q,
    YouTubeMusic_calculateAccuracyFor duration item (Fin w) = Fin q
    /\ q == accA_Q (spec_percent_A (type item)) w (penalty_Q (expected_Q duration) m).
Proof.
  intros Hwf Hm. destruct (well_formed_expected _ Hwf) as [Ht He].
  unfold YouTubeMusic_calculateAccuracyFor.
  rewrite Hm, type_bonus_percent, Ht.
  destruct (expected_Q duration) as [d|].
  - destruct He as [-> Hd].
    cbn [num_of num_sub num_neg num_add Math_abs].
    rewrite !num_div_Fin by (intros H; (discriminate H || (rewrite H in Hd; discriminate Hd))).
    cbn [num_mul num_sub num_neg num_add].
    eexists. split; [reflexivity|]. unfold accA_Q, penalty_Q, Qminus. ring.
  - rewrite !num_div_Fin by (intros H; discriminate H).
    cbn [num_mul num_sub num_neg num_add].
    eexists. split; [reflexivity|]. unfold accA_Q, penalty_Q, Qminus, Qdiv.
    change (/ 100) with (1 # 100). ring.
Qed.

(** Backend B on a positive, finite highest view count. *)
Lemma YouTube_accuracy_finite (strippedArtists : list string) (duration : jsval)
    (h : Q) (v : N) (item : video) :
  well_formed_duration duration ->
  0 < h ->
  v_views item = Some v ->
  exists q,
    YouTube_calculateAccuracyFor strippedArtists duration (Fin h) item = Fin q
    /\ q == accB_Q (authorMatches strippedArtists item)
             (penalty_Q (expected_Q duration) (Q_of_N (v_seconds item) * 1000))
             (Q_of_N v) h.
Proof.
  intros Hwf Hh Hv. destruct (well_formed_expected _ Hwf) as [Ht He].
  unfold YouTube_calculateAccuracyFor, views_num, authorMatches.
  rewrite Hv, Ht. unfold of_N.
  assert (Hh0 : ~ h == 0) by (intros H; rewrite H in Hh; discriminate Hh).
  destruct (expected_Q duration) as [d|].
  - destruct He as [-> Hd].
    cbn [num_of num_sub num_neg num_add Math_abs num_mul].
    rewrite !num_div_Fin by
      (assumption || (intros H; (discriminate H || (rewrite H in Hd; discriminate Hd)))).
    cbn [num_mul num_sub num_neg num_add].
    destruct (getWeight strippedArtists (stripText [v_author_name item]) >=? Fin 80)%num;
      cbn [num_mul num_sub num_neg num_add];
      (eexists; split; [reflexivity|]);
      unfold accB_Q, accB2_Q, accB1_Q, penalty_Q, Q_of_N, Qminus; ring.
  - rewrite !num_div_Fin by (assumption || (intros H; discriminate H)).
    cbn [num_mul num_sub num_neg num_add].
    destruct (getWeight strippedArtists (stripText [v_author_name item]) >=? Fin 80)%num;
      cbn [num_mul num_sub num_neg num_add];
      (eexists; split; [reflexivity|]);
      unfold accB_Q, accB2_Q, accB1_Q, penalty_Q, Q_of_N, Qminus, Qdiv;
      change (/ 100) with (1 # 100); ring.
Qed.

Lemma accA_Q_antitone (p w pen1 pen2 : Q) :
  0 <= p -> p <= 100 -> pen1 <= pen2 -> accA_Q p w pen2 <= accA_Q p w pen1.
Proof.
  intros. unfold accA_Q, Qdiv. change (/ 100) with (1 # 100). nra.
Qed.

Lemma accA_Q_le_100 (p w pen : Q) :
  0 <= p -> p <= 100 -> w <= 100 -> 0 <= pen -> accA_Q p w pen <= 100.
Proof.
  intros. unfold accA_Q, Qdiv. change (/ 100) with (1 # 100). nra.
Qed.

Lemma Qdiv_le_compat (a b d : Q) : 0 < d -> a <= b -> a / d <= b / d.
Proof.
  intros Hd Hab. unfold Qdiv. apply Qmult_le_compat_r; [assumption|].
  apply Qlt_le_weak, Qinv_lt_0_compat. assumption.
Qed.

Lemma accB_Q_monotone (b : bool) (pen v1 v2 h : Q) :
  0 <= pen -> 0 < h -> v1 <= v2 -> accB_Q b pen v1 h <= accB_Q b pen v2 h.
Proof.
  intros Hpen Hh Hv. pose proof (Qdiv_le_compat _ _ _ Hh Hv) as Hr.
  unfold accB_Q, accB2_Q, accB1_Q.
  set (r1 := v1 / h) in *. set (r2 := v2 / h) in *.
  unfold Qdiv. change (/ 100) with (1 # 100).
  destruct b; nra.
Qed.

Lemma accB_Q_le_100 (b : bool) (pen v h : Q) :
  0 <= pen -> 0 < h -> 0 <= v -> v <= h -> accB_Q b pen v h <= 100.
Proof.
  intros Hpen Hh Hv Hvh.
  assert (H0 : 0 <= v / h) by (apply Qle_shift_div_l; lra).
  assert (H1 : v / h <= 1) by (apply Qle_shift_div_r; lra).
  unfold accB_Q, accB2_Q, accB1_Q. set (r := v / h) in *.
  unfold Qdiv. change (/ 100) with (1 # 100).
  destruct b; nra.
Qed.

Lemma accB_Q_lower (b : bool) (pen v h : Q) :
  0 <= pen -> 0 < h -> 0 <= v -> v <= h -> 100 - pen <= accB_Q b pen v h.
Proof.
  intros Hpen Hh Hv Hvh.
  assert (H0 : 0 <= v / h) by (apply Qle_shift_div_l; lra).
  assert (H1 : v / h <= 1) by (apply Qle_shift_div_r; lra).
  unfold accB_Q, accB2_Q, accB1_Q. set (r := v / h) in *.
  unfold Qdiv. change (/ 100) with (1 # 100).
  destruct b; nra.
Qed.

Lemma accB_Q_nonneg (b : bool) (pen v h : Q) :
  0 <= pen -> pen <= 100 -> 0 < h -> 0 <= v -> v <= h -> 0 <= accB_Q b pen v h.
Proof.
  intros Hpen Hpen' Hh Hv Hvh.
  assert (H0 : 0 <= v / h) by (apply Qle_shift_div_l; lra).
  assert (H1 : v / h <= 1) by (apply Qle_shift_div_r; lra).
  unfold accB_Q, accB2_Q, accB1_Q. set (r := v / h) in *.
  unfold Qdiv. change (/ 100) with (1 # 100).
  destruct b; nra.
Qed.

Lemma Q_of_N_le (a b : N) : (a <= b)%N -> Q_of_N a <= Q_of_N b.
Proof. intros H. unfold Q_of_N. rewrite <- Zle_Qle. lia. Qed.

Lemma Q_of_N_nonneg (a : N) : 0 <= Q_of_N a.
Proof. unfold Q_of_N. change 0 with (inject_Z 0). rewrite <- Zle_Qle. lia. Qed.

Lemma expected_penalty_nonneg (duration : jsval) (m : Q) :
  well_formed_duration duration -> 0 <= penalty_Q (expected_Q duration) m.
Proof.
  intros Hwf. apply penalty_Q_nonneg.
  destruct (well_formed_expected _ Hwf) as [_ He].
  destruct (expected_Q duration); [apply He | exact I].
Qed.

(** C8, as amended.  On the exact value of the formulas, accuracy is
    monotone when the expected duration is not negative.  Backend A: for
    one expected duration [d >= 0], one finite weight and one type, of two
    items with finite durations the one whose duration is at least as
    close to [d] gets an accuracy at least as high.  Backend B: for one
    query whose expected duration is absent or not negative, one video and
    one batch maximum [highestViews > 0], more views never give a lower
    accuracy. *)
Theorem accuracy_monotone :
  (forall (d w m_near m_far : Q) (near far : cleanItem),
      0 <= d ->
      type near = type far ->
      duration_ms near = Fin m_near ->
      duration_ms far = Fin m_far ->
      Qabs (d - m_near) <= Qabs (d - m_far) ->
      (YouTubeMusic_calculateAccuracyFor (JNum (Fin d)) near (Fin w)
       >=? YouTubeMusic_calculateAccuracyFor (JNum (Fin d)) far (Fin w))%num = true)
  /\ (forall (strippedArtists : list string) (duration : jsval) (h : Q)
             (item : video) (v1 v2 : N),
        well_formed_duration duration ->
        0 < h ->
        (v1 <= v2)%N ->
        (YouTube_calculateAccuracyFor strippedArtists duration (Fin h) (set_views item v2)
         >=? YouTube_calculateAccuracyFor strippedArtists duration (Fin h) (set_views item v1))%num
        = true).
Proof.
  split.
  - intros d w m_near m_far near far Hd Ht Hn Hf Hclose.
    assert (Hwf : well_formed_duration (JNum (Fin d))) by (right; now exists d).
    destruct (YouTubeMusic_accuracy_finite _ w _ _ Hwf Hn) as [qn [-> Hqn]].
    destruct (YouTubeMusic_accuracy_finite _ w _ _ Hwf Hf) as [qf [-> Hqf]].
    apply num_ge_Fin. rewrite Hqn, Hqf, Ht.
    destruct (spec_percent_A_range (type far)) as [Hp0 Hp1].
    apply accA_Q_antitone; try assumption.
    destruct (well_formed_expected _ Hwf) as [_ He].
    destruct (expected_Q (JNum (Fin d))) as [d'|] eqn:E; [|apply Qle_refl].
    destruct He as [He Hd']. injection He as He. unfold penalty_Q.
    assert (Hq : Qabs (d' - m_near) / d' <= Qabs (d' - m_far) / d').
    { apply Qdiv_le_compat; [assumption|]. now rewrite <- He. }
    set (x := Qabs (d' - m_near) / d') in *.
    set (y := Qabs (d' - m_far) / d') in *. lra.
  - intros sa duration h item v1 v2 Hwf Hh Hv.
    destruct (YouTube_accuracy_finite sa duration h v2 (set_views item v2) Hwf Hh eq_refl)
      as [q2 [-> Hq2]].
    destruct (YouTube_accuracy_finite sa duration h v1 (set_views item v1) Hwf Hh eq_refl)
      as [q1 [-> Hq1]].
    apply num_ge_Fin. rewrite Hq1, Hq2.
    change (authorMatches sa (set_views item v2)) with (authorMatches sa item).
    change (authorMatches sa (set_views item v1)) with (authorMatches sa item).
    change (v_seconds (set_views item v2)) with (v_seconds item).
    change (v_seconds (set_views item v1)) with (v_seconds item).
    apply accB_Q_monotone; [now apply expected_penalty_nonneg | assumption |].
    now apply Q_of_N_le.
Qed.

(* ================================================================= *)
(** ** The dictionary [final], read in the order of insertion *)

Lemma existsb_map_fst {V : Type} (k : string) (d : dict V) :
  existsb (fun k' => k' =? k) (map fst d) = js_in k d.
Proof.
  unfold js_in. induction d as [|e d IH]; simpl; [reflexivity|]. now rewrite IH.
Qed.

(** [final] holds, in the order of insertion, the first proposal under
    each key, of those that can be stored. *)
Lemma fold_first_wins_values {X V : Type} (key : V -> string) (propose : X -> option V)
    (xs : list X) (d : dict V) :
  stored (fold_left (first_wins key propose) xs d)
  = stored d ++ firsts key (map fst d) (proposed (storable key propose) xs).
Proof.
  revert d. induction xs as [|x xs IH]; intros d; simpl fold_left.
  - simpl. now rewrite app_nil_r.
  - rewrite IH, first_wins_storable, proposed_cons.
    destruct (storable key propose x) as [v|]; [|reflexivity].
    simpl firsts. rewrite existsb_map_fst.
    destruct (js_in (key v) d) eqn:E; [reflexivity|].
    rewrite js_set_absent by assumption.
    unfold stored. rewrite !map_app. simpl. now rewrite <- app_assoc.
Qed.

Lemma first_wins_values {X V : Type} (key : V -> string) (propose : X -> option V)
    (xs : list X) :
  stored (fold_left (first_wins key propose) xs [])
  = firsts key [] (proposed (storable key propose) xs).
Proof. apply (fold_first_wins_values key propose xs []). Qed.

Lemma firsts_incl {V : Type} (key : V -> string) (seen : list string) (l : list V) (v : V) :
  In v (firsts key seen l) -> In v l.
Proof.
  revert seen. induction l as [|w l IH]; intros seen; simpl; [intros []|].
  destruct (existsb (fun k => k =? key w) seen).
  - intros H. right. now apply (IH seen).
  - intros [<-|H]; [now left|]. right. now apply (IH (seen ++ [key w])).
Qed.

(** Deduplication, as [Object.values] shows it: under a key that is not
    inherited the first proposal with that key and nothing else, under an
    inherited name nothing. *)
Lemma first_wins_dedup {X V : Type} (key : V -> string) (propose : X -> option V)
    (xs : list X) (k : string) :
  with_key key k (Object_values (fold_left (first_wins key propose) xs []))
  = if inherited k then []
    else match first_with_key key k (proposed propose xs) with
         | Some v => [v]
         | None => []
         end.
Proof.
  pose proof (filter_Permutation (fun v => key v =? k) _ _
                (Object_values_perm (fold_left (first_wins key propose) xs []))) as HP.
  fold (with_key key k (Object_values (fold_left (first_wins key propose) xs []))) in HP.
  fold (with_key key k (stored (fold_left (first_wins key propose) xs []))) in HP.
  rewrite first_wins_stored in HP.
  destruct (inherited k).
  - now apply Permutation_nil, Permutation_sym.
  - destruct (first_with_key key k (proposed propose xs)).
    + now apply Permutation_length_1_inv, Permutation_sym.
    + now apply Permutation_nil, Permutation_sym.
Qed.

(** When every key proposed is plain, [Object.values] lists the first
    proposal under each key, in the order of the proposals. *)
Lemma first_wins_plain_values {X V : Type} (key : V -> string) (propose : X -> option V)
    (xs : list X) :
  forallb (fun v => plain_key (key v)) (proposed propose xs) = true ->
  Object_values (fold_left (first_wins key propose) xs [])
  = firsts key [] (proposed propose xs).
Proof.
  intros Hplain.
  assert (Hall : forall v, In v (proposed propose xs) -> plain_key (key v) = true)
    by now apply forallb_forall.
  assert (Hs : proposed (storable key propose) xs = proposed propose xs).
  { apply proposed_storable_all. apply forallb_forall. intros v Hv.
    specialize (Hall v Hv). unfold plain_key in Hall.
    now apply andb_true_iff in Hall. }
  rewrite Object_values_named; [now rewrite first_wins_values, Hs|].
  rewrite (keyed_keys key) by (apply fold_first_wins_keyed, keyed_nil).
  rewrite first_wins_values, Hs.
  apply forallb_forall. intros k Hk. apply in_map_iff in Hk.
  destruct Hk as [v [<- Hv]]. apply firsts_incl in Hv.
  specialize (Hall v Hv). unfold plain_key in Hall.
  apply andb_true_iff in Hall. now destruct Hall.
Qed.

(* ================================================================= *)
(** ** Backend B: the worker, the sources and [final] *)

Lemma num_max_of_N (a b : N) : num_max (of_N a) (of_N b) = of_N (N.max a b).
Proof.
  unfold num_max, of_N.
  destruct (Fin (inject_Z (Z.of_N b)) >? Fin (inject_Z (Z.of_N a)))%num eqn:E.
  - apply num_gt_Fin in E. rewrite <- Zlt_Qlt in E. f_equal. f_equal. f_equal. lia.
  - apply num_gt_Fin_false in E. rewrite <- Zle_Qle in E. f_equal. f_equal. f_equal. lia.
Qed.

Lemma Math_max_pair_of_N (a b : N) : Math_max [of_N a; of_N b] = of_N (N.max a b).
Proof. unfold Math_max. simpl fold_left. apply num_max_of_N. Qed.

(** What the worker has kept, and the highest view count it reports. *)
Lemma keep_video_fold (strippedMeta : list string) (videos : list video) (src : source)
    (h : N) :
  highestViews src = of_N h ->
  let out := fold_left (keep_video strippedMeta) videos src in
  xFilters out = xFilters src
  /\ results out
     = results src
         ++ map (fun item => set_views item (views_or_0 item))
              (filter (kept strippedMeta) videos)
  /\ exists h',
       highestViews out = of_N h'
       /\ (h <= h')%N
       /\ Forall (fun item => (views_or_0 item <= h')%N) (filter (kept strippedMeta) videos).
Proof.
  revert src h. induction videos as [|item videos IH]; intros src h Hh; simpl.
  - rewrite app_nil_r. repeat split. exists h. repeat split; [assumption|lia|constructor].
  - unfold keep_video at 2 4 6. fold (kept strippedMeta item).
    destruct (kept strippedMeta item) eqn:E.
    + rewrite Hh, Math_max_pair_of_N.
      specialize (IH {| xFilters := xFilters src;
                        highestViews := of_N (N.max h (views_or_0 item));
                        results := results src ++ [set_views item (views_or_0 item)] |}
                     (N.max h (views_or_0 item)) eq_refl).
      cbv zeta in IH. destruct IH as [Hx [Hr [h' [Hh' [Hle Hall]]]]].
      split; [exact Hx|]. split.
      * rewrite Hr. simpl. now rewrite <- app_assoc.
      * exists h'. split; [assumption|]. split; [lia|].
        constructor; [lia|assumption].
    + apply IH. assumption.
Qed.

Lemma searchQueue_worker_Fulfilled (ytSearch : string -> jsError + list video)
    (strippedMeta : list string) (xf : list (list string)) (src : source) :
  searchQueue_worker ytSearch strippedMeta xf = Fulfilled src ->
  exists videos,
    ytSearch (variant_query strippedMeta xf) = inr videos
    /\ xFilters src = xf
    /\ results src
       = map (fun item => set_views item (views_or_0 item)) (filter (kept strippedMeta) videos)
    /\ exists h,
         highestViews src = of_N h
         /\ Forall (fun item => (views_or_0 item <= h)%N) (filter (kept strippedMeta) videos).
Proof.
  unfold searchQueue_worker.
  destruct (ytSearch (variant_query strippedMeta xf)) as [e|videos]; [discriminate|].
  intros H. injection H as <-. exists videos. split; [reflexivity|].
  destruct (keep_video_fold strippedMeta videos (mkSource xf (Fin 0) []) 0%N eq_refl)
    as [Hx [Hr [h [Hh [_ Hall]]]]].
  split; [exact Hx|]. split; [exact Hr|]. now exists h.
Qed.

Lemma collect_item_first_wins (strippedArtists : list string) (expected : jsval)
    (h : num) (src : source) (final : dict ytCandidate) (item : video) :
  collect_item strippedArtists expected h src final item
  = first_wins yt_videoId (YouTube_candidate strippedArtists expected h) final (src, item).
Proof.
  unfold collect_item, first_wins, YouTube_candidate.
  destruct (v_videoId item) as [id|]; [|reflexivity]. simpl.
  now destruct (Object_in id final).
Qed.

Lemma collect_source_first_wins (strippedArtists : list string) (expected : jsval)
    (h : num) (final : dict ytCandidate) (s : option source) :
  collect_source strippedArtists expected h final s
  = fold_left (first_wins yt_videoId (YouTube_candidate strippedArtists expected h))
      (encountered [s]) final.
Proof.
  unfold collect_source, encountered. simpl. destruct s as [src|]; [|reflexivity].
  rewrite app_nil_r. generalize (results src). intros l. revert final.
  induction l as [|item l IH]; intros final; simpl; [reflexivity|].
  now rewrite collect_item_first_wins, IH.
Qed.

Lemma encountered_cons (s : option source) (l : list (option source)) :
  encountered (s :: l) = encountered [s] ++ encountered l.
Proof. unfold encountered. simpl. now rewrite app_nil_r. Qed.

Lemma YouTube_final_first_wins (strippedArtists : list string) (expected : jsval)
    (searchResults : list (option source)) :
  YouTube_final strippedArtists expected searchResults
  = fold_left
      (first_wins yt_videoId
         (YouTube_candidate strippedArtists expected (YouTube_highestViews searchResults)))
      (encountered searchResults) [].
Proof.
  unfold YouTube_final. cbv zeta.
  generalize (YouTube_highestViews searchResults). intros h.
  generalize (@nil (string * ytCandidate)).
  induction searchResults as [|s l IH]; intros d; [reflexivity|].
  rewrite encountered_cons, fold_left_app. simpl.
  now rewrite collect_source_first_wins, IH.
Qed.

Lemma encountered_In (searchResults : list (option source)) (src : source) (item : video) :
  In (src, item) (encountered searchResults)
  <-> In (Some src) searchResults /\ In item (results src).
Proof.
  unfold encountered. rewrite in_flat_map. split.
  - intros [[s|] [Hs Hi]]; [|contradiction].
    apply in_map_iff in Hi. destruct Hi as [it [Hp Hit]]. injection Hp as -> ->.
    now split.
  - intros [Hs Hi]. exists (Some src). split; [assumption|].
    apply in_map_iff. now exists item.
Qed.

Lemma fold_num_max_NaN (l : list num) : fold_left num_max l NaN = NaN.
Proof. induction l as [|x l IH]; simpl; [reflexivity|assumption]. Qed.

(** The batch maximum is NaN when a variant failed; failing that, and but
    for an empty batch, it is the greatest of the maxima of the sources. *)
Lemma fold_num_max_sources (srcs : list (option source)) (acc : num) :
  acc = NInf \/ (exists a, acc = of_N a) ->
  (forall src, In (Some src) srcs -> exists hs, highestViews src = of_N hs) ->
  fold_left num_max (map source_highestViews srcs) acc = NaN
  \/ (srcs = [] /\ fold_left num_max (map source_highestViews srcs) acc = acc)
  \/ exists h,
       fold_left num_max (map source_highestViews srcs) acc = of_N h
       /\ (forall a, acc = of_N a -> (a <= h)%N)
       /\ (forall src hs, In (Some src) srcs -> highestViews src = of_N hs -> (hs <= h)%N).
Proof.
  revert acc. induction srcs as [|s srcs IH]; intros acc Hacc Hsrc; simpl.
  - right. left. now split.
  - destruct s as [src|]; simpl.
    2:{ left. assert (Hn : num_max acc NaN = NaN) by now destruct acc.
        rewrite Hn. apply fold_num_max_NaN. }
    destruct (Hsrc src (or_introl eq_refl)) as [hs Hhs]. rewrite Hhs.
    assert (Hnew : exists a', num_max acc (of_N hs) = of_N a' /\ (hs <= a')%N
                              /\ (forall a, acc = of_N a -> (a <= a')%N)).
    { destruct Hacc as [->|[a ->]].
      - exists hs. split; [reflexivity|]. split; [lia|]. intros a Ha. discriminate Ha.
      - exists (N.max a hs). split; [apply num_max_of_N|]. split; [lia|].
        intros a' Ha'. unfold of_N in Ha'. injection Ha' as Ha'. lia. }
    destruct Hnew as [a' [Ha' [Hle Hacc']]]. rewrite Ha'.
    assert (Hsrc' : forall src', In (Some src') srcs -> exists hs', highestViews src' = of_N hs')
      by (intros src' Hin; apply Hsrc; now right).
    assert (Hthis : forall h, (a' <= h)%N ->
              (forall src' hs', In (Some src') srcs -> highestViews src' = of_N hs' ->
                                (hs' <= h)%N) ->
              (forall a, acc = of_N a -> (a <= h)%N)
              /\ (forall src' hs', In (Some src') (Some src :: srcs) ->
                                   highestViews src' = of_N hs' -> (hs' <= h)%N)).
    { intros h Hah Hall. split.
      - intros a Ha. specialize (Hacc' a Ha). lia.
      - intros src' hs' [Heq|Hin] Hhs'.
        + injection Heq as <-. rewrite Hhs in Hhs'. unfold of_N in Hhs'.
          injection Hhs' as Hhs'. lia.
        + eapply Hall; eassumption. }
    destruct (IH (of_N a') (or_intror (ex_intro _ a' eq_refl)) Hsrc')
      as [Hnan|[[-> Hsame]|[h [Hh [Hah Hall]]]]].
    + now left.
    + right. right. exists a'. split; [exact Hsame|].
      apply Hthis; [lia|]. intros ? ? [].
    + right. right. exists h. split; [exact Hh|].
      apply Hthis; [now apply Hah | exact Hall].
Qed.

Lemma of_N_positive (h : N) : (of_N h >? Fin 0)%num = true -> 0 < Q_of_N h.
Proof. intros H. now apply num_gt_Fin in H. Qed.

(* ================================================================= *)
(** ** The range of the accuracy *)

Lemma validSections_In (strippedMeta : list string) (results : ytmResults) (item : weighted) :
  In item (validSections strippedMeta results) ->
  exists title,
    In (w_item item)
       (section_contents (top results) ++ section_contents (songs results)
          ++ section_contents (videos results))
    /\ item_title (w_item item) = Some title
    /\ is_song_or_video (item_type (w_item item)) = true
    /\ weight item = getWeight strippedMeta (stripText (item_words (w_item item) title)).
Proof.
  unfold validSections. rewrite in_flat_map. intros [raw [Hraw Hin]].
  destruct (item_title raw) as [title|] eqn:Et; [|contradiction].
  destruct (is_song_or_video (item_type raw)) eqn:Es; [|contradiction].
  destruct Hin as [<-|[]]. simpl. exists title. auto.
Qed.

(** Backend A: with a duration that is not a finite number, the accuracy
    of a finite weight is NaN. *)
Lemma YouTubeMusic_accuracy_not_finite (d w : Q) (item : cleanItem) :
  0 < d ->
  (forall m, duration_ms item <> Fin m) ->
  YouTubeMusic_calculateAccuracyFor (JNum (Fin d)) item (Fin w) = NaN.
Proof.
  intros Hd Hm. unfold YouTubeMusic_calculateAccuracyFor.
  assert (Ht : truthy (JNum (Fin d)) = true).
  { apply num_truthy_Fin. intros H. rewrite H in Hd. discriminate. }
  rewrite Ht, type_bonus_percent.
  rewrite (num_div_Fin (spec_percent_A (type item)) 100) by (intros H; discriminate H).
  assert (Hs : Qsign (spec_percent_A (type item) / 100) = Gt).
  { destruct (type item) as [s|]; simpl; [|reflexivity].
    destruct (s =? "song"); [reflexivity|]. now destruct (s =? "video"). }
  assert (Hsd : Qsign d = Gt) by now apply Qsign_Gt.
  destruct (duration_ms item) as [m| | |]; [exfalso; now apply (Hm m)| | |];
    cbn [num_of num_sub num_neg num_add Math_abs num_div num_mul];
    try rewrite Hsd; cbn; unfold inf_times; try rewrite Hs; reflexivity.
Qed.

(** Backend A: the accuracy on a finite weight, whatever the string the
    item gives as its duration. *)
Lemma YouTubeMusic_accuracy_cases (duration : jsval) (w : Q) (item : cleanItem) :
  well_formed_duration duration ->
  YouTubeMusic_calculateAccuracyFor duration item (Fin w) = NaN
  \/ exists q pen,
       YouTubeMusic_calculateAccuracyFor duration item (Fin w) = Fin q
       /\ 0 <= pen
       /\ q == accA_Q (spec_percent_A (type item)) w pen.
Proof.
  intros Hwf. destruct (well_formed_expected _ Hwf) as [Ht He].
  destruct (expected_Q duration) as [d|] eqn:Ed.
  - destruct He as [-> Hd].
    destruct (duration_ms item) as [m| | |] eqn:Em;
      try (left; apply YouTubeMusic_accuracy_not_finite;
           [assumption | intros m; rewrite Em; discriminate]).
    right.
    destruct (YouTubeMusic_accuracy_finite (JNum (Fin d)) w m item Hwf Em) as [q [Hq Hf]].
    exists q, (penalty_Q (expected_Q (JNum (Fin d))) m). split; [assumption|].
    split; [now apply expected_penalty_nonneg | assumption].
  - right. destruct (YouTubeMusic_accuracy_unsupplied duration w item Ht) as [q [Hq Hf]].
    exists q, 50. split; [assumption|]. split; [discriminate|assumption].
Qed.

Lemma YouTube_search_Return (ytSearch : string -> jsError + list video)
    (artists track album duration : jsval) (l : list ytCandidate) :
  outcome (YouTube_search ytSearch artists track album duration) = Return l ->
  exists args,
    _getSearchArgs artists track album duration = inr args
    /\ forallb isRejected (YouTube_searchResults ytSearch args) = false
    /\ l = Array_sort (byAccuracy yt_accuracy)
             (Object_values
                (YouTube_final (stripText (va_artists args)) (va_duration args)
                   (YouTube_sources ytSearch args))).
Proof.
  unfold YouTube_search.
  destruct (_getSearchArgs artists track album duration) as [m|args]; [discriminate|].
  simpl. unfold YouTube_rank.
  destruct (forallb isRejected (YouTube_searchResults ytSearch args)) eqn:E.
  - destruct (last _ _) as [[v|e]|]; discriminate.
  - intros H. injection H as <-. now exists args.
Qed.

(** Every candidate of Backend B comes from a video of a source. *)
Lemma YouTube_final_In (strippedArtists : list string) (expected : jsval)
    (srcs : list (option source)) (c : ytCandidate) :
  In c (Object_values (YouTube_final strippedArtists expected srcs)) ->
  exists src item,
    In (Some src) srcs
    /\ In item (results src)
    /\ YouTube_candidate strippedArtists expected (YouTube_highestViews srcs) (src, item)
       = Some c.
Proof.
  rewrite Object_values_In, YouTube_final_first_wins. intros H.
  apply fold_first_wins_In in H. destruct H as [[]|H].
  apply proposed_In in H. destruct H as [[src item] [Hin Hc]].
  apply encountered_In in Hin. destruct Hin as [Hs Hi]. now exists src, item.
Qed.

Lemma YouTube_sources_In (ytSearch : string -> jsError + list video) (args : validArgs)
    (src : source) :
  In (Some src) (YouTube_sources ytSearch args) ->
  exists xf,
    In xf variants
    /\ searchQueue_worker ytSearch (YouTube_strippedMeta args) xf = Fulfilled src.
Proof.
  unfold YouTube_sources, YouTube_searchResults. rewrite map_map, in_map_iff.
  intros [xf [Hs Hin]]. exists xf. split; [assumption|].
  destruct (searchQueue_worker ytSearch (YouTube_strippedMeta args) xf) as [v|e];
    simpl in Hs; [|discriminate].
  now injection Hs as ->.
Qed.

Lemma YouTube_sources_highestViews (ytSearch : string -> jsError + list video)
    (args : validArgs) (src : source) :
  In (Some src) (YouTube_sources ytSearch args) ->
  exists hs,
    highestViews src = of_N hs
    /\ forall item, In item (results src) ->
                    exists v, v_views item = Some v /\ (v <= hs)%N.
Proof.
  intros Hin. destruct (YouTube_sources_In _ _ _ Hin) as [xf [_ Hw]].
  destruct (searchQueue_worker_Fulfilled _ _ _ _ Hw) as [videos [_ [_ [Hr [h [Hh Hviews]]]]]].
  exists h. split; [assumption|]. intros item Hitem.
  rewrite Hr in Hitem. apply in_map_iff in Hitem. destruct Hitem as [raw [<- Hraw]].
  exists (views_or_0 raw). split; [reflexivity|].
  rewrite Forall_forall in Hviews. now apply Hviews.
Qed.

(** Backend B: the batch maximum is NaN, or a number that bounds the
    views of every video met. *)
Lemma YouTube_highestViews_cases (ytSearch : string -> jsError + list video)
    (args : validArgs) :
  YouTube_highestViews (YouTube_sources ytSearch args) = NaN
  \/ exists h,
       YouTube_highestViews (YouTube_sources ytSearch args) = of_N h
       /\ forall src item,
            In (Some src) (YouTube_sources ytSearch args) ->
            In item (results src) ->
            exists v, v_views item = Some v /\ (v <= h)%N.
Proof.
  unfold YouTube_highestViews, Math_max.
  assert (Hsrc : forall src, In (Some src) (YouTube_sources ytSearch args) ->
                             exists hs, highestViews src = of_N hs).
  { intros src Hin. destruct (YouTube_sources_highestViews _ _ _ Hin) as [hs [Hhs _]].
    now exists hs. }
  destruct (fold_num_max_sources _ NInf (or_introl eq_refl) Hsrc)
    as [Hnan|[[Hnil _]|[h [Hh [_ Hall]]]]].
  - now left.
  - discriminate Hnil.
  - right. exists h. split; [assumption|]. intros src item Hin Hitem.
    destruct (YouTube_sources_highestViews _ _ _ Hin) as [hs [Hhs Hviews]].
    destruct (Hviews item Hitem) as [v [Hv Hle]].
    exists v. split; [assumption|]. specialize (Hall src hs Hin Hhs). lia.
Qed.

(** Backend B: with a positive batch maximum, the views of every video
    met are a number that the maximum bounds. *)
Lemma YouTube_views_bounded (ytSearch : string -> jsError + list video) (args : validArgs) :
  (YouTube_highestViews (YouTube_sources ytSearch args) >? Fin 0)%num = true ->
  exists h,
    YouTube_highestViews (YouTube_sources ytSearch args) = of_N h
    /\ 0 < Q_of_N h
    /\ forall src item,
         In (Some src) (YouTube_sources ytSearch args) ->
         In item (results src) ->
         exists v, v_views item = Some v /\ (v <= h)%N.
Proof.
  intros Hpos.
  destruct (YouTube_highestViews_cases ytSearch args) as [Hnan|[h [Hh Hall]]].
  - rewrite Hnan in Hpos. discriminate.
  - exists h. split; [assumption|]. split; [|assumption].
    apply of_N_positive. now rewrite <- Hh.
Qed.

(** C5, as amended.  Backend A: with weights of at most 100 and a
    well-formed expected duration, every candidate returned has an accuracy
    above 80 and at most 100.  Backend B: with a well-formed expected
    duration and a positive batch maximum of views, every candidate
    returned has a finite accuracy of at most 100 and of at least 100 less
    its duration penalty; so it is at least 0 when the penalty is at most
    100. *)
Theorem accuracy_range :
  (forall ytm_search artists track album duration args l c,
      (forall a b, (getWeight a b >? Fin 100)%num = false) ->
      _getSearchArgs artists track album duration = inr args ->
      well_formed_duration (va_duration args) ->
      outcome (YouTubeMusic_search ytm_search artists track album duration) = Return l ->
      In c l ->
      exists q, accuracy c = Fin q /\ 80 < q /\ q <= 100)
  /\ (forall ytSearch artists track album duration args l c,
        _getSearchArgs artists track album duration = inr args ->
        well_formed_duration (va_duration args) ->
        (YouTube_highestViews (YouTube_sources ytSearch args) >? Fin 0)%num = true ->
        outcome (YouTube_search ytSearch artists track album duration) = Return l ->
        In c l ->
        exists q m,
          yt_accuracy c = Fin q
          /\ yt_duration_ms c = Fin m
          /\ q <= 100
          /\ 100 - penalty_Q (expected_Q (va_duration args)) m <= q
          /\ (penalty_Q (expected_Q (va_duration args)) m <= 100 -> 0 <= q)).
Proof.
  split.
  - intros ytm_search artists track album duration args l c Hw Hargs Hwf Hrun Hc.
    destruct (YouTubeMusic_search_Return _ _ _ _ _ _ Hrun)
      as [args' [results [Hargs' [_ ->]]]].
    rewrite Hargs in Hargs'. injection Hargs' as <-.
    destruct (YouTubeMusic_classified_In _ _ _ Hc) as [item [Hitem Hcand]].
    destruct (YouTubeMusic_candidate_Some _ _ _ Hcand) as [id [_ [_ [Hacc [Hw65 Ha]]]]].
    destruct (validSections_In _ _ _ Hitem) as [title [_ [_ [_ Hweight]]]].
    specialize (Hw (YouTubeMusic_strippedMeta args)
                   (stripText (item_words (w_item item) title))).
    rewrite <- Hweight in Hw.
    destruct (weight item) as [w| | |] eqn:Ew; try discriminate.
    apply num_gt_Fin_false in Hw.
    destruct (YouTubeMusic_accuracy_cases (va_duration args) w (clean c) Hwf)
      as [Hnan|[q [pen [Hq [Hpen Hf]]]]].
    + rewrite Hacc, Hnan in Ha. discriminate.
    + rewrite Hacc, Hq in *. exists q. split; [reflexivity|].
      apply num_gt_Fin in Ha. split; [assumption|]. rewrite Hf.
      destruct (spec_percent_A_range (type (clean c))) as [Hp0 Hp1].
      now apply accA_Q_le_100.
  - intros ytSearch artists track album duration args l c Hargs Hwf Hpos Hrun Hc.
    destruct (YouTube_search_Return _ _ _ _ _ _ Hrun) as [args' [Hargs' [_ ->]]].
    rewrite Hargs in Hargs'. injection Hargs' as <-.
    apply Array_sort_In in Hc.
    destruct (YouTube_final_In _ _ _ _ Hc) as [src [item [Hsrc [Hitem Hcand]]]].
    destruct (YouTube_views_bounded _ _ Hpos) as [h [Hh [Hh0 Hviews]]].
    destruct (Hviews src item Hsrc Hitem) as [v [Hv Hvh]].
    unfold YouTube_candidate in Hcand.
    destruct (v_videoId item) as [id|]; [|discriminate].
    injection Hcand as <-. simpl.
    rewrite Hh.
    destruct (YouTube_accuracy_finite (stripText (va_artists args)) (va_duration args)
                (Q_of_N h) v item Hwf Hh0 Hv) as [q [Hq Hf]].
    exists q, (Q_of_N (v_seconds item) * 1000). split; [exact Hq|].
    split; [reflexivity|].
    pose proof (expected_penalty_nonneg (va_duration args)
                  (Q_of_N (v_seconds item) * 1000) Hwf) as Hpen.
    pose proof (Q_of_N_nonneg v) as Hv0.
    pose proof (Q_of_N_le _ _ Hvh) as Hvle.
    split; [|split].
    + rewrite Hf. now apply accB_Q_le_100.
    + rewrite Hf. now apply accB_Q_lower.
    + intros Hp. rewrite Hf. now apply accB_Q_nonneg.
Qed.

(* ================================================================= *)
(** ** Deduplication and ranking of the lists returned *)


Lemma first_with_key_proposed {X V : Type} (key : V -> string) (propose : X -> option V)
    (xs : list X) (x : X) (v : V) :
  In x xs -> propose x = Some v ->
  exists w, first_with_key key (key v) (proposed propose xs) = Some w.
Proof.
  intros Hin Hv. unfold first_with_key.
  destruct (find (fun w => key w =? key v) (proposed propose xs)) as [w|] eqn:E;
    [now exists w|].
  assert (Hp : In v (proposed propose xs)) by (apply proposed_In; now exists x).
  pose proof (find_none _ _ E v Hp) as Hn. simpl in Hn.
  rewrite String.eqb_refl in Hn. discriminate.
Qed.


(** C6, as amended.  The list either adapter returns is in descending
    order of accuracy.  When the source identifiers of the candidates are
    plain keys (no array index, no name every object inherits), the
    candidates of one accuracy stand in it in the order they were met, that
    is the order in which they entered [final]. *)
Theorem ranked_descending_and_stable :
  (forall ytm_search artists track album duration l,
      outcome (YouTubeMusic_search ytm_search artists track album duration) = Return l ->
      descending accuracy l
      /\ exists args results,
           _getSearchArgs artists track album duration = inr args
           /\ ytm_search (YouTubeMusic_query args) = inr results
           /\ let candidates :=
                proposed (YouTubeMusic_candidate (va_duration args))
                  (validSections (YouTubeMusic_strippedMeta args) results) in
              (forallb (fun c => plain_key (ytm_key c)) candidates = true ->
               forall v,
                 of_accuracy accuracy v l
                 = of_accuracy accuracy v (firsts ytm_key [] candidates)))
  /\ (forall ytSearch artists track album duration l,
        outcome (YouTube_search ytSearch artists track album duration) = Return l ->
        descending yt_accuracy l
        /\ exists args,
             _getSearchArgs artists track album duration = inr args
             /\ let candidates :=
                  proposed
                    (YouTube_candidate (stripText (va_artists args)) (va_duration args)
                       (YouTube_highestViews (YouTube_sources ytSearch args)))
                    (encountered (YouTube_sources ytSearch args)) in
                (forallb (fun c => plain_key (yt_videoId c)) candidates = true ->
                 forall v,
                   of_accuracy yt_accuracy v l
                   = of_accuracy yt_accuracy v (firsts yt_videoId [] candidates))).
Proof.
  split.
  - intros ytm_search artists track album duration l Hrun.
    destruct (YouTubeMusic_search_Return _ _ _ _ _ _ Hrun) as [args [results [Ha [Hr ->]]]].
    unfold YouTubeMusic_classified. cbv zeta. split; [apply Array_sort_descending|].
    exists args, results. split; [assumption|]. split; [assumption|].
    intros Hplain v. rewrite Array_sort_stable, YouTubeMusic_final_first_wins.
    now rewrite first_wins_plain_values.
  - intros ytSearch artists track album duration l Hrun.
    destruct (YouTube_search_Return _ _ _ _ _ _ Hrun) as [args [Ha [_ ->]]].
    split; [apply Array_sort_descending|].
    exists args. split; [assumption|]. cbv zeta.
    intros Hplain v. rewrite Array_sort_stable, YouTube_final_first_wins.
    now rewrite first_wins_plain_values.
Qed.

(* ================================================================= *)
(** ** Backend B: failed variants *)

Lemma searchQueue_worker_Rejected (ytSearch : string -> jsError + list video)
    (strippedMeta : list string) (xf : list (list string)) (e : jsError) :
  ytSearch (variant_query strippedMeta xf) = inl e ->
  searchQueue_worker ytSearch strippedMeta xf = Rejected e.
Proof. intros H. unfold searchQueue_worker. now rewrite H. Qed.

Lemma searchQueue_worker_kept (ytSearch : string -> jsError + list video)
    (strippedMeta : list string) (xf : list (list string)) (videos : list video) :
  ytSearch (variant_query strippedMeta xf) = inr videos ->
  exists src,
    searchQueue_worker ytSearch strippedMeta xf = Fulfilled src
    /\ xFilters src = xf
    /\ results src
       = map (fun item => set_views item (views_or_0 item)) (filter (kept strippedMeta) videos).
Proof.
  intros H. unfold searchQueue_worker. rewrite H. eexists. split; [reflexivity|].
  destruct (keep_video_fold strippedMeta videos (mkSource xf (Fin 0) []) 0%N eq_refl)
    as [Hx [Hr _]].
  split; [exact Hx | exact Hr].
Qed.

Lemma YouTube_sources_Fulfilled (ytSearch : string -> jsError + list video)
    (args : validArgs) (xf : list (list string)) (src : source) :
  In xf variants ->
  searchQueue_worker ytSearch (YouTube_strippedMeta args) xf = Fulfilled src ->
  In (Some src) (YouTube_sources ytSearch args).
Proof.
  intros Hin Hw. unfold YouTube_sources, YouTube_searchResults.
  rewrite map_map. apply in_map_iff. exists xf. now rewrite Hw.
Qed.

(** A failed variant and an empty listing bring the same videos: none. *)
Lemma encountered_absorb_failures (ytSearch : string -> jsError + list video)
    (args : validArgs) :
  encountered (YouTube_sources (absorb_failures ytSearch) args)
  = encountered (YouTube_sources ytSearch args).
Proof.
  unfold YouTube_sources, YouTube_searchResults.
  induction variants as [|xf l IH]; [reflexivity|].
  cbn [map]. rewrite (encountered_cons _ (map _ (map _ l))).
  rewrite (encountered_cons (settled_value (searchQueue_worker ytSearch _ xf))).
  rewrite IH. f_equal.
  unfold searchQueue_worker, absorb_failures.
  destruct (ytSearch (variant_query (YouTube_strippedMeta args) xf)); reflexivity.
Qed.

(** The batch maximum enters nothing of a candidate but its accuracy. *)
Lemma firsts_without_accuracy (strippedArtists : list string) (expected : jsval)
    (h h' : num) (entries : list (source * video)) (seen : list string) :
  map without_accuracy
    (firsts yt_videoId seen
       (proposed (storable yt_videoId (YouTube_candidate strippedArtists expected h))
          entries))
  = map without_accuracy
      (firsts yt_videoId seen
         (proposed (storable yt_videoId (YouTube_candidate strippedArtists expected h'))
            entries)).
Proof.
  revert seen. induction entries as [|[src item] entries IH]; intros seen; [reflexivity|].
  rewrite !proposed_cons.
  destruct (storable yt_videoId (YouTube_candidate strippedArtists expected h) (src, item))
    as [c|] eqn:E1;
    destruct (storable yt_videoId (YouTube_candidate strippedArtists expected h') (src, item))
      as [c'|] eqn:E2;
    unfold storable, YouTube_candidate in E1, E2;
    destruct (v_videoId item) as [id|]; cbn [yt_videoId] in E1, E2;
    try destruct (inherited id); try discriminate; try apply IH.
  injection E1 as <-. injection E2 as <-. cbn [firsts yt_videoId].
  destruct (existsb (fun k => k =? id) seen); [apply IH|].
  cbn [map]. f_equal. apply IH.
Qed.

Lemma num_mul_NaN_r (a : num) : (a * NaN)%num = NaN.
Proof. now destruct a. Qed.

Lemma num_div_NaN_r (a : num) : (a / NaN)%num = NaN.
Proof. now destruct a. Qed.

Lemma num_add_NaN_r (a : num) : (a + NaN)%num = NaN.
Proof. now destruct a. Qed.

Lemma YouTube_accuracy_NaN (strippedArtists : list string) (expected : jsval) (item : video) :
  YouTube_calculateAccuracyFor strippedArtists expected NaN item = NaN.
Proof.
  unfold YouTube_calculateAccuracyFor.
  now rewrite num_div_NaN_r, num_mul_NaN_r, num_add_NaN_r.
Qed.

Lemma fold_num_max_In_NaN (l : list num) (acc : num) :
  In NaN l -> fold_left num_max l acc = NaN.
Proof.
  revert acc. induction l as [|x l IH]; intros acc; simpl; [intros []|].
  intros [->|Hin]; [|now apply IH].
  assert (H : num_max acc NaN = NaN) by now destruct acc.
  rewrite H. apply fold_num_max_NaN.
Qed.

(** A failed variant leaves the batch maximum of views undefined. *)
Lemma YouTube_highestViews_failed (ytSearch : string -> jsError + list video)
    (args : validArgs) (xf : list (list string)) (e : jsError) :
  In xf variants ->
  ytSearch (variant_query (YouTube_strippedMeta args) xf) = inl e ->
  YouTube_highestViews (YouTube_sources ytSearch args) = NaN.
Proof.
  intros Hxf He. unfold YouTube_highestViews, Math_max. apply fold_num_max_In_NaN.
  apply in_map_iff. exists None. split; [reflexivity|].
  unfold YouTube_sources, YouTube_searchResults. rewrite map_map.
  apply in_map_iff. exists xf. split; [|assumption].
  now rewrite (searchQueue_worker_Rejected _ _ _ _ He).
Qed.

Lemma YouTube_search_absorb_failures (ytSearch : string -> jsError + list video)
    (artists track album duration : jsval) (args : validArgs) :
  _getSearchArgs artists track album duration = inr args ->
  outcome (YouTube_search (absorb_failures ytSearch) artists track album duration)
  = Return
      (Array_sort (byAccuracy yt_accuracy)
         (Object_values
            (YouTube_final (stripText (va_artists args)) (va_duration args)
               (YouTube_sources (absorb_failures ytSearch) args)))).
Proof.
  intros Hargs. unfold YouTube_search. rewrite Hargs. cbn [outcome].
  unfold YouTube_rank.
  assert (H : forallb isRejected (YouTube_searchResults (absorb_failures ytSearch) args)
              = false).
  { unfold YouTube_searchResults, variants. cbn [map forallb].
    unfold searchQueue_worker at 1, absorb_failures at 1.
    now destruct (ytSearch _). }
  now rewrite H.
Qed.

(** C2.  Backend B.  When each of the four variants fails, [search] throws
    a [YouTubeSearchError] with the message of the failure of the last
    variant and, as its [status], the code of that failure.  When a variant
    succeeds, [search] throws nothing and returns a list: each of its
    candidates is a kept video of a variant that succeeded, each kept video
    of such a variant that carries a video id (no inherited name) has a
    candidate with that id in the list, and the list holds the candidates,
    accuracies apart, of the search in which each failure is an empty
    listing.  But a failed variant is not treated as an empty result: once
    a variant has failed, every candidate has the accuracy NaN (the [{}] of
    line 427 has no [highestViews], so [Math.max] of line 428 gives NaN),
    and the list is not ranked. *)
Theorem YouTube_failed_variants (ytSearch : string -> jsError + list video)
    (artists track album duration : jsval) (args : validArgs) :
  _getSearchArgs artists track album duration = inr args ->
  let meta := YouTube_strippedMeta args in
  ((forall xf, In xf variants -> exists e, ytSearch (variant_query meta xf) = inl e) ->
   forall err,
     ytSearch (variant_query meta [[]]) = inl err ->
     outcome (YouTube_search ytSearch artists track album duration)
     = Throw (SearchError
                {| se_message := err_message err;
                   se_statusCode := None;
                   se_status :=
                     match err_code err with
                     | Some code => if code =? "" then None else Some code
                     | None => None
                     end;
                   se_body := None |}))
  /\ ((exists xf videos, In xf variants /\ ytSearch (variant_query meta xf) = inr videos) ->
      exists l,
        outcome (YouTube_search ytSearch artists track album duration) = Return l
        /\ (forall c, In c l ->
              exists xf videos item,
                In xf variants
                /\ ytSearch (variant_query meta xf) = inr videos
                /\ In item videos
                /\ kept meta item = true
                /\ v_videoId item = Some (yt_videoId c)
                /\ yt_title c = v_title item
                /\ yt_xFilters c = xf)
        /\ (forall xf videos item id,
              In xf variants ->
              ytSearch (variant_query meta xf) = inr videos ->
              In item videos ->
              kept meta item = true ->
              v_videoId item = Some id ->
              inherited id = false ->
              exists c, In c l /\ yt_videoId c = id)
        /\ (exists l',
              outcome (YouTube_search (absorb_failures ytSearch) artists track album duration)
              = Return l'
              /\ Permutation (map without_accuracy l) (map without_accuracy l'))
        /\ ((exists xf e, In xf variants /\ ytSearch (variant_query meta xf) = inl e) ->
            (forall c, In c l -> yt_accuracy c = NaN)
            /\ l = Object_values
                     (YouTube_final (stripText (va_artists args)) (va_duration args)
                        (YouTube_sources ytSearch args)))).
Proof.
  intros Hargs meta. split.
  - intros Hall err Hlast. unfold YouTube_search. rewrite Hargs. cbn [outcome].
    unfold YouTube_rank, YouTube_searchResults. fold meta.
    assert (Hrej : forallb isRejected (map (searchQueue_worker ytSearch meta) variants) = true).
    { apply forallb_forall. intros r Hr. apply in_map_iff in Hr.
      destruct Hr as [xf [<- Hxf]]. destruct (Hall xf Hxf) as [e He].
      now rewrite (searchQueue_worker_Rejected _ _ _ _ He). }
    rewrite Hrej. unfold variants. cbn [map last].
    now rewrite (searchQueue_worker_Rejected _ _ _ _ Hlast).
  - intros [xf0 [videos0 [Hxf0 Hok]]].
    assert (Hl : outcome (YouTube_search ytSearch artists track album duration)
                 = Return
                     (Array_sort (byAccuracy yt_accuracy)
                        (Object_values
                           (YouTube_final (stripText (va_artists args)) (va_duration args)
                              (YouTube_sources ytSearch args))))).
    { unfold YouTube_search. rewrite Hargs. cbn [outcome]. unfold YouTube_rank.
      destruct (forallb isRejected (YouTube_searchResults ytSearch args)) eqn:Hrej;
        [|reflexivity].
      exfalso. rewrite forallb_forall in Hrej.
      destruct (searchQueue_worker_kept _ _ _ _ Hok) as [src [Hw _]].
      assert (Hin : In (searchQueue_worker ytSearch meta xf0)
                       (YouTube_searchResults ytSearch args))
        by (unfold YouTube_searchResults; apply in_map; exact Hxf0).
      specialize (Hrej _ Hin). rewrite Hw in Hrej. discriminate. }
    eexists. split; [exact Hl|]. split; [|split; [|split]].
    + intros c Hc. apply Array_sort_In in Hc.
      destruct (YouTube_final_In _ _ _ _ Hc) as [src [item [Hsrc [Hitem Hcand]]]].
      destruct (YouTube_sources_In _ _ _ Hsrc) as [xf [Hxf Hw]].
      destruct (searchQueue_worker_Fulfilled _ _ _ _ Hw) as [videos [Hv [Hx [Hr _]]]].
      rewrite Hr in Hitem. apply in_map_iff in Hitem.
      destruct Hitem as [raw [<- Hraw]]. apply filter_In in Hraw.
      destruct Hraw as [Hraw Hkept].
      unfold YouTube_candidate in Hcand. simpl in Hcand.
      destruct (v_videoId raw) as [id|] eqn:Eid; [|discriminate].
      injection Hcand as <-. simpl.
      exists xf, videos, raw. repeat split; assumption.
    + intros xf videos item id Hxf Hv Hitem Hkept Hid Hown.
      destruct (searchQueue_worker_kept _ _ _ _ Hv) as [src [Hw [Hx Hr]]].
      pose proof (YouTube_sources_Fulfilled _ _ _ _ Hxf Hw) as Hsrc.
      assert (Hin : In (src, set_views item (views_or_0 item))
                       (encountered (YouTube_sources ytSearch args))).
      { apply encountered_In. split; [assumption|]. rewrite Hr.
        apply (in_map (fun item => set_views item (views_or_0 item))).
        apply filter_In. now split. }
      set (candidate :=
             YouTube_candidate (stripText (va_artists args)) (va_duration args)
               (YouTube_highestViews (YouTube_sources ytSearch args))).
      assert (Hc : exists c,
                 candidate (src, set_views item (views_or_0 item)) = Some c
                 /\ yt_videoId c = id).
      { unfold candidate, YouTube_candidate. simpl. rewrite Hid.
        eexists. split; reflexivity. }
      destruct Hc as [c0 [Hc0 Hk0]].
      destruct (first_with_key_proposed yt_videoId _ _ _ _ Hin Hc0) as [c Hfirst].
      rewrite Hk0 in Hfirst.
      assert (Hwk : with_key yt_videoId id
                      (Object_values
                         (YouTube_final (stripText (va_artists args)) (va_duration args)
                            (YouTube_sources ytSearch args))) = [c]).
      { rewrite YouTube_final_first_wins, first_wins_dedup. fold candidate.
        now rewrite Hown, Hfirst. }
      assert (Hcin : In c (with_key yt_videoId id
                             (Object_values
                                (YouTube_final (stripText (va_artists args))
                                   (va_duration args) (YouTube_sources ytSearch args)))))
        by (rewrite Hwk; now left).
      apply filter_In in Hcin. destruct Hcin as [Hcin Hck].
      exists c. split; [now apply Array_sort_In|]. now apply String.eqb_eq.
    + eexists.
      split; [exact (YouTube_search_absorb_failures ytSearch _ _ _ _ args Hargs)|].
      eapply perm_trans; [apply Permutation_map, Array_sort_perm|].
      eapply perm_trans; [|apply Permutation_sym, Permutation_map, Array_sort_perm].
      eapply perm_trans; [apply Permutation_map, Object_values_perm|].
      eapply perm_trans; [|apply Permutation_sym, Permutation_map, Object_values_perm].
      rewrite !YouTube_final_first_wins, !first_wins_values.
      rewrite encountered_absorb_failures.
      erewrite firsts_without_accuracy. apply Permutation_refl.
    + intros [xf [e [Hxf He]]].
      pose proof (YouTube_highestViews_failed _ _ _ _ Hxf He) as Hnan.
      assert (Hall : forall c,
                In c (Object_values
                        (YouTube_final (stripText (va_artists args)) (va_duration args)
                           (YouTube_sources ytSearch args))) ->
                yt_accuracy c = NaN).
      { intros c Hc.
        destruct (YouTube_final_In _ _ _ _ Hc) as [src [item [_ [_ Hcand]]]].
        rewrite Hnan in Hcand. unfold YouTube_candidate in Hcand.
        destruct (v_videoId item); [|discriminate].
        injection Hcand as <-. simpl. apply YouTube_accuracy_NaN. }
      split.
      * intros c Hc. apply Array_sort_In in Hc. now apply Hall.
      * now apply Array_sort_all_NaN.
Qed.

(* ================================================================= *)
(** ** Backend A: what a candidate is made of *)

(** The test ['videoId' in item] of line 337 reads the key, not the value:
    an item that holds [undefined] under the key enters [final], under the
    property name ["undefined"], when it passes the two thresholds. *)
Lemma classify_undefined_videoId (expected : jsval) (final : dict ytmCandidate)
    (item : weighted) :
  item_videoId (w_item item) = Some None ->
  js_in "undefined" final = false ->
  (weight item >? Fin 65)%num = true ->
  (YouTubeMusic_calculateAccuracyFor expected (mk_cleanItem (w_item item) None) (weight item)
   >? Fin 80)%num = true ->
  classify expected final item
  = js_set "undefined"
      (mkCandidate (mk_cleanItem (w_item item) None)
         (YouTubeMusic_calculateAccuracyFor expected (mk_cleanItem (w_item item) None)
            (weight item)))
      final.
Proof.
  intros Hid Hin Hw Ha. unfold classify. rewrite Hid. simpl propertyKey.
  change (Object_in "undefined" final) with (js_in "undefined" final).
  rewrite Hw, Hin. simpl. now rewrite Ha.
Qed.

(** Every candidate returned is a song or a video, made from an item that
    has the key [videoId]; the value under the key is copied as it is. *)
Lemma YouTubeMusic_candidates_are_songs_or_videos
    (ytm_search : string -> exn + ytmResults) (artists track album duration : jsval)
    (l : list ytmCandidate) (c : ytmCandidate) :
  outcome (YouTubeMusic_search ytm_search artists track album duration) = Return l ->
  In c l ->
  is_song_or_video (type (clean c)) = true
  /\ exists args results item,
       _getSearchArgs artists track album duration = inr args
       /\ ytm_search (YouTubeMusic_query args) = inr results
       /\ In item (validSections (YouTubeMusic_strippedMeta args) results)
       /\ item_videoId (w_item item) = Some (videoId (clean c)).
Proof.
  intros Hrun Hc.
  destruct (YouTubeMusic_search_Return _ _ _ _ _ _ Hrun) as [args [results [Ha [Hr ->]]]].
  destruct (YouTubeMusic_classified_In _ _ _ Hc) as [item [Hitem Hcand]].
  destruct (YouTubeMusic_candidate_Some _ _ _ Hcand) as [id [Hid [Hclean _]]].
  destruct (validSections_In _ _ _ Hitem) as [title [_ [_ [Hsv _]]]].
  rewrite Hclean. simpl. split; [assumption|].
  exists args, results, item. now repeat split.
Qed.

(* ================================================================= *)
(** ** Backend B: a failed variant leaves no accuracy *)

(** X1.  When a variant fails and another succeeds, [search] returns its
    candidates with the accuracy NaN: the [{}] that stands for the failed
    variant has no [highestViews] (line 427), and [Math.max] of line 428
    answers NaN. *)
Lemma YouTube_failed_variant_spoils_accuracy (ytSearch : string -> jsError + list video)
    (artists track album duration : jsval) (args : validArgs)
    (l : list ytCandidate) (xf : list (list string)) (e : jsError) :
  _getSearchArgs artists track album duration = inr args ->
  In xf variants ->
  ytSearch (variant_query (YouTube_strippedMeta args) xf) = inl e ->
  outcome (YouTube_search ytSearch artists track album duration) = Return l ->
  forall c, In c l -> yt_accuracy c = NaN.
Proof.
  intros Hargs Hxf He Hrun c Hc.
  destruct (YouTube_search_Return _ _ _ _ _ _ Hrun) as [args' [Hargs' [_ ->]]].
  rewrite Hargs in Hargs'. injection Hargs' as <-.
  apply Array_sort_In in Hc.
  destruct (YouTube_final_In _ _ _ _ Hc) as [src [item [_ [_ Hcand]]]].
  assert (Hnan : YouTube_highestViews (YouTube_sources ytSearch args) = NaN).
  { unfold YouTube_highestViews, Math_max. apply fold_num_max_In_NaN.
    apply in_map_iff. exists None. split; [reflexivity|].
    unfold YouTube_sources, YouTube_searchResults. rewrite map_map.
    apply in_map_iff. exists xf. split; [|assumption].
    now rewrite (searchQueue_worker_Rejected _ _ _ _ He). }
  rewrite Hnan in Hcand. unfold YouTube_candidate in Hcand.
  destruct (v_videoId item); [|discriminate].
  injection Hcand as <-. simpl. apply YouTube_accuracy_NaN.
Qed.

(* ================================================================= *)
(** ** The lists that are sorted hold accuracies that compare

    The comparator of lines 352 and 461 orders numbers and ties NaN with
    everything.  Backend A sorts finite accuracies only; Backend B sorts
    accuracies that are all finite or all NaN.  On such lists the ties of
    the comparator are an equivalence, so a stable sort has one possible
    result, the list [Array_sort] returns. *)

Lemma percent_sign (t : option string) : Qsign (spec_percent_A t / 100) = Gt.
Proof.
  destruct t as [s|]; simpl; [|reflexivity].
  destruct (s =? "song"); [reflexivity|]. now destruct (s =? "video").
Qed.

Lemma YouTubeMusic_accuracy_Fin_or_NaN (expected : jsval) (item : cleanItem) (w : num) :
  YouTubeMusic_calculateAccuracyFor expected item w = NaN
  \/ exists q, YouTubeMusic_calculateAccuracyFor expected item w = Fin q.
Proof.
  unfold YouTubeMusic_calculateAccuracyFor.
  rewrite type_bonus_percent.
  rewrite (num_div_Fin (spec_percent_A (type item)) 100) by (intros H; discriminate H).
  pose proof (percent_sign (type item)) as Hs.
  generalize (Fin 0
              + (w - (if truthy expected
                      then Math_abs (num_of expected - duration_ms item) / num_of expected
                      else Fin (1 # 2)) * Fin 100))%num.
  intros a. destruct a as [q| | |];
    cbn [num_sub num_neg num_add num_mul]; unfold inf_times; rewrite ?Hs; eauto.
Qed.

(** Backend A: every candidate returned has a finite accuracy. *)
Lemma YouTubeMusic_accuracies_finite (args : validArgs) (results : ytmResults)
    (c : ytmCandidate) :
  In c (YouTubeMusic_classified args results) -> exists q, accuracy c = Fin q.
Proof.
  intros Hc. destruct (YouTubeMusic_classified_In _ _ _ Hc) as [item [_ Hcand]].
  destruct (YouTubeMusic_candidate_Some _ _ _ Hcand) as [id [_ [_ [Hacc [_ Ha]]]]].
  destruct (YouTubeMusic_accuracy_Fin_or_NaN (va_duration args) (clean c) (weight item))
    as [Hnan|[q Hq]].
  - rewrite Hacc, Hnan in Ha. discriminate.
  - exists q. now rewrite Hacc.
Qed.

(** What [_getSearchArgs] lets through as a duration: a falsy value, or a
    number that is truthy. *)
Lemma validated_duration (artists track album duration : jsval) (args : validArgs) :
  _getSearchArgs artists track album duration = inr args ->
  truthy (va_duration args) = false
  \/ exists n, va_duration args = JNum n /\ num_truthy n = true.
Proof.
  unfold _getSearchArgs, validateArgs.
  destruct (shuffleArgs artists track album duration) as [A T AL D]. simpl.
  destruct T; try discriminate. destruct AL; try discriminate.
  destruct (all_strings A); try discriminate.
  destruct (truthy D) eqn:Et; simpl.
  - destruct D; simpl; try discriminate. intros H. injection H as <-.
    right. exists n. now split.
  - intros H. injection H as <-. now left.
Qed.

Lemma YouTube_accuracy_uniform (strippedArtists : list string) (expected : jsval) (h : N) :
  truthy expected = false \/ (exists n, expected = JNum n /\ num_truthy n = true) ->
  (forall item v, v_views item = Some v -> (v <= h)%N ->
     YouTube_calculateAccuracyFor strippedArtists expected (of_N h) item = NaN)
  \/ (forall item v, v_views item = Some v -> (v <= h)%N ->
        exists q, YouTube_calculateAccuracyFor strippedArtists expected (of_N h) item = Fin q).
Proof.
  intros Hexp. destruct (N.eq_dec h 0) as [->|Hh].
  - left. intros item v Hv Hle. assert (v = 0%N) by lia. subst v.
    unfold YouTube_calculateAccuracyFor, views_num. rewrite Hv.
    change (of_N 0 / of_N 0)%num with NaN.
    now rewrite num_mul_NaN_r, num_add_NaN_r.
  - assert (Hh0 : ~ inject_Z (Z.of_N h) == 0).
    { intros H. unfold Qeq in H. simpl in H. lia. }
    destruct Hexp as [Hf|[[d| | |] [-> Ht]]]; try discriminate Ht.
    + right. intros item v Hv _.
      unfold YouTube_calculateAccuracyFor, views_num. rewrite Hv, Hf. unfold of_N.
      rewrite !num_div_Fin by (assumption || (intros H; discriminate H)).
      destruct (getWeight strippedArtists (stripText [v_author_name item]) >=? Fin 80)%num;
        cbn [num_mul num_sub num_neg num_add]; eauto.
    + right. intros item v Hv _.
      assert (Hd : ~ d == 0) by now apply num_truthy_Fin.
      unfold YouTube_calculateAccuracyFor, views_num. rewrite Hv.
      change (truthy (JNum (Fin d))) with (num_truthy (Fin d)).
      rewrite Ht. unfold of_N. cbn [num_of num_sub num_neg num_add Math_abs num_mul].
      rewrite !num_div_Fin by (assumption || (intros H; discriminate H)).
      destruct (getWeight strippedArtists (stripText [v_author_name item]) >=? Fin 80)%num;
        cbn [num_mul num_sub num_neg num_add]; eauto.
    + left. intros item v Hv _. unfold YouTube_calculateAccuracyFor. reflexivity.
    + left. intros item v Hv _. unfold YouTube_calculateAccuracyFor. reflexivity.
Qed.

(** Backend B: the accuracies of the candidates are all NaN or all finite. *)
Lemma YouTube_accuracies_uniform (ytSearch : string -> jsError + list video)
    (artists track album duration : jsval) (args : validArgs) :
  _getSearchArgs artists track album duration = inr args ->
  let final :=
    Object_values
      (YouTube_final (stripText (va_artists args)) (va_duration args)
         (YouTube_sources ytSearch args)) in
  (forall c, In c final -> yt_accuracy c = NaN)
  \/ (forall c, In c final -> exists q, yt_accuracy c = Fin q).
Proof.
  intros Hargs final.
  assert (Hfrom : forall c, In c final ->
            exists src item,
              In (Some src) (YouTube_sources ytSearch args)
              /\ In item (results src)
              /\ yt_accuracy c
                 = YouTube_calculateAccuracyFor (stripText (va_artists args))
                     (va_duration args)
                     (YouTube_highestViews (YouTube_sources ytSearch args)) item).
  { intros c Hc. destruct (YouTube_final_In _ _ _ _ Hc) as [src [item [Hs [Hi Hcand]]]].
    exists src, item. split; [assumption|]. split; [assumption|].
    unfold YouTube_candidate in Hcand. destruct (v_videoId item); [|discriminate].
    now injection Hcand as <-. }
  destruct (YouTube_highestViews_cases ytSearch args) as [Hnan|[h [Hh Hviews]]].
  - left. intros c Hc. destruct (Hfrom c Hc) as [src [item [_ [_ ->]]]].
    rewrite Hnan. apply YouTube_accuracy_NaN.
  - destruct (YouTube_accuracy_uniform (stripText (va_artists args)) (va_duration args) h
                (validated_duration _ _ _ _ _ Hargs)) as [Hall|Hall].
    + left. intros c Hc. destruct (Hfrom c Hc) as [src [item [Hs [Hi ->]]]].
      destruct (Hviews src item Hs Hi) as [v [Hv Hle]]. rewrite Hh. eapply Hall; eassumption.
    + right. intros c Hc. destruct (Hfrom c Hc) as [src [item [Hs [Hi ->]]]].
      destruct (Hviews src item Hs Hi) as [v [Hv Hle]]. rewrite Hh. eapply Hall; eassumption.
Qed.

(** On finite accuracies, descending order is the order of [>=]. *)
Lemma descending_finite {A : Type} (acc : A -> num) (l : list A) :
  (forall c, In c l -> exists q, acc c = Fin q) ->
  descending acc l ->
  StronglySorted (fun a b => (acc a >=? acc b)%num = true) l.
Proof.
  intros Hfin Hd. induction Hd as [|x l Hl IH Hx]; constructor.
  - apply IH. intros c Hc. apply Hfin. now right.
  - rewrite Forall_forall in *. intros y Hy. specialize (Hx y Hy).
    destruct (Hfin x (or_introl eq_refl)) as [qx Hqx].
    destruct (Hfin y (or_intror Hy)) as [qy Hqy]. rewrite Hqx, Hqy in *.
    apply num_ge_Fin. now apply num_gt_Fin_false.
Qed.

(* ================================================================= *)
(** ** [_getSearchArgs]: what the shuffle does to well-formed calls *)

(** X2.  Arguments that passed [_getSearchArgs] pass it again unchanged: the
    shuffle of lines 24-28 leaves an array of artists, a string track and
    a string album where they are, and the checks answer as before. *)
Theorem getSearchArgs_idempotent (artists track album duration : jsval) (args : validArgs) :
  _getSearchArgs artists track album duration = inr args ->
  _getSearchArgs (JArr (map JStr (va_artists args))) (JStr (va_track args))
    (JStr (va_album args)) (va_duration args)
  = inr args.
Proof.
  intros H. pose proof (validated_duration _ _ _ _ _ H) as Hd.
  destruct args as [A T AL D]. simpl in *.
  unfold _getSearchArgs, shuffleArgs, validateArgs. simpl.
  rewrite all_strings_map.
  destruct Hd as [Hd|[n [-> Hn]]].
  - now rewrite Hd.
  - simpl. now rewrite andb_false_r.
Qed.

(** X3.  Lines 26-28 on an artist given as one string [a], with a string album
    and a duration that is absent or a number.  With no track, or with the
    empty track, [a] becomes the track and no artist is left; with a track
    that is not empty, [a] becomes the only artist; and an empty [a] is
    dropped. *)
Theorem lone_artist_is_artist_or_track (a t album : string) (duration : jsval) :
  a <> "" -> t <> "" ->
  truthy duration = false \/ typeof duration = "number" ->
  _getSearchArgs (JStr a) JUndefined (JStr album) duration
  = inr (mkValid [] a album duration)
  /\ _getSearchArgs (JStr a) (JStr "") (JStr album) duration
     = inr (mkValid [] a album duration)
  /\ _getSearchArgs (JStr a) (JStr t) (JStr album) duration
     = inr (mkValid [a] t album duration)
  /\ _getSearchArgs (JStr "") (JStr t) (JStr album) duration
     = inr (mkValid [] t album duration).
Proof.
  intros Ha Ht Hd.
  assert (Ea : (a =? "") = false) by now apply String.eqb_neq.
  assert (Et : (t =? "") = false) by now apply String.eqb_neq.
  assert (Hcheck : truthy duration && negb (typeof duration =? "number") = false).
  { destruct Hd as [Hd|Hd]; [now rewrite Hd|].
    rewrite Hd. simpl. apply andb_false_r. }
  unfold _getSearchArgs, shuffleArgs, validateArgs, js_or. simpl.
  rewrite Ea, Et. simpl. rewrite Hcheck. repeat split; reflexivity.
Qed.

(* ================================================================= *)
(** ** Backend A needs an expected duration *)




(** X5.  With an expected duration [d], Backend A returns no item whose
    duration is 40% of [d] or more away from it: the penalty of such an
    item is 40 or more, which leaves a song at most [100 - 40/2 = 80], a
    video less, not above the threshold of line 347, as long as
    [getWeight] answers at most 100.  An item whose duration is no number
    is not returned either. *)
Theorem YouTubeMusic_duration_tolerance (ytm_search : string -> exn + ytmResults)
    (artists track album duration : jsval) (args : validArgs) (l : list ytmCandidate)
    (c : ytmCandidate) (d : Q) :
  (forall x y, (getWeight x y >? Fin 100)%num = false) ->
  _getSearchArgs artists track album duration = inr args ->
  va_duration args = JNum (Fin d) ->
  0 < d ->
  outcome (YouTubeMusic_search ytm_search artists track album duration) = Return l ->
  In c l ->
  exists m, duration_ms (clean c) = Fin m /\ Qabs (d - m) * 100 < 40 * d.
Proof.
  intros Hw Hargs Hd Hpos Hrun Hc.
  destruct (YouTubeMusic_search_Return _ _ _ _ _ _ Hrun) as [args' [results [Hargs' [_ ->]]]].
  rewrite Hargs in Hargs'. injection Hargs' as <-.
  destruct (YouTubeMusic_classified_In _ _ _ Hc) as [item [Hitem Hcand]].
  destruct (YouTubeMusic_candidate_Some _ _ _ Hcand) as [id [_ [_ [Hacc [H65 H80]]]]].
  destruct (validSections_In _ _ _ Hitem) as [title [_ [_ [_ Hwt]]]].
  pose proof (Hw (YouTubeMusic_strippedMeta args)
                 (stripText (item_words (w_item item) title))) as Hle.
  rewrite <- Hwt in Hle.
  destruct (weight item) as [w| | |] eqn:Ew; try discriminate H65; [|discriminate Hle].
  apply num_gt_Fin_false in Hle. rewrite Hd in Hacc.
  destruct (duration_ms (clean c)) as [m| | |] eqn:Em;
    try (rewrite (YouTubeMusic_accuracy_not_finite d w (clean c) Hpos) in Hacc;
         [rewrite Hacc in H80; discriminate H80|intros m' Hm'; congruence]).
  exists m. split; [reflexivity|].
  assert (Hwf : well_formed_duration (JNum (Fin d))).
  { right. exists d. split; [reflexivity|]. now apply Qlt_le_weak. }
  destruct (YouTubeMusic_accuracy_finite (JNum (Fin d)) w m (clean c) Hwf Em)
    as [q [Hq Hform]].
  rewrite Hq in Hacc. rewrite Hacc in H80. apply num_gt_Fin in H80.
  assert (He : expected_Q (JNum (Fin d)) = Some d).
  { simpl. destruct (Qeq_bool d 0) eqn:E; [|reflexivity].
    apply Qeq_bool_iff in E. rewrite E in Hpos. discriminate Hpos. }
  rewrite He in Hform. unfold penalty_Q, accA_Q in Hform.
  set (a := Qabs (d - m)) in *.
  assert (Hx : a / d * d == a).
  { field. intros E. rewrite E in Hpos. discriminate Hpos. }
  set (x := a / d) in *.
  assert (Hx40 : x * 100 < 40).
  { rewrite Hform in H80. clear - H80 Hle.
    destruct (type (clean c)) as [s|]; simpl in H80.
    - destruct (s =? "song"); [|destruct (s =? "video")];
        unfold Qdiv in H80; change (/ 100) with (1 # 100) in H80; lra.
    - unfold Qdiv in H80; change (/ 100) with (1 # 100) in H80; lra. }
  rewrite <- Hx. nra.
Qed.

(* ================================================================= *)
(** ** Backend B: what the worker reports, and when views give no score *)

Lemma keep_video_fold_most_views (strippedMeta : list string) (videos : list video)
    (src : source) (h : N) :
  highestViews src = of_N h ->
  highestViews (fold_left (keep_video strippedMeta) videos src)
  = of_N (N.max h (most_views (filter (kept strippedMeta) videos))).
Proof.
  revert src h. induction videos as [|item videos IH]; intros src h Hh; simpl.
  - rewrite Hh. f_equal. unfold most_views. simpl. lia.
  - unfold keep_video at 2. fold (kept strippedMeta item).
    destruct (kept strippedMeta item) eqn:E.
    + rewrite Hh, Math_max_pair_of_N.
      rewrite IH with (h := N.max h (views_or_0 item)) by reflexivity.
      f_equal. unfold most_views. simpl. lia.
    + now apply IH.
Qed.

(** X6.  The worker of the queue (lines 373-392), in closed form: a failed
    keyword search rejects the task; otherwise the task answers the videos
    whose weight exceeds 70, in the order of the listing, each with an
    absent view count set to 0, together with the filter words it was
    given and the largest view count among the videos kept (0 when none
    is kept). *)
Theorem searchQueue_worker_closed_form (ytSearch : string -> jsError + list video)
    (strippedMeta : list string) (xf : list (list string)) :
  searchQueue_worker ytSearch strippedMeta xf
  = match ytSearch (variant_query strippedMeta xf) with
    | inl reason => Rejected reason
    | inr videos =>
        Fulfilled
          {| xFilters := xf;
             highestViews := of_N (most_views (filter (kept strippedMeta) videos));
             results := map (fun item => set_views item (views_or_0 item))
                          (filter (kept strippedMeta) videos) |}
    end.
Proof.
  unfold searchQueue_worker.
  destruct (ytSearch (variant_query strippedMeta xf)) as [e|videos]; [reflexivity|].
  f_equal.
  destruct (keep_video_fold strippedMeta videos (mkSource xf (Fin 0) []) 0%N eq_refl)
    as [Hx [Hr _]].
  pose proof (keep_video_fold_most_views strippedMeta videos (mkSource xf (Fin 0) []) 0%N
                eq_refl) as Hh.
  rewrite N.max_0_l in Hh.
  destruct (fold_left (keep_video strippedMeta) videos (mkSource xf (Fin 0) []))
    as [x h r].
  simpl in *. now subst.
Qed.

Lemma YouTube_accuracy_no_views (strippedArtists : list string) (expected : jsval)
    (item : video) :
  v_views item = Some 0%N ->
  YouTube_calculateAccuracyFor strippedArtists expected (of_N 0) item = NaN.
Proof.
  intros Hv. unfold YouTube_calculateAccuracyFor, views_num. rewrite Hv.
  change (of_N 0 / of_N 0)%num with NaN.
  now rewrite num_mul_NaN_r, num_add_NaN_r.
Qed.

(** X7.  When every variant answers but no video it keeps has a view count
    above 0, the batch maximum of line 428 is 0, line 434 divides 0 by 0,
    and every candidate is returned with the accuracy NaN. *)
Theorem YouTube_no_views_no_accuracy (ytSearch : string -> jsError + list video)
    (artists track album duration : jsval) (args : validArgs) (l : list ytCandidate) :
  _getSearchArgs artists track album duration = inr args ->
  (forall xf, In xf variants ->
     exists videos,
       ytSearch (variant_query (YouTube_strippedMeta args) xf) = inr videos
       /\ most_views (filter (kept (YouTube_strippedMeta args)) videos) = 0%N) ->
  outcome (YouTube_search ytSearch artists track album duration) = Return l ->
  forall c, In c l -> yt_accuracy c = NaN.
Proof.
  intros Hargs Hall Hrun c Hc.
  destruct (YouTube_search_Return _ _ _ _ _ _ Hrun) as [args' [Hargs' [_ ->]]].
  rewrite Hargs in Hargs'. injection Hargs' as <-.
  apply Array_sort_In in Hc.
  destruct (YouTube_final_In _ _ _ _ Hc) as [src [item [Hsrc [Hitem Hcand]]]].
  assert (Hw : forall xf, In xf variants ->
            exists videos,
              searchQueue_worker ytSearch (YouTube_strippedMeta args) xf
              = Fulfilled
                  {| xFilters := xf;
                     highestViews := of_N 0;
                     results := map (fun item => set_views item (views_or_0 item))
                                  (filter (kept (YouTube_strippedMeta args)) videos) |}
              /\ most_views (filter (kept (YouTube_strippedMeta args)) videos) = 0%N).
  { intros xf Hxf. destruct (Hall xf Hxf) as [videos [Hv H0]]. exists videos.
    split; [|assumption].
    unfold searchQueue_worker. rewrite Hv. f_equal.
    destruct (keep_video_fold (YouTube_strippedMeta args) videos (mkSource xf (Fin 0) [])
                0%N eq_refl) as [Hx [Hr _]].
    pose proof (keep_video_fold_most_views (YouTube_strippedMeta args) videos
                  (mkSource xf (Fin 0) []) 0%N eq_refl) as Hh.
    rewrite N.max_0_l, H0 in Hh.
    destruct (fold_left (keep_video (YouTube_strippedMeta args)) videos
                (mkSource xf (Fin 0) [])) as [x h r].
    simpl in *. now subst. }
  assert (Hmax : YouTube_highestViews (YouTube_sources ytSearch args) = of_N 0).
  { unfold YouTube_highestViews, YouTube_sources, YouTube_searchResults, variants.
    destruct (Hw [["Official Audio"]]) as [v1 [H1 _]]; [simpl; tauto|].
    destruct (Hw [["Audio"]]) as [v2 [H2 _]]; [simpl; tauto|].
    destruct (Hw [["Lyrics"]]) as [v3 [H3 _]]; [simpl; tauto|].
    destruct (Hw [[]]) as [v4 [H4 _]]; [simpl; tauto|].
    cbn [map]. rewrite H1, H2, H3, H4. reflexivity. }
  rewrite Hmax in Hcand.
  destruct (YouTube_sources_In _ _ _ Hsrc) as [xf [Hxf Hsrcw]].
  destruct (Hw xf Hxf) as [videos [Hv H0]]. rewrite Hv in Hsrcw.
  injection Hsrcw as <-. cbn [results] in Hitem.
  apply in_map_iff in Hitem. destruct Hitem as [raw [<- Hraw]].
  assert (Hraw0 : views_or_0 raw = 0%N).
  { clear - Hraw H0. unfold most_views in H0. revert Hraw H0.
    generalize (filter (kept (YouTube_strippedMeta args)) videos). intros ys.
    induction ys as [|y ys IH]; intros Hraw H0; [destruct Hraw|].
    cbn [map fold_right] in H0. destruct Hraw as [->|Hin]; [lia|].
    apply IH; [assumption|lia]. }
  unfold YouTube_candidate in Hcand. cbn [v_videoId set_views] in Hcand.
  destruct (v_videoId raw); [|discriminate].
  injection Hcand as <-. cbn [yt_accuracy].
  apply YouTube_accuracy_no_views. cbn [v_views set_views]. now rewrite Hraw0.
Qed.

(** X24.  Backend B's accuracy in closed form, when the batch maximum of
    views [h] is positive: a candidate comes from a video some fulfilled
    variant kept, with [v <= h] views, and its accuracy is 100 less the
    duration penalty, then raised by 80% of the remaining gap scaled by
    [v / h], then by 60% of the gap that is left when the author of the
    video matches the artists of the query (weight of at least 80). *)
Theorem YouTube_accuracy_formula (ytSearch : string -> jsError + list video)
    (artists track album duration : jsval) (args : validArgs) (l : list ytCandidate)
    (c : ytCandidate) :
  _getSearchArgs artists track album duration = inr args ->
  well_formed_duration (va_duration args) ->
  (YouTube_highestViews (YouTube_sources ytSearch args) >? Fin 0)%num = true ->
  outcome (YouTube_search ytSearch artists track album duration) = Return l ->
  In c l ->
  exists h src item v q,
    YouTube_highestViews (YouTube_sources ytSearch args) = of_N h
    /\ In (Some src) (YouTube_sources ytSearch args)
    /\ In item (results src)
    /\ v_videoId item = Some (yt_videoId c)
    /\ v_views item = Some v
    /\ (v <= h)%N
    /\ yt_duration_ms c = Fin (Q_of_N (v_seconds item) * 1000)
    /\ yt_accuracy c = Fin q
    /\ q == accB_Q (authorMatches (stripText (va_artists args)) item)
             (penalty_Q (expected_Q (va_duration args)) (Q_of_N (v_seconds item) * 1000))
             (Q_of_N v) (Q_of_N h).
Proof.
  intros Hargs Hwf Hpos Hrun Hc.
  destruct (YouTube_search_Return _ _ _ _ _ _ Hrun) as [args' [Hargs' [_ ->]]].
  rewrite Hargs in Hargs'. injection Hargs' as <-.
  apply Array_sort_In in Hc.
  destruct (YouTube_final_In _ _ _ _ Hc) as [src [item [Hsrc [Hitem Hcand]]]].
  destruct (YouTube_views_bounded _ _ Hpos) as [h [Hh [Hh0 Hviews]]].
  destruct (Hviews src item Hsrc Hitem) as [v [Hv Hvh]].
  unfold YouTube_candidate in Hcand.
  destruct (v_videoId item) as [id|] eqn:Eid; [|discriminate].
  injection Hcand as <-. cbn [yt_videoId yt_accuracy yt_duration_ms].
  rewrite Hh.
  destruct (YouTube_accuracy_finite (stripText (va_artists args)) (va_duration args)
              (Q_of_N h) v item Hwf Hh0 Hv) as [q [Hq Hf]].
  exists h, src, item, v, q.
  split; [reflexivity|]. split; [exact Hsrc|]. split; [exact Hitem|].
  split; [exact Eid|]. split; [exact Hv|]. split; [exact Hvh|].
  split; [reflexivity|]. split; [exact Hq|exact Hf].
Qed.

(* ================================================================= *)
(** ** Backend A: the duration of an item, read in base 60 *)

Lemma split_no_separator (sep : ascii) (s : string) :
  occurs sep s = false -> split sep s = [s].
Proof.
  induction s as [|c s IH]; simpl; [reflexivity|].
  destruct (Ascii.eqb c sep); [discriminate|]. simpl. intros H. now rewrite IH.
Qed.

Lemma split_at_separator (sep : ascii) (s rest : string) :
  occurs sep s = false -> split sep (s ++ String sep rest) = s :: split sep rest.
Proof.
  induction s as [|c s IH]; simpl.
  - now rewrite Ascii.eqb_refl.
  - destruct (Ascii.eqb c sep); [discriminate|]. simpl. intros H. now rewrite IH.
Qed.

(** X8.  Line 343 reads a duration as seconds, as minutes and seconds, or as
    hours, minutes and seconds, and answers milliseconds: the pieces
    between the colons are converted to numbers and weighed by powers of
    60. *)
Theorem parse_duration_ms_base_60 (h m s : string) :
  occurs colon h = false -> occurs colon m = false -> occurs colon s = false ->
  parse_duration_ms s = (ToNumber s * Fin 1000)%num
  /\ parse_duration_ms (m ++ ":" ++ s)
     = ((Fin 60 * ToNumber m + ToNumber s) * Fin 1000)%num
  /\ parse_duration_ms (h ++ ":" ++ m ++ ":" ++ s)
     = ((Fin 60 * (Fin 60 * ToNumber h + ToNumber m) + ToNumber s) * Fin 1000)%num.
Proof.
  intros Hh Hm Hs. unfold parse_duration_ms.
  change (":" ++ s)%string with (String colon s).
  change (":" ++ m ++ String colon s)%string with (String colon (m ++ String colon s)).
  rewrite (split_at_separator colon h), (split_at_separator colon m),
    (split_no_separator colon s) by assumption.
  repeat split; reflexivity.
Qed.

(* ================================================================= *)
(** ** Objects: [o[k]], [o[k] = v] and [Object.fromEntries] *)

Section ObjectFacts.
Context {V : Type}.

Lemma js_get_set_same (k : string) (v : V) (o : dict V) :
  js_get k (js_set k v o) = Some v.
Proof.
  induction o as [|[k' v'] o IH]; simpl.
  - now rewrite String.eqb_refl.
  - destruct (k' =? k) eqn:E; simpl; rewrite E; [reflexivity|assumption].
Qed.

Lemma js_get_set_other (k k' : string) (v : V) (o : dict V) :
  k <> k' -> js_get k' (js_set k v o) = js_get k' o.
Proof.
  intros Hne. induction o as [|[k0 v0] o IH]; simpl.
  - apply String.eqb_neq in Hne. now rewrite Hne.
  - destruct (k0 =? k) eqn:E; simpl.
    + apply String.eqb_eq in E. subst k0.
      apply String.eqb_neq in Hne. now rewrite Hne.
    + destruct (k0 =? k'); [reflexivity|assumption].
Qed.

Lemma js_set_keys (k : string) (v : V) (o : dict V) :
  map fst (js_set k v o) = if js_in k o then map fst o else map fst o ++ [k].
Proof.
  unfold js_in. induction o as [|[k' v'] o IH]; simpl; [reflexivity|].
  destruct (k' =? k) eqn:E; simpl; [reflexivity|].
  rewrite IH. now destruct (existsb (fun e => fst e =? k) o).
Qed.

Lemma js_set_NoDup (k : string) (v : V) (o : dict V) :
  NoDup (map fst o) -> NoDup (map fst (js_set k v o)).
Proof.
  intros H. rewrite js_set_keys. destruct (js_in k o) eqn:E; [assumption|].
  apply NoDup_app; [assumption|repeat constructor; intros []|].
  intros x Hx [<-|[]]. apply js_in_In in Hx. congruence.
Qed.

Lemma js_get_In (k : string) (o : dict V) :
  js_in k o = true <-> exists v, js_get k o = Some v.
Proof.
  unfold js_in. induction o as [|[k' v'] o IH]; simpl.
  - split; [discriminate|intros [v H]; discriminate].
  - destruct (k' =? k); simpl; [|assumption]. split; [now exists v'|reflexivity].
Qed.

Lemma fold_js_set_get (entries : list (string * V)) (o : dict V) (k : string) :
  js_get k (fold_left (fun o e => js_set (fst e) (snd e) o) entries o)
  = match js_get k (rev entries) with
    | Some v => Some v
    | None => js_get k o
    end.
Proof.
  revert o. induction entries as [|[k' v'] entries IH]; intros o; simpl; [reflexivity|].
  rewrite IH. clear IH.
  assert (Happ : forall l : dict V,
            js_get k (l ++ [(k', v')])
            = match js_get k l with
              | Some v => Some v
              | None => if k' =? k then Some v' else None
              end).
  { induction l as [|[k0 v0] l IHl]; simpl; [reflexivity|].
    destruct (k0 =? k); [reflexivity|assumption]. }
  rewrite Happ. destruct (js_get k (rev entries)); [reflexivity|].
  destruct (k' =? k) eqn:E.
  - apply String.eqb_eq in E. subst k'. apply js_get_set_same.
  - apply js_get_set_other. now apply String.eqb_neq.
Qed.

Lemma fold_js_set_NoDup (entries : list (string * V)) (o : dict V) :
  NoDup (map fst o) ->
  NoDup (map fst (fold_left (fun o e => js_set (fst e) (snd e) o) entries o)).
Proof.
  revert o. induction entries as [|e entries IH]; intros o H; simpl; [assumption|].
  apply IH. now apply js_set_NoDup.
Qed.

End ObjectFacts.

(* ================================================================= *)
(** ** Computations that return or throw *)

Lemma attempt_bind_inr {A B : Type} (m : attempt A) (f : A -> attempt B) (b : B) :
  attempt_bind m f = inr b <-> exists a, m = inr a /\ f a = inr b.
Proof.
  destruct m as [e|a]; simpl.
  - split; [discriminate|intros [a [H _]]; discriminate].
  - split; [intros H; now exists a|intros [a' [H1 H2]]; now injection H1 as ->].
Qed.

Lemma mapM_Forall2 {A B : Type} (f : A -> attempt B) (l : list A) (l' : list B) :
  mapM f l = inr l' <-> Forall2 (fun x y => f x = inr y) l l'.
Proof.
  revert l'. induction l as [|x l IH]; intros l'; simpl.
  - split.
    + intros H. injection H as <-. constructor.
    + intros H. inversion H. reflexivity.
  - split.
    + intros H. apply attempt_bind_inr in H. destruct H as [y [Hy H]].
      apply attempt_bind_inr in H. destruct H as [ys [Hys H]].
      injection H as <-. constructor; [assumption|now apply IH].
    + intros H. inversion H as [|x0 y l0 ys Hy Hys]; subst.
      rewrite Hy. simpl. apply IH in Hys. rewrite Hys. reflexivity.
Qed.

Lemma filterM_filter {A : Type} (f : A -> attempt bool) (l l' : list A) :
  filterM f l = inr l' ->
  exists g : A -> bool,
    l' = filter g l /\ Forall (fun x => f x = inr (g x)) l.
Proof.
  revert l'. induction l as [|x l IH]; intros l'; simpl.
  - intros H. injection H as <-. exists (fun _ => true). split; [reflexivity|constructor].
  - intros H. apply attempt_bind_inr in H. destruct H as [b [Hb H]].
    apply attempt_bind_inr in H. destruct H as [ys [Hys H]].
    injection H as <-. destruct (IH _ Hys) as [g [-> Hg]].
    exists (fun y => match f y with inr c => c | inl _ => false end). split.
    + simpl. rewrite Hb.
      assert (Hf : filter g l
                   = filter (fun y => match f y with inr c => c | inl _ => false end) l).
      { apply filter_ext_in. intros y Hy. rewrite Forall_forall in Hg.
        now rewrite (Hg y Hy). }
      now rewrite Hf.
    + constructor; [now rewrite Hb|].
      rewrite Forall_forall in *. intros y Hy. now rewrite (Hg y Hy).
Qed.

(* ================================================================= *)
(** ** Backend A: the items [#search] builds *)

Lemma last_cons_default {A : Type} (x d d' : A) (l : list A) :
  last (x :: l) d = last (x :: l) d'.
Proof.
  revert x. induction l as [|y l IH]; intros x; [reflexivity|].
  change (last (y :: l) d = last (y :: l) d'). apply IH.
Qed.

Lemma artists_and_album_fold (navigable : list value) (acc : list value * value)
    (artists : list value) (album : value) :
  foldM (fun acc item =>
           id <- get item "id" ;;
           id <- as_text id ;;
           inr (if String.prefix "UC" id
                then (fst acc ++ [item], snd acc)
                else (fst acc, item)))
        navigable acc
  = inr (artists, album) ->
  artists = fst acc ++ filter is_channel navigable
  /\ album = last (filter (fun item => negb (is_channel item)) navigable) (snd acc).
Proof.
  revert acc. induction navigable as [|item navigable IH]; intros acc; simpl.
  - intros H. injection H as ->. simpl. now rewrite app_nil_r.
  - intros H. apply attempt_bind_inr in H. destruct H as [acc' [Hacc H]].
    apply attempt_bind_inr in Hacc. destruct Hacc as [v [Hv Hacc]].
    apply attempt_bind_inr in Hacc. destruct Hacc as [id [Hid Hacc]].
    destruct v; try discriminate Hid. injection Hid as ->.
    assert (Hc : is_channel item = String.prefix "UC" id).
    { destruct item; try discriminate Hv. simpl in *.
      destruct (js_get "id" props) as [x|]; [|discriminate Hv].
      injection Hv as ->. reflexivity. }
    injection Hacc as <-. apply IH in H. destruct H as [-> ->]. rewrite Hc.
    destruct (String.prefix "UC" id); simpl.
    + split; [now rewrite <- app_assoc|reflexivity].
    + split; [reflexivity|].
      destruct (filter (fun item0 => negb (is_channel item0)) navigable) eqn:E;
        [reflexivity|].
      apply last_cons_default.
Qed.

(** X9.  The navigable runs whose id is channel-like are the artists, in the
    order of the row; of the other navigable runs only the last is kept,
    as the album, and [null] stands for none (lines 214-221). *)
Theorem artists_and_album_partition (navigable artists : list value) (album : value) :
  artists_and_album navigable = inr (artists, album) ->
  artists = filter is_channel navigable
  /\ album = last (filter (fun item => negb (is_channel item)) navigable) VNull.
Proof. intros H. now apply artists_and_album_fold in H. Qed.

Ltac bind_inv H :=
  repeat (apply attempt_bind_inr in H;
          let x := fresh "x" in
          let E := fresh "E" in
          destruct H as [x [E H]]).

Ltac bind_step H x E :=
  apply attempt_bind_inr in H; destruct H as [x [E H]].

Ltac run_item H :=
  unfold build_item in H;
  cbn -[walk getItemRuns getItemText artists_and_album last_text first_text
        item_runs item_navigable filterM mapM slice_last first_word
        NAVIGATION_BROWSE_ID PLAY_BUTTON attempt_bind value_truthy] in H.

(** The item of each type, in closed form. *)
Lemma build_item_song (content : value) (item : dict value) :
  build_item "song" content = inr item ->
  exists runs navigable title both duration,
    item_runs content = inr runs
    /\ item_navigable runs = inr navigable
    /\ getItemText content 0 0 = inr title
    /\ artists_and_album navigable = inr both
    /\ last_text runs = inr duration
    /\ item = [("type", VStr "song"); ("title", title); ("artists", VArr (fst both));
               ("album", snd both);
               ("videoId",
                walk content
                  (PLAY_BUTTON ++ [Key "playNavigationEndpoint"; Key "watchEndpoint";
                                   Key "videoId"]));
               ("duration", duration)].
Proof.
  intros H. run_item H. bind_inv H.
  apply attempt_bind_inr in E1. destruct E1 as [title [Ht E1]]. injection E1 as <-.
  apply attempt_bind_inr in E2. destruct E2 as [both [Hb E2]]. injection E2 as <-.
  injection H as <-.
  exists x, x0, title, both, x3. repeat split; assumption.
Qed.

Lemma build_item_video (content : value) (item : dict value) :
  build_item "video" content = inr item ->
  exists runs navigable title both texts views,
    item_runs content = inr runs
    /\ item_navigable runs = inr navigable
    /\ getItemText content 0 0 = inr title
    /\ artists_and_album navigable = inr both
    /\ mapM (fun item => get item "text") (slice_last 2 runs) = inr texts
    /\ nth 0 texts VUndefined = VStr views
    /\ item = [("type", VStr "video"); ("title", title); ("artists", VArr (fst both));
               ("videoId",
                walk content
                  (PLAY_BUTTON ++ [Key "playNavigationEndpoint"; Key "watchEndpoint";
                                   Key "videoId"]));
               ("views", VStr (first_word views));
               ("duration", nth 1 texts VUndefined)].
Proof.
  intros H. run_item H. bind_inv H.
  apply attempt_bind_inr in E1. destruct E1 as [title [Ht E1]]. injection E1 as <-.
  apply attempt_bind_inr in E2. destruct E2 as [both [Hb E2]]. injection E2 as <-.
  injection H as <-.
  destruct (nth 0 x3 VUndefined) eqn:Ev; try discriminate E4. injection E4 as <-.
  exists x, x0, title, both, x3, s. repeat split; assumption.
Qed.

Lemma build_item_album (content : value) (item : dict value) :
  build_item "album" content = inr item ->
  item = []
  /\ value_truthy (walk content NAVIGATION_BROWSE_ID) = false
  \/ exists runs navigable title both text year,
       item_runs content = inr runs
       /\ item_navigable runs = inr navigable
       /\ getItemText content 0 0 = inr title
       /\ artists_and_album navigable = inr both
       /\ first_text runs = inr (VStr text)
       /\ last_text runs = inr year
       /\ value_truthy (walk content NAVIGATION_BROWSE_ID) = true
       /\ item = [("type", VStr (toLowerCase text)); ("title", title);
                  ("artists", VArr (fst both));
                  ("browseId", walk content NAVIGATION_BROWSE_ID);
                  ("year", year)].
Proof.
  intros H. run_item H. bind_inv H.
  apply attempt_bind_inr in E1. destruct E1 as [title [Ht E1]]. injection E1 as <-.
  apply attempt_bind_inr in E2. destruct E2 as [both [Hb E2]]. injection E2 as <-.
  destruct (value_truthy (walk content NAVIGATION_BROWSE_ID)) eqn:Eb;
    cbn -[walk NAVIGATION_BROWSE_ID] in H.
  - right. bind_inv H. injection H as <-.
    destruct x1; try discriminate E2. injection E2 as <-.
    exists x, x0, x3, both, s, x4. repeat split; assumption.
  - left. injection H as <-. now split.
Qed.

Lemma build_item_artist (content : value) (item : dict value) :
  build_item "artist" content = inr item ->
  item = []
  /\ value_truthy (walk content NAVIGATION_BROWSE_ID) = false
  \/ exists runs artist text,
       item_runs content = inr runs
       /\ getItemText content 0 0 = inr artist
       /\ last_text runs = inr (VStr text)
       /\ value_truthy (walk content NAVIGATION_BROWSE_ID) = true
       /\ item = [("type", VStr "artist");
                  ("browseId", walk content NAVIGATION_BROWSE_ID);
                  ("artist", artist);
                  ("subscribers", VStr (first_word text))].
Proof.
  intros H. run_item H. bind_inv H. injection E1 as <-. injection E2 as <-.
  destruct (value_truthy (walk content NAVIGATION_BROWSE_ID)) eqn:Eb;
    cbn -[walk NAVIGATION_BROWSE_ID] in H.
  - right. bind_inv H. injection H as <-.
    destruct x2; try discriminate E3. injection E3 as <-.
    exists x, x1, s. repeat split; assumption.
  - left. injection H as <-. now split.
Qed.

Lemma build_item_playlist (content : value) (item : dict value) :
  build_item "playlist" content = inr item ->
  item = []
  /\ value_truthy (walk content NAVIGATION_BROWSE_ID) = false
  \/ exists runs navigable title both text,
       item_runs content = inr runs
       /\ item_navigable runs = inr navigable
       /\ getItemText content 0 0 = inr title
       /\ artists_and_album navigable = inr both
       /\ last_text runs = inr (VStr text)
       /\ value_truthy (walk content NAVIGATION_BROWSE_ID) = true
       /\ item = [("type", VStr "playlist"); ("title", title);
                  ("browseId", walk content NAVIGATION_BROWSE_ID);
                  ("author", VArr (fst both));
                  ("itemCount", VNum (parseInt10 (first_word text)))].
Proof.
  intros H. run_item H. bind_inv H.
  apply attempt_bind_inr in E1. destruct E1 as [title [Ht E1]]. injection E1 as <-.
  apply attempt_bind_inr in E2. destruct E2 as [both [Hb E2]]. injection E2 as <-.
  destruct (value_truthy (walk content NAVIGATION_BROWSE_ID)) eqn:Eb;
    cbn -[walk NAVIGATION_BROWSE_ID] in H.
  - right. bind_inv H. injection H as <-.
    destruct x1; try discriminate E2. injection E2 as <-.
    exists x, x0, title, both, s. repeat split; assumption.
  - left. injection H as <-. now split.
Qed.

Lemma build_item_other (type : string) (content : value) (item : dict value) :
  includes ["song"; "video"; "album"; "artist"; "playlist"] type = false ->
  build_item type content = inr item ->
  item = [].
Proof.
  intros Hn H. unfold includes in Hn. cbn [existsb] in Hn.
  repeat (apply orb_false_iff in Hn; destruct Hn as [? Hn]).
  unfold build_item, includes in H. cbn [existsb] in H.
  repeat match goal with E : (type =? _) = false |- _ => rewrite E in H; clear E end.
  cbn [orb andb] in H. bind_inv H. injection E1 as <-. injection E2 as <-.
  now injection H as <-.
Qed.

Lemma item_navigable_shape (runs navigable : list value) :
  item_navigable runs = inr navigable ->
  Forall (fun item => exists name id, item = VObj [("name", name); ("id", id)]) navigable.
Proof.
  unfold item_navigable. intros H. bind_inv H. apply mapM_Forall2 in H.
  clear E. induction H as [|run item runs' navigable' Hrun _ IH]; constructor; [|exact IH].
  apply attempt_bind_inr in Hrun. destruct Hrun as [text [_ Hrun]].
  injection Hrun as <-. now eexists _, _.
Qed.

Lemma artists_and_album_ids (navigable : list value) (both : list value * value) :
  artists_and_album navigable = inr both ->
  Forall (fun item => forall name id, item = VObj [("name", name); ("id", id)] ->
                                      exists s, id = VStr s)
         navigable.
Proof.
  unfold artists_and_album. generalize (@nil value, VNull). revert both.
  induction navigable as [|item navigable IH]; intros both acc H; constructor.
  - simpl in H. apply attempt_bind_inr in H. destruct H as [acc' [Hacc _]].
    apply attempt_bind_inr in Hacc. destruct Hacc as [v [Hv Hacc]].
    apply attempt_bind_inr in Hacc. destruct Hacc as [s [Hs _]].
    intros name id ->. simpl in Hv. injection Hv as <-.
    destruct id; try discriminate Hs. now eexists.
  - simpl in H. apply attempt_bind_inr in H. destruct H as [acc' [_ H]].
    now apply IH in H.
Qed.

(** X10.  In the shelf "Songs" every item is a song with the same six keys.
    The key [videoId] is there whatever the play button carries (line 225
    stores what [walk] answers, [undefined] included); the artists are
    [{name, id}] with a channel-like id; the album is [null] or a
    [{name, id}] whose id is not channel-like. *)
Theorem Songs_items_are_songs (content : value) (item : dict value) :
  parse_content (VStr "Songs") content = inr item ->
  exists title artists album videoId duration,
    item = [("type", VStr "song"); ("title", title); ("artists", VArr artists);
            ("album", album); ("videoId", videoId); ("duration", duration)]
    /\ Forall (fun artist =>
                 exists name id,
                   artist = VObj [("name", name); ("id", VStr id)]
                   /\ String.prefix "UC" id = true)
              artists
    /\ (album = VNull
        \/ exists name id,
             album = VObj [("name", name); ("id", VStr id)]
             /\ String.prefix "UC" id = false).
Proof.
  unfold parse_content. intros H. bind_step H inner E. bind_step H ty E0.
  unfold content_type in E0. cbn in E0. injection E0 as <-.
  apply build_item_song in H.
  destruct H as [runs [navigable [title [[artists album] [duration
                   [Hruns [Hnav [Htitle [Hboth [Hdur ->]]]]]]]]]].
  eexists title, artists, album, _, duration. split; [reflexivity|].
  pose proof (item_navigable_shape _ _ Hnav) as Hshape.
  pose proof (artists_and_album_ids _ _ Hboth) as Hids.
  apply artists_and_album_fold in Hboth. cbn [fst snd app] in Hboth.
  destruct Hboth as [-> ->].
  assert (Hall : forall item, In item navigable ->
            exists name id, item = VObj [("name", name); ("id", VStr id)]
                            /\ is_channel item = String.prefix "UC" id).
  { intros it Hin. rewrite Forall_forall in Hshape, Hids.
    destruct (Hshape it Hin) as [name [id ->]].
    destruct (Hids _ Hin name id eq_refl) as [s ->]. now exists name, s. }
  split.
  - apply Forall_forall. intros a Ha. apply filter_In in Ha. destruct Ha as [Hin Hc].
    destruct (Hall a Hin) as [name [id [-> Hp]]]. exists name, id. split; [reflexivity|].
    now rewrite <- Hp.
  - destruct (filter (fun it => negb (is_channel it)) navigable) as [|y ys] eqn:Ef;
      [now left|right].
    assert (Hin : In (last (y :: ys) VNull) (y :: ys)).
    { clear. revert y. induction ys as [|z ys IH]; intros y; [now left|].
      right. apply IH. }
    rewrite <- Ef in Hin at 2. apply filter_In in Hin. destruct Hin as [Hin Hc].
    destruct (Hall _ Hin) as [name [id [Heq Hp]]]. exists name, id.
    split; [exact Heq|]. rewrite <- Hp. now destruct (is_channel (last (y :: ys) VNull)).
Qed.

(** X11.  The keys of an item are decided by its type: a song has [album] and
    [videoId], a video [videoId] and [views] but no [album], an album, an
    artist and a playlist a [browseId]; an item of one of the last three
    types with no browse id, and an item of any other type, is the empty
    object. *)
Theorem item_keys_by_type (layerName content : value) (item : dict value) :
  parse_content layerName content = inr item ->
  exists inner type,
    get content "musicResponsiveListItemRenderer" = inr inner
    /\ content_type layerName inner = inr type
    /\ (map fst item = item_keys type
        \/ item = []
           /\ includes ["artist"; "album"; "playlist"] type = true
           /\ value_truthy (walk inner NAVIGATION_BROWSE_ID) = false).
Proof.
  unfold parse_content. intros H. bind_step H inner E. bind_step H ty E0.
  exists inner, ty. split; [assumption|]. split; [assumption|].
  destruct (ty =? "song") eqn:E1.
  { apply String.eqb_eq in E1. subst ty. apply build_item_song in H.
    destruct H as [? [? [? [? [? [_ [_ [_ [_ [_ ->]]]]]]]]]]. now left. }
  destruct (ty =? "video") eqn:E2.
  { apply String.eqb_eq in E2. subst ty. apply build_item_video in H.
    destruct H as [? [? [? [? [? [? [_ [_ [_ [_ [_ [_ ->]]]]]]]]]]]]. now left. }
  destruct (ty =? "album") eqn:E3.
  { apply String.eqb_eq in E3. subst ty. apply build_item_album in H.
    destruct H as [[-> Hb]|[? [? [? [? [? [? [_ [_ [_ [_ [_ [_ [_ ->]]]]]]]]]]]]]];
      [right|left]; now repeat split. }
  destruct (ty =? "artist") eqn:E4.
  { apply String.eqb_eq in E4. subst ty. apply build_item_artist in H.
    destruct H as [[-> Hb]|[? [? [? [_ [_ [_ [_ ->]]]]]]]];
      [right|left]; now repeat split. }
  destruct (ty =? "playlist") eqn:E5.
  { apply String.eqb_eq in E5. subst ty. apply build_item_playlist in H.
    destruct H as [[-> Hb]|[? [? [? [? [? [_ [_ [_ [_ [_ [_ ->]]]]]]]]]]]];
      [right|left]; now repeat split. }
  left. apply build_item_other in H.
  - subst item. unfold item_keys. now rewrite E1, E2, E3, E4, E5.
  - unfold includes. cbn [existsb]. now rewrite E1, E2, E3, E4, E5.
Qed.

Lemma first_word_no_space (text : string) : occurs space (first_word text) = false.
Proof.
  unfold first_word. induction text as [|c text IH]; [reflexivity|].
  simpl. destruct (Ascii.eqb c space) eqn:E; [reflexivity|].
  destruct (split space text) as [|w ws]; simpl in *; now rewrite E.
Qed.

(** X12.  An item of type video has no key [album] (line 237 deletes it), and
    its [views] is a text without a space: the first word of the run
    before the last. *)
Theorem video_items_have_views_and_no_album (layerName content inner : value)
    (item : dict value) :
  get content "musicResponsiveListItemRenderer" = inr inner ->
  content_type layerName inner = inr "video" ->
  parse_content layerName content = inr item ->
  js_in "album" item = false
  /\ exists runs texts text,
       item_runs inner = inr runs
       /\ mapM (fun run => get run "text") (slice_last 2 runs) = inr texts
       /\ nth 0 texts VUndefined = VStr text
       /\ js_get "views" item = Some (VStr (first_word text))
       /\ occurs space (first_word text) = false
       /\ js_get "duration" item = Some (nth 1 texts VUndefined).
Proof.
  intros Hinner Htype H. unfold parse_content in H. rewrite Hinner in H. cbn in H.
  rewrite Htype in H. cbn in H. apply build_item_video in H.
  destruct H as [runs [navigable [title [both [texts [views
                   [Hruns [_ [_ [_ [Htexts [Hviews ->]]]]]]]]]]]].
  split; [reflexivity|]. exists runs, texts, views.
  repeat split; try assumption. apply first_word_no_space.
Qed.

(* ================================================================= *)
(** ** Backend A: the sections [#search] answers *)

Lemma append_cancel_r (s1 s2 t : string) : (s1 ++ t = s2 ++ t)%string -> s1 = s2.
Proof.
  assert (Hlen : forall a b : string,
            String.length (a ++ b) = (String.length a + String.length b)%nat).
  { induction a as [|c a IH]; intros b; simpl; [reflexivity|]. now rewrite IH. }
  revert s2. induction s1 as [|c1 s1 IH]; intros [|c2 s2] H; simpl in H.
  - reflexivity.
  - apply (f_equal String.length) in H. simpl in H. rewrite Hlen in H. lia.
  - apply (f_equal String.length) in H. simpl in H. rewrite Hlen in H. lia.
  - injection H as -> H. f_equal. now apply IH.
Qed.

(** X13.  Two layers whose titles are different texts are stored under
    different keys: the six known titles have a key each, any other title
    is kept inside its key "other(...)", and the empty title alone gives
    "other".  So [Object.fromEntries] merges no two sections of different
    titles. *)
Theorem sectionKey_injective (title1 title2 : string) :
  sectionKey (VStr title1) = sectionKey (VStr title2) -> title1 = title2.
Proof.
  unfold sectionKey, is_text, template, value_truthy.
  destruct (title1 =? "Top result") eqn:A1; [apply String.eqb_eq in A1|];
  [|destruct (title1 =? "Songs") eqn:A2; [apply String.eqb_eq in A2|];
  [|destruct (title1 =? "Videos") eqn:A3; [apply String.eqb_eq in A3|];
  [|destruct (title1 =? "Albums") eqn:A4; [apply String.eqb_eq in A4|];
  [|destruct (title1 =? "Artists") eqn:A5; [apply String.eqb_eq in A5|];
  [|destruct (title1 =? "Playlists") eqn:A6; [apply String.eqb_eq in A6|]]]]]];
  (destruct (title2 =? "Top result") eqn:B1; [apply String.eqb_eq in B1|];
  [|destruct (title2 =? "Songs") eqn:B2; [apply String.eqb_eq in B2|];
  [|destruct (title2 =? "Videos") eqn:B3; [apply String.eqb_eq in B3|];
  [|destruct (title2 =? "Albums") eqn:B4; [apply String.eqb_eq in B4|];
  [|destruct (title2 =? "Artists") eqn:B5; [apply String.eqb_eq in B5|];
  [|destruct (title2 =? "Playlists") eqn:B6; [apply String.eqb_eq in B6|]]]]]]);
  try congruence; try discriminate;
  try (destruct (title1 =? ""); discriminate);
  try (destruct (title2 =? ""); discriminate).
  destruct (title1 =? "") eqn:C1, (title2 =? "") eqn:C2; simpl; intros H.
  - apply String.eqb_eq in C1, C2. congruence.
  - destruct title2; discriminate.
  - destruct title1; discriminate.
  - injection H as H. now apply append_cancel_r in H.
Qed.

Lemma parse_layer_key (layer : value) (key : string) (section : shelfSection) :
  parse_layer layer = inr (key, section) -> key = sectionKey (walk layer TITLE_TEXT).
Proof.
  unfold parse_layer. cbv zeta. intros H.
  bind_step H found E1. bind_step H elements E2. bind_step H items E3.
  destruct (is_text (walk layer TITLE_TEXT) "Top result").
  - now injection H as <- _.
  - bind_step H continuations E4. bind_step H bottomEndpoint E5.
    now injection H as <- _.
Qed.

(** X14.  A layer's section has one item for each element of [layer.contents],
    in the same order: an element [#search] has no use for leaves the
    empty object in its place.  The section of "Top result" has neither
    [loadMore] nor [expand]; any other section has both keys, each a
    function exactly when the layer has continuations, or a bottom
    endpoint. *)
Theorem parse_layer_keeps_every_item (layer : value) (key : string) (section : shelfSection) :
  parse_layer layer = inr (key, section) ->
  exists contents found,
    get layer "contents" = inr found
    /\ as_array (value_or found (VArr [])) = inr contents
    /\ key = sectionKey (walk layer TITLE_TEXT)
    /\ Forall2 (fun content item => parse_content (walk layer TITLE_TEXT) content = inr item)
         contents (shelf_contents section)
    /\ List.length (shelf_contents section) = List.length contents
    /\ (if is_text (walk layer TITLE_TEXT) "Top result"
        then shelf_loadMore section = None /\ shelf_expand section = None
        else exists continuations bottomEndpoint,
               get layer "continuations" = inr continuations
               /\ get layer "bottomEndpoint" = inr bottomEndpoint
               /\ shelf_loadMore section
                  = Some (if value_truthy continuations then Some layer else None)
               /\ shelf_expand section
                  = Some (if value_truthy bottomEndpoint then Some layer else None)).
Proof.
  unfold parse_layer. cbv zeta. intros H.
  bind_step H found E1. bind_step H elements E2. bind_step H items E3.
  exists elements, found. split; [assumption|]. split; [assumption|].
  apply mapM_Forall2 in E3.
  destruct (is_text (walk layer TITLE_TEXT) "Top result").
  - injection H as <- <-. simpl. repeat split; try assumption.
    symmetry. eapply Forall2_length. eassumption.
  - bind_step H continuations E4. bind_step H bottomEndpoint E5.
    injection H as <- <-. simpl. repeat split; try assumption.
    + symmetry. eapply Forall2_length. eassumption.
    + now exists continuations, bottomEndpoint.
Qed.

(** X15.  The object [#search] answers holds one section under each key; when
    several layers of a response have the same key, the section is that
    of the last of them (line 168: [Object.fromEntries]). *)
Theorem sections_last_layer_wins (response : value) (sections : dict shelfSection) :
  parse_response response = inr sections ->
  exists shelf entries,
    shelf_of response = inr shelf
    /\ Forall2 (fun layer entry => parse_layer layer = inr entry) shelf entries
    /\ NoDup (map fst sections)
    /\ (forall key, js_get key sections = js_get key (rev entries))
    /\ (forall key, js_in key sections = true <-> In key (map fst entries)).
Proof.
  unfold parse_response. intros H. bind_step H shelf E1. bind_step H entries E2.
  injection H as <-. exists shelf, entries. split; [assumption|].
  split; [now apply mapM_Forall2|]. unfold Object_fromEntries.
  split; [apply fold_js_set_NoDup; constructor|].
  assert (Hget : forall key,
            js_get key (fold_left (fun o e => js_set (fst e) (snd e) o) entries [])
            = js_get key (rev entries)).
  { intros key. rewrite fold_js_set_get. now destruct (js_get key (rev entries)). }
  split; [exact Hget|].
  intros key. rewrite js_get_In. setoid_rewrite Hget. rewrite <- js_get_In, js_in_In.
  rewrite map_rev. symmetry. apply in_rev.
Qed.

(** X16.  The answer to a continuation (a response with the key
    [continuationContents]) has one section only.  It is the section
    "other", the one [loadMore] reads, exactly when the title of the
    continued shelf is missing or empty. *)
Theorem continuation_has_one_section (response : value) (sections : dict shelfSection) :
  has_key "continuationContents" response = inr true ->
  parse_response response = inr sections ->
  exists layer section,
    layer = value_or
              (walk response [Key "continuationContents"; Key "musicShelfContinuation"])
              (walk response [Key "continuationContents"; Key "sectionListContinuation"])
    /\ parse_layer layer = inr (sectionKey (walk layer TITLE_TEXT), section)
    /\ sections = [(sectionKey (walk layer TITLE_TEXT), section)]
    /\ (value_truthy (walk layer TITLE_TEXT) = false ->
        js_get "other" sections = Some section)
    /\ (value_truthy (walk layer TITLE_TEXT) = true ->
        js_get "other" sections = None).
Proof.
  intros Hc H. unfold parse_response, shelf_of in H. rewrite Hc in H.
  cbn -[walk parse_layer] in H.
  bind_step H entries E0. bind_step E0 entry E. injection E0 as <-. injection H as <-.
  destruct entry as [key section].
  pose proof (parse_layer_key _ _ _ E) as Hkey. subst key.
  eexists _, section. split; [reflexivity|]. split; [exact E|].
  split; [reflexivity|].
  set (name := walk _ TITLE_TEXT). clearbody name. clear. unfold sectionKey.
  split; intros Ht.
  - assert (Hn : forall s, is_text name s = true -> s = "").
    { intros s Hs. destruct name; try discriminate Hs. simpl in *.
      apply String.eqb_eq in Hs. subst s0. now destruct (s =? "") eqn:E0;
        [apply String.eqb_eq in E0|discriminate]. }
    destruct (is_text name "Top result") eqn:E1; [now apply Hn in E1|].
    destruct (is_text name "Songs") eqn:E2; [now apply Hn in E2|].
    destruct (is_text name "Videos") eqn:E3; [now apply Hn in E3|].
    destruct (is_text name "Albums") eqn:E4; [now apply Hn in E4|].
    destruct (is_text name "Artists") eqn:E5; [now apply Hn in E5|].
    destruct (is_text name "Playlists") eqn:E6; [now apply Hn in E6|].
    rewrite Ht. reflexivity.
  - rewrite Ht.
    destruct (is_text name "Top result"); [reflexivity|].
    destruct (is_text name "Songs"); [reflexivity|].
    destruct (is_text name "Videos"); [reflexivity|].
    destruct (is_text name "Albums"); [reflexivity|].
    destruct (is_text name "Artists"); [reflexivity|].
    destruct (is_text name "Playlists"); reflexivity.
Qed.

(* ================================================================= *)
(** ** Backend A: what reading a response can throw *)

Create HintDb type_errors.

Lemma only_TypeError_inr {A : Type} (a : A) : throws_only_TypeError (inr a : attempt A).
Proof. intros e H. discriminate H. Qed.

Lemma only_TypeError_bind {A B : Type} (m : attempt A) (f : A -> attempt B) :
  throws_only_TypeError m -> (forall a, throws_only_TypeError (f a)) ->
  throws_only_TypeError (attempt_bind m f).
Proof.
  intros Hm Hf e H. destruct m as [e'|a]; simpl in H.
  - injection H as <-. now apply Hm.
  - now apply (Hf a).
Qed.

Lemma only_TypeError_mapM {A B : Type} (f : A -> attempt B) (l : list A) :
  (forall a, throws_only_TypeError (f a)) -> throws_only_TypeError (mapM f l).
Proof.
  intros Hf. induction l as [|x l IH]; simpl; [apply only_TypeError_inr|].
  apply only_TypeError_bind; [apply Hf|]. intros y.
  apply only_TypeError_bind; [apply IH|]. intros ys. apply only_TypeError_inr.
Qed.

Lemma only_TypeError_filterM {A : Type} (f : A -> attempt bool) (l : list A) :
  (forall a, throws_only_TypeError (f a)) -> throws_only_TypeError (filterM f l).
Proof.
  intros Hf. induction l as [|x l IH]; simpl; [apply only_TypeError_inr|].
  apply only_TypeError_bind; [apply Hf|]. intros y.
  apply only_TypeError_bind; [apply IH|]. intros ys. apply only_TypeError_inr.
Qed.

Lemma only_TypeError_foldM {A B : Type} (f : B -> A -> attempt B) (l : list A) (acc : B) :
  (forall b a, throws_only_TypeError (f b a)) -> throws_only_TypeError (foldM f l acc).
Proof.
  intros Hf. revert acc. induction l as [|x l IH]; intros acc; simpl;
    [apply only_TypeError_inr|].
  apply only_TypeError_bind; [apply Hf|]. intros acc'. apply IH.
Qed.

Lemma only_TypeError_get (v : value) (k : string) : throws_only_TypeError (get v k).
Proof. intros e H. destruct v; simpl in H; congruence. Qed.

Lemma only_TypeError_elem (v : value) (i : nat) : throws_only_TypeError (elem v i).
Proof. intros e H. destruct v; simpl in H; congruence. Qed.

Lemma only_TypeError_has_key (k : string) (v : value) : throws_only_TypeError (has_key k v).
Proof. intros e H. destruct v; simpl in H; congruence. Qed.

Lemma only_TypeError_as_array (v : value) : throws_only_TypeError (as_array v).
Proof. intros e H. destruct v; simpl in H; congruence. Qed.

Lemma only_TypeError_as_text (v : value) : throws_only_TypeError (as_text v).
Proof. intros e H. destruct v; simpl in H; congruence. Qed.

#[local] Hint Resolve only_TypeError_inr only_TypeError_get only_TypeError_elem
  only_TypeError_has_key only_TypeError_as_array only_TypeError_as_text : type_errors.

Ltac only_TypeError :=
  cbv zeta;
  lazymatch goal with
  | |- throws_only_TypeError (attempt_bind _ _) =>
      apply only_TypeError_bind; [only_TypeError | intros; only_TypeError]
  | |- throws_only_TypeError (mapM _ _) =>
      apply only_TypeError_mapM; intros; only_TypeError
  | |- throws_only_TypeError (filterM _ _) =>
      apply only_TypeError_filterM; intros; only_TypeError
  | |- throws_only_TypeError (foldM _ _ _) =>
      apply only_TypeError_foldM; intros; only_TypeError
  | |- throws_only_TypeError (if ?b then _ else _) =>
      destruct b; only_TypeError
  | |- _ => auto with type_errors
  end.

Lemma only_TypeError_getItemText (item : value) (index run_index : nat) :
  throws_only_TypeError (getItemText item index run_index).
Proof. unfold getItemText. only_TypeError. Qed.

Lemma only_TypeError_item_runs (content : value) : throws_only_TypeError (item_runs content).
Proof. unfold item_runs. only_TypeError. Qed.

Lemma only_TypeError_item_navigable (runs : list value) :
  throws_only_TypeError (item_navigable runs).
Proof. unfold item_navigable. only_TypeError. Qed.

Lemma only_TypeError_artists_and_album (navigable : list value) :
  throws_only_TypeError (artists_and_album navigable).
Proof. unfold artists_and_album. only_TypeError. Qed.

Lemma only_TypeError_last_text (runs : list value) : throws_only_TypeError (last_text runs).
Proof. unfold last_text. only_TypeError. Qed.

Lemma only_TypeError_first_text (runs : list value) : throws_only_TypeError (first_text runs).
Proof. unfold first_text. only_TypeError. Qed.

#[local] Hint Resolve only_TypeError_getItemText only_TypeError_item_runs
  only_TypeError_item_navigable only_TypeError_artists_and_album
  only_TypeError_last_text only_TypeError_first_text : type_errors.

Lemma only_TypeError_content_type (layerName content : value) :
  throws_only_TypeError (content_type layerName content).
Proof. unfold content_type. only_TypeError. Qed.

Lemma only_TypeError_build_item (type : string) (content : value) :
  throws_only_TypeError (build_item type content).
Proof. unfold build_item. only_TypeError. Qed.

#[local] Hint Resolve only_TypeError_content_type only_TypeError_build_item : type_errors.

Lemma only_TypeError_parse_content (layerName content : value) :
  throws_only_TypeError (parse_content layerName content).
Proof. unfold parse_content. only_TypeError. Qed.

#[local] Hint Resolve only_TypeError_parse_content : type_errors.

Lemma only_TypeError_parse_layer (layer : value) : throws_only_TypeError (parse_layer layer).
Proof. unfold parse_layer. only_TypeError. Qed.

Lemma only_TypeError_shelf_of (response : value) : throws_only_TypeError (shelf_of response).
Proof. unfold shelf_of. only_TypeError. Qed.

#[local] Hint Resolve only_TypeError_parse_layer only_TypeError_shelf_of : type_errors.

Lemma only_TypeError_parse_response (response : value) :
  throws_only_TypeError (parse_response response).
Proof. unfold parse_response. only_TypeError. Qed.

(* ================================================================= *)
(** ** Backend A: the requests of [#deriveConfig] and [#search] *)

Lemma request_sends_one (got : transport) (opts : gotOptions) (w : world) :
  exists r,
    request got opts w = ({| apiConfig := apiConfig w; sent := sent w ++ [opts] |}, r)
    /\ forall e, r = inl e -> exists error, e = Thrown (SearchError error).
Proof.
  unfold request. destruct (got (List.length (sent w)) opts) as [err|response].
  - eexists. split; [reflexivity|]. intros e H. injection H as <-. now eexists.
  - destruct (res_url response =? "https://music.youtube.com/coming-soon/").
    + eexists. split; [reflexivity|]. intros e H. injection H as <-. now eexists.
    + eexists. split; [reflexivity|]. intros e H. discriminate H.
Qed.

(** What [#deriveConfig] does: it answers the cached configuration and
    sends nothing, or it sends the one request of line 108 and then
    either stores and answers the configuration it extracted, or throws
    and leaves the cache as it was. *)
Lemma deriveConfig_cases (got : transport) (force : bool) (w : world) :
  value_truthy (apiConfig w) && negb force = true
  /\ deriveConfig got force w = (w, inr (apiConfig w))
  \/ value_truthy (apiConfig w) && negb force = false
     /\ ((exists config,
            deriveConfig got force w
            = ({| apiConfig := VObj config; sent := sent w ++ [config_request] |},
               inr (VObj config)))
         \/ exists e,
              deriveConfig got force w
              = ({| apiConfig := apiConfig w; sent := sent w ++ [config_request] |}, inl e)
              /\ forall message, e <> Thrown (Error message)).
Proof.
  unfold deriveConfig.
  destruct (value_truthy (apiConfig w) && negb force); [now left|right].
  split; [reflexivity|].
  unfold action_bind. destruct (request_sends_one got config_request w) as [r [-> Hr]].
  destruct r as [e|body].
  - right. exists e. split; [reflexivity|].
    destruct (Hr e eq_refl) as [error ->]. discriminate.
  - unfold action_of.
    destruct (as_text (value_or body (VStr ""))) as [e|text] eqn:Et.
    + right. exists e. split; [reflexivity|].
      rewrite (only_TypeError_as_text _ _ Et). discriminate.
    + destruct (ytcfg_match text) as [captured|].
      * destruct (JSON_parse captured) as [config|].
        -- left. now exists config.
        -- right. eexists. split; [reflexivity|]. discriminate.
      * right. eexists. split; [reflexivity|]. discriminate.
Qed.

Lemma deriveConfig_returns (got : transport) (force : bool) (w w' : world) (config : value) :
  deriveConfig got force w = (w', inr config) ->
  apiConfig w' = config
  /\ value_truthy config = true
  /\ (sent w' = sent w \/ sent w' = sent w ++ [config_request])
  /\ deriveConfig got false w' = (w', inr config).
Proof.
  intros H.
  destruct (deriveConfig_cases got force w) as [[Hc Hd]|[Hc [[cfg Hd]|[e [Hd _]]]]];
    rewrite Hd in H; [| |discriminate H].
  - injection H as <- <-. apply andb_true_iff in Hc. destruct Hc as [Ht _].
    split; [reflexivity|]. split; [assumption|]. split; [now left|].
    unfold deriveConfig. now rewrite Ht.
  - injection H as <- <-.
    split; [reflexivity|]. split; [reflexivity|]. split; [now right|reflexivity].
Qed.

(** X17.  Once [#deriveConfig] has answered, the configuration is an object in
    the cache, and asking again without [force] answers it from there and
    sends no request. *)
Theorem deriveConfig_caches (got : transport) (force : bool) (w w' : world) (config : value) :
  deriveConfig got force w = (w', inr config) ->
  apiConfig w' = config
  /\ value_truthy config = true
  /\ (sent w' = sent w \/ sent w' = sent w ++ [config_request])
  /\ deriveConfig got false w' = (w', inr config).
Proof. apply deriveConfig_returns. Qed.

(** X18.  A derivation that fails has sent its one request and leaves the cache
    as it was: a forced refresh that fails loses no configuration.  What
    it throws is never a plain [Error]. *)
Theorem deriveConfig_failure_keeps_cache (got : transport) (force : bool) (w w' : world)
    (e : thrown) :
  deriveConfig got force w = (w', inl e) ->
  apiConfig w' = apiConfig w
  /\ sent w' = sent w ++ [config_request]
  /\ forall message, e <> Thrown (Error message).
Proof.
  intros H.
  destruct (deriveConfig_cases got force w) as [[Hc Hd]|[Hc [[cfg Hd]|[e' [Hd He]]]]];
    rewrite Hd in H; try discriminate H.
  injection H as <- <-. now repeat split.
Qed.

Lemma valid_query_checks (queryObject params : value) :
  valid_query queryObject params = true ->
  negb (value_typeof queryObject =? "object") = false
  /\ value_truthy params && negb (value_typeof params =? "object") = false.
Proof.
  unfold valid_query. intros H. apply andb_true_iff in H. destruct H as [H1 H2].
  rewrite H1. split; [reflexivity|]. now apply negb_true_iff in H2.
Qed.

Lemma get_truthy (v : value) (k : string) :
  value_truthy v = true -> exists x, get v k = inr x.
Proof. destruct v; simpl; try discriminate; intros _; now eexists. Qed.

(** With a configuration in the cache, a search whose arguments pass the
    checks sends one request, the search itself, and leaves the cache
    alone. *)
Lemma private_search_cached (got : transport) (queryObject params : value) (w : world) :
  value_truthy (apiConfig w) = true ->
  valid_query queryObject params = true ->
  exists key name version r,
    get (apiConfig w) "INNERTUBE_API_KEY" = inr key
    /\ get (apiConfig w) "INNERTUBE_CLIENT_NAME" = inr name
    /\ get (apiConfig w) "INNERTUBE_CLIENT_VERSION" = inr version
    /\ private_search got queryObject params w
       = ({| apiConfig := apiConfig w;
             sent := sent w ++ [search_request key name version queryObject params] |}, r)
    /\ forall message, r <> inl (Thrown (Error message)).
Proof.
  intros Ht Hv. destruct (valid_query_checks _ _ Hv) as [H1 H2].
  destruct (get_truthy _ "INNERTUBE_API_KEY" Ht) as [key Hkey].
  destruct (get_truthy _ "INNERTUBE_CLIENT_NAME" Ht) as [name Hname].
  destruct (get_truthy _ "INNERTUBE_CLIENT_VERSION" Ht) as [version Hversion].
  exists key, name, version.
  unfold private_search. rewrite H1, H2.
  unfold action_bind at 1. unfold deriveConfig. rewrite Ht. cbn [negb andb].
  unfold action_bind at 1. unfold action_of at 1. rewrite Hkey.
  unfold action_bind at 1. unfold action_of at 1. rewrite Hname.
  unfold action_bind at 1. unfold action_of at 1. rewrite Hversion.
  unfold action_bind.
  destruct (request_sends_one got (search_request key name version queryObject params) w)
    as [r [-> Hr]].
  destruct r as [e|response].
  - eexists. repeat split. intros message H. injection H as ->.
    destruct (Hr _ eq_refl) as [error Herr]. discriminate Herr.
  - unfold action_of. eexists. repeat split. intros message H.
    apply only_TypeError_parse_response in H. discriminate H.
Qed.

(** X19.  [#search] throws a plain [Error] only from its two checks (lines
    133-134), and then before anything is sent or stored; whatever fails
    later is a [YouTubeSearchError], a [TypeError] or a [SyntaxError]. *)
Theorem private_search_plain_errors (got : transport) (queryObject params : value)
    (w w' : world) (message : string) :
  private_search got queryObject params w = (w', inl (Thrown (Error message))) ->
  w' = w
  /\ valid_query queryObject params = false
  /\ (message = "<queryObject> must be an object"
      \/ message = "<params>, if defined must be an object").
Proof.
  unfold private_search, valid_query.
  destruct (value_typeof queryObject =? "object"); cbn [negb andb].
  2:{ intros H. injection H as <- <-. split; [reflexivity|]. split; [reflexivity|now left]. }
  destruct (value_truthy params && negb (value_typeof params =? "object")); cbn [negb].
  { intros H. injection H as <- <-. split; [reflexivity|]. split; [reflexivity|now right]. }
  intros H. exfalso. unfold action_bind at 1 in H.
  destruct (deriveConfig_cases got false w) as [[Hc Hd]|[Hc [[cfg Hd]|[e [Hd He]]]]];
    rewrite Hd in H.
  - assert (Ht : value_truthy (apiConfig w) = true)
      by (apply andb_true_iff in Hc; now destruct Hc).
    destruct (private_search_cached got (VObj []) VUndefined w Ht eq_refl)
      as [key [name [version [_ [Hk [Hn [Hv _]]]]]]].
    unfold action_bind at 1 in H. unfold action_of at 1 in H. rewrite Hk in H.
    unfold action_bind at 1 in H. unfold action_of at 1 in H. rewrite Hn in H.
    unfold action_bind at 1 in H. unfold action_of at 1 in H. rewrite Hv in H.
    unfold action_bind in H.
    destruct (request_sends_one got (search_request key name version queryObject params) w)
      as [r [Hreq Hr]].
    rewrite Hreq in H. destruct r as [e|response].
    + injection H as _ ->. destruct (Hr _ eq_refl) as [error Herr]. discriminate Herr.
    + unfold action_of in H. injection H as _ H.
      apply only_TypeError_parse_response in H. discriminate H.
  - cbn [get js_get] in H. unfold action_bind, action_of in H.
    match type of H with
    | context [request got ?o ?w0] =>
        destruct (request_sends_one got o w0) as [r [Hreq Hr]]; rewrite Hreq in H
    end.
    destruct r as [e|response].
    + injection H as _ ->. destruct (Hr _ eq_refl) as [error Herr]. discriminate Herr.
    + injection H as _ H. apply only_TypeError_parse_response in H. discriminate H.
  - injection H as _ ->. now apply (He message).
Qed.

Lemma private_search_derives_first (got : transport) (queryObject params : value)
    (w : world) :
  valid_query queryObject params = true ->
  match deriveConfig got false w with
  | (w0, inl e) => private_search got queryObject params w = (w0, inl e)
  | (w0, inr config) =>
      private_search got queryObject params w = private_search got queryObject params w0
  end.
Proof.
  intros Hv. destruct (valid_query_checks _ _ Hv) as [H1 H2].
  destruct (deriveConfig got false w) as [w0 [e|config]] eqn:Hd.
  - unfold private_search. rewrite H1, H2. unfold action_bind at 1. now rewrite Hd.
  - destruct (deriveConfig_returns _ _ _ _ _ Hd) as [_ [_ [_ Hagain]]].
    unfold private_search. rewrite H1, H2.
    unfold action_bind at 1. rewrite Hd.
    symmetry. unfold action_bind at 1. now rewrite Hagain.
Qed.

(** X20.  A search that returned has left a configuration in the cache; it
    sent the search, after the request for the configuration when the
    cache was empty.  Every later search whose arguments pass the checks
    sends the search alone, with the key and the client of that
    configuration, and leaves the cache alone. *)
Theorem config_is_derived_once (got : transport) (queryObject params : value)
    (w w1 : world) (sections : dict shelfSection) :
  private_search got queryObject params w = (w1, inr sections) ->
  value_truthy (apiConfig w1) = true
  /\ (exists key name version,
        get (apiConfig w1) "INNERTUBE_API_KEY" = inr key
        /\ get (apiConfig w1) "INNERTUBE_CLIENT_NAME" = inr name
        /\ get (apiConfig w1) "INNERTUBE_CLIENT_VERSION" = inr version
        /\ (sent w1 = sent w ++ [search_request key name version queryObject params]
            \/ sent w1
               = sent w
                 ++ [config_request; search_request key name version queryObject params]))
  /\ forall queryObject' params',
       valid_query queryObject' params' = true ->
       exists key name version,
         get (apiConfig w1) "INNERTUBE_API_KEY" = inr key
         /\ get (apiConfig w1) "INNERTUBE_CLIENT_NAME" = inr name
         /\ get (apiConfig w1) "INNERTUBE_CLIENT_VERSION" = inr version
         /\ sent (fst (private_search got queryObject' params' w1))
            = sent w1 ++ [search_request key name version queryObject' params']
         /\ apiConfig (fst (private_search got queryObject' params' w1)) = apiConfig w1.
Proof.
  intros H.
  assert (Hv : valid_query queryObject params = true).
  { destruct (valid_query queryObject params) eqn:Hv; [reflexivity|exfalso].
    unfold private_search, valid_query in *.
    destruct (value_typeof queryObject =? "object"); cbn [negb andb] in *;
      [|discriminate H].
    apply negb_false_iff in Hv. rewrite Hv in H. discriminate H. }
  pose proof (private_search_derives_first got queryObject params w Hv) as Hfirst.
  destruct (deriveConfig got false w) as [w0 [e|config]] eqn:Hd.
  { rewrite Hfirst in H. discriminate H. }
  rewrite Hfirst in H. clear Hfirst.
  destruct (deriveConfig_returns _ _ _ _ _ Hd) as [Hcfg [Ht [Hsent _]]].
  rewrite <- Hcfg in Ht.
  destruct (private_search_cached got queryObject params w0 Ht Hv)
    as [key [name [version [r [Hkey [Hname [Hversion [Hrun _]]]]]]]].
  rewrite Hrun in H. injection H as <- _.
  split; [exact Ht|]. split.
  - exists key, name, version. cbn [sent apiConfig].
    split; [exact Hkey|]. split; [exact Hname|]. split; [exact Hversion|].
    destruct Hsent as [->| ->]; [now left|right]. now rewrite <- app_assoc.
  - intros queryObject' params' Hv'.
    destruct (private_search_cached got queryObject' params'
                {| apiConfig := apiConfig w0;
                   sent := sent w0 ++ [search_request key name version queryObject params] |}
                Ht Hv')
      as [key' [name' [version' [r' [Hk [Hn [Hver [Hrun' _]]]]]]]].
    exists key', name', version'. rewrite Hrun'. now repeat split.
Qed.

(** X21.  Whatever the response, reading it throws nothing but a [TypeError]:
    a response of an unexpected shape makes [#search] fail with the
    language's error, not with a [YouTubeSearchError]. *)
Theorem parse_response_throws_only_TypeError (response : value) (e : thrown) :
  parse_response response = inl e -> e = TypeError.
Proof. apply only_TypeError_parse_response. Qed.

(** X22.  With a configuration in the cache, [loadMore] sends one request: a
    search for the empty query whose search parameters carry, after [alt]
    and [key], the click-tracking parameters and the continuation token of
    the first continuation of its layer. *)
Theorem loadMore_sends_the_continuation (got : transport) (layer : value) (w : world)
    (continuations first data icit token : value) :
  value_truthy (apiConfig w) = true ->
  get layer "continuations" = inr continuations ->
  elem continuations 0 = inr first ->
  get first "nextContinuationData" = inr data ->
  get data "clickTrackingParams" = inr icit ->
  get data "continuation" = inr token ->
  exists key name version r,
    get (apiConfig w) "INNERTUBE_API_KEY" = inr key
    /\ get (apiConfig w) "INNERTUBE_CLIENT_NAME" = inr name
    /\ get (apiConfig w) "INNERTUBE_CLIENT_VERSION" = inr version
    /\ loadMore got layer w
       = ({| apiConfig := apiConfig w;
             sent := sent w
                     ++ [search_request key name version (VObj [])
                           (VObj [("icit", icit); ("continuation", token)])] |}, r)
    /\ opt_searchParams
         (search_request key name version (VObj [])
            (VObj [("icit", icit); ("continuation", token)]))
       = Some [("alt", VStr "json"); ("key", key); ("icit", icit); ("continuation", token)].
Proof.
  intros Ht Hc Hf Hd Hi Hk.
  destruct (private_search_cached got (VObj [])
              (VObj [("icit", icit); ("continuation", token)]) w Ht eq_refl)
    as [key [name [version [r [Hkey [Hname [Hversion [Hrun _]]]]]]]].
  exists key, name, version.
  unfold loadMore. unfold action_bind at 1. unfold action_of at 1.
  rewrite Hc. cbn [attempt_bind]. rewrite Hf. cbn [attempt_bind]. rewrite Hd.
  unfold action_bind at 1. unfold action_of at 1. rewrite Hi.
  unfold action_bind at 1. unfold action_of at 1. rewrite Hk.
  unfold action_bind. rewrite Hrun.
  destruct r as [e|found]; eexists; (split; [exact Hkey|]); (split; [exact Hname|]);
    (split; [exact Hversion|]); (split; [reflexivity|]); reflexivity.
Qed.

(** X23.  [expand] searches with [layer.bottomEndpoint.searchEndpoint] as its
    query: when the bottom endpoint has no search endpoint (or one that is
    no object), the check of line 133 throws, and nothing is sent. *)
Theorem expand_needs_a_search_endpoint (got : transport) (layer : value) (w : world)
    (bottomEndpoint searchEndpoint : value) :
  get layer "bottomEndpoint" = inr bottomEndpoint ->
  get bottomEndpoint "searchEndpoint" = inr searchEndpoint ->
  value_typeof searchEndpoint <> "object" ->
  expand got layer w = (w, inl (Thrown (Error "<queryObject> must be an object"))).
Proof.
  intros Hb Hs Ht. unfold expand. unfold action_bind at 1. unfold action_of at 1.
  rewrite Hb. cbn [attempt_bind]. rewrite Hs.
  unfold action_bind, private_search.
  apply String.eqb_neq in Ht. rewrite Ht. reflexivity.
Qed.

End Services.

(* ================================================================= *)
(** ** The properties on the example data *)

(** The spec's scenario 1: one song, 5:20 long, for a query of 320000 ms. *)
Lemma YouTubeMusic_accuracy_formula_witness :
  exists c,
    outcome (YouTubeMusic_search stripText_model getWeight_model decimalToNumber
               (songs_shelf [item_studio]) q_artists q_track q_album q_duration)
    = Return [c]
    /\ In c [c]
    /\ exists args results item,
         _getSearchArgs q_artists q_track q_album q_duration = inr args
         /\ songs_shelf [item_studio] (YouTubeMusic_query args) = inr results
         /\ In item
              (validSections stripText_model getWeight_model
                 (YouTubeMusic_strippedMeta stripText_model args) results)
         /\ (weight item >? Fin 65)%num = true
         /\ type (clean c) = item_type (w_item item)
         /\ duration_ms (clean c)
            = parse_duration_ms decimalToNumber (item_duration (w_item item))
         /\ num_same (accuracy c)
              (spec_accuracy_A (supplied (va_duration args)) (duration_ms (clean c))
                 (weight item) (type (clean c)))
         /\ (accuracy c >? Fin 80)%num = true.
Proof.
  eexists. split; [vm_compute; reflexivity|]. split; [now left|].
  eapply (YouTubeMusic_accuracy_formula stripText_model getWeight_model decimalToNumber
            (songs_shelf [item_studio]) q_artists q_track q_album q_duration).
  - vm_compute. reflexivity.
  - now left.
Defined.

(** C9.  A song whose play button carries no video id has the key
    [videoId] all the same (line 225), so the test of line 337 lets it
    through: [search] returns one candidate, a song, whose [videoId] is
    [undefined]. *)
Theorem undefined_videoId_is_returned :
  exists c,
    outcome (YouTubeMusic_search stripText_model getWeight_model decimalToNumber
               (songs_shelf [item_no_id]) q_artists q_track q_album q_duration)
    = Return [c]
    /\ type (clean c) = Some "song"
    /\ videoId (clean c) = None.
Proof. eexists. split; [vm_compute; reflexivity|]. split; reflexivity. Qed.



(** A video whose id is ["constructor"] is met first, and kept by the
    worker, but gets no entry: ["constructor" in final] holds of the empty
    object. *)
Lemma inherited_name_is_never_stored :
  inherited "constructor" = true
  /\ map (fun e => v_videoId (snd e))
       (encountered
          (YouTube_sources stripText_model getWeight_model with_constructor q_args))
     = [Some "constructor"; Some "abc"; Some "constructor"; Some "abc";
        Some "constructor"; Some "abc"; Some "constructor"; Some "abc"]
  /\ exists c,
       outcome (YouTube_search stripText_model getWeight_model with_constructor
                  q_artists q_track q_album q_duration)
       = Return [c]
       /\ yt_videoId c = "abc".
Proof.
  split; [reflexivity|]. split; [vm_compute; reflexivity|].
  eexists. split; [vm_compute; reflexivity|]. reflexivity.
Qed.

(** The stand-in for [getWeight] stays within 100. *)
Lemma getWeight_model_le_100 (expected actual : list string) :
  (getWeight_model expected actual >? Fin 100)%num = false.
Proof.
  unfold getWeight_model.
  set (common := filter _ (nodup string_dec expected)).
  set (union := nodup string_dec (expected ++ actual)).
  assert (Hle : (List.length common <= List.length union)%nat).
  { apply Nat.le_trans with (List.length (nodup string_dec expected)).
    - unfold common. apply filter_length_le.
    - apply NoDup_incl_length; [apply NoDup_nodup|].
      intros x Hx. apply nodup_In. apply nodup_In in Hx. apply in_or_app. now left. }
  unfold of_N. cbn [num_mul].
  set (c := inject_Z (Z.of_N (N.of_nat (List.length common)))).
  set (u := inject_Z (Z.of_N (N.of_nat (List.length union)))).
  assert (Hcu : c <= u) by (unfold c, u; rewrite <- Zle_Qle; lia).
  assert (Hc0 : 0 <= c)
    by (unfold c; change 0 with (inject_Z 0); rewrite <- Zle_Qle; lia).
  destruct (Qeq_bool u 0) eqn:Eu.
  - apply Qeq_bool_iff in Eu. simpl.
    assert (Hs : Qsign u = Eq) by now apply Qsign_Eq. rewrite Hs.
    assert (Hc : 100 * c == 0) by lra.
    apply Qsign_Eq in Hc. now rewrite Hc.
  - apply Qeq_bool_neq in Eu. rewrite num_div_Fin by assumption.
    apply num_gt_Fin_false. apply Qle_shift_div_r; lra.
Qed.

(** C5, as stated, fails for Backend B: every variant succeeds, the batch
    maximum of views is 100, and the video that is four times as long as
    the expected 320000 ms is returned with a negative accuracy. *)
Lemma YouTube_accuracy_can_be_negative :
  exists l c q,
    outcome (YouTube_search stripText_model getWeight_model all_succeed
               q_artists q_track q_album q_duration)
    = Return l
    /\ In c l
    /\ yt_videoId c = "long"
    /\ yt_accuracy c = Fin q
    /\ q < 0.
Proof.
  eexists. eexists. eexists.
  split; [vm_compute; reflexivity|].
  split; [right; left; reflexivity|].
  split; [reflexivity|].
  split; [reflexivity|].
  reflexivity.
Qed.

Lemma accuracy_range_witness :
  (exists l c,
      (forall a b, (getWeight_model a b >? Fin 100)%num = false)
      /\ _getSearchArgs q_artists q_track q_album q_duration = inr q_args
      /\ well_formed_duration (va_duration q_args)
      /\ outcome (YouTubeMusic_search stripText_model getWeight_model decimalToNumber
                    (songs_shelf [item_song_1]) q_artists q_track q_album q_duration)
         = Return l
      /\ In c l
      /\ exists q, accuracy c = Fin q /\ 80 < q /\ q <= 100)
  /\ (exists l c,
        _getSearchArgs q_artists q_track q_album q_duration = inr q_args
        /\ well_formed_duration (va_duration q_args)
        /\ (YouTube_highestViews
              (YouTube_sources stripText_model getWeight_model all_succeed q_args)
            >? Fin 0)%num = true
        /\ outcome (YouTube_search stripText_model getWeight_model all_succeed
                      q_artists q_track q_album q_duration)
           = Return l
        /\ In c l
        /\ exists q m,
             yt_accuracy c = Fin q
             /\ yt_duration_ms c = Fin m
             /\ q <= 100
             /\ 100 - penalty_Q (expected_Q (va_duration q_args)) m <= q
             /\ (penalty_Q (expected_Q (va_duration q_args)) m <= 100 -> 0 <= q)).
Proof.
  destruct (accuracy_range stripText_model getWeight_model decimalToNumber) as [HA HB].
  assert (Hwf : well_formed_duration (va_duration q_args)).
  { right. exists 320000. split; [reflexivity|]. discriminate. }
  assert (Hargs : _getSearchArgs q_artists q_track q_album q_duration = inr q_args)
    by reflexivity.
  split.
  - eexists. eexists.
    split; [exact getWeight_model_le_100|]. split; [exact Hargs|]. split; [exact Hwf|].
    split; [vm_compute; reflexivity|]. split; [left; reflexivity|].
    eapply (HA (songs_shelf [item_song_1]) q_artists q_track q_album q_duration q_args);
      [exact getWeight_model_le_100 | exact Hargs | exact Hwf
       | vm_compute; reflexivity | left; reflexivity].
  - eexists. eexists.
    split; [exact Hargs|]. split; [exact Hwf|]. split; [vm_compute; reflexivity|].
    split; [vm_compute; reflexivity|]. split; [right; left; reflexivity|].
    eapply (HB all_succeed q_artists q_track q_album q_duration q_args);
      [exact Hargs | exact Hwf | vm_compute; reflexivity
       | vm_compute; reflexivity | right; left; reflexivity].
Defined.

(** C6, as stated, fails: two videos of one accuracy are met in the order
    ["10"], ["9"], and returned in the order ["9"], ["10"], the order in
    which [Object.values] lists keys that are array indices. *)
Lemma array_indices_are_ranked_by_index :
  map yt_videoId
    (firsts yt_videoId []
       (proposed
          (YouTube_candidate stripText_model getWeight_model
             (stripText_model (va_artists q_args)) (va_duration q_args)
             (YouTube_highestViews
                (YouTube_sources stripText_model getWeight_model numbered q_args)))
          (encountered (YouTube_sources stripText_model getWeight_model numbered q_args))))
  = ["10"; "9"]
  /\ exists c9 c10,
       outcome (YouTube_search stripText_model getWeight_model numbered
                  q_artists q_track q_album q_duration)
       = Return [c9; c10]
       /\ yt_videoId c9 = "9"
       /\ yt_videoId c10 = "10"
       /\ num_same (yt_accuracy c9) (Fin 100)
       /\ num_same (yt_accuracy c10) (Fin 100).
Proof.
  split; [vm_compute; reflexivity|].
  eexists. eexists. split; [vm_compute; reflexivity|].
  repeat split; reflexivity.
Qed.

(** A video, then a song 5:30 long, then two songs 5:20 long: the two of
    accuracy 100 come first, in the order they were met. *)
Lemma ranked_descending_and_stable_witness :
  (exists l results,
      outcome (YouTubeMusic_search stripText_model getWeight_model decimalToNumber
                 mixed_shelves q_artists q_track q_album q_duration)
      = Return l
      /\ mixed_shelves (YouTubeMusic_query q_args) = inr results
      /\ map (fun c => videoId (clean c)) l = [Some "s2"; Some "s3"; Some "s1"; Some "v1"]
      /\ descending accuracy l
      /\ let candidates :=
           proposed (YouTubeMusic_candidate decimalToNumber (va_duration q_args))
             (validSections stripText_model getWeight_model
                (YouTubeMusic_strippedMeta stripText_model q_args) results) in
         forallb (fun c => plain_key (ytm_key c)) candidates = true
         /\ forall v,
              of_accuracy accuracy v l
              = of_accuracy accuracy v (firsts ytm_key [] candidates))
  /\ (exists l,
        outcome (YouTube_search stripText_model getWeight_model all_succeed
                   q_artists q_track q_album q_duration)
        = Return l
        /\ descending yt_accuracy l
        /\ let candidates :=
             proposed
               (YouTube_candidate stripText_model getWeight_model
                  (stripText_model (va_artists q_args)) (va_duration q_args)
                  (YouTube_highestViews
                     (YouTube_sources stripText_model getWeight_model all_succeed q_args)))
               (encountered
                  (YouTube_sources stripText_model getWeight_model all_succeed q_args)) in
           forallb (fun c => plain_key (yt_videoId c)) candidates = true
           /\ forall v,
                of_accuracy yt_accuracy v l
                = of_accuracy yt_accuracy v (firsts yt_videoId [] candidates)).
Proof.
  destruct (ranked_descending_and_stable stripText_model getWeight_model decimalToNumber)
    as [HA HB].
  split.
  - destruct (HA mixed_shelves q_artists q_track q_album q_duration _ eq_refl)
      as [Hd [args [results [Ha [Hr Ht]]]]].
    injection Ha as <-.
    eexists. exists results. split; [reflexivity|]. split; [exact Hr|].
    split; [vm_compute; reflexivity|]. split; [exact Hd|].
    cbv zeta in *. injection Hr as <-.
    assert (Hplain :
      forallb (fun c => plain_key (ytm_key c))
        (proposed (YouTubeMusic_candidate decimalToNumber (va_duration q_args))
           (validSections stripText_model getWeight_model
              (YouTubeMusic_strippedMeta stripText_model q_args)
              (mkResults (Some (mkSection [item_video]))
                 (Some (mkSection [item_song_1; item_song_2; item_song_3])) None)))
      = true) by (vm_compute; reflexivity).
    split; [exact Hplain|]. exact (Ht Hplain).
  - destruct (HB all_succeed q_artists q_track q_album q_duration _ eq_refl)
      as [Hd [args [Ha Ht]]].
    injection Ha as <-.
    eexists. split; [reflexivity|]. split; [exact Hd|].
    cbv zeta in *.
    assert (Hplain :
      forallb (fun c => plain_key (yt_videoId c))
        (proposed
           (YouTube_candidate stripText_model getWeight_model
              (stripText_model (va_artists q_args)) (va_duration q_args)
              (YouTube_highestViews
                 (YouTube_sources stripText_model getWeight_model all_succeed q_args)))
           (encountered
              (YouTube_sources stripText_model getWeight_model all_succeed q_args)))
      = true) by (vm_compute; reflexivity).
    split; [exact Hplain|]. exact (Ht Hplain).
Defined.

(** C2, the divergence.  The first variant fails and the three others
    list the long video, then the right one.  [search] returns both with
    the accuracy NaN, in the order they were met; had the failed variant
    been an empty result, it would return the right one first, with the
    accuracy 100, then the long one, with the accuracy -20. *)
Lemma YouTube_failed_variant_is_no_empty_result :
  first_fails (variant_query (YouTube_strippedMeta stripText_model q_args) [["Official Audio"]])
  = inl timeout_error
  /\ (exists long abc,
        outcome (YouTube_search stripText_model getWeight_model first_fails
                   q_artists q_track q_album q_duration)
        = Return [long; abc]
        /\ yt_videoId long = "long"
        /\ yt_videoId abc = "abc"
        /\ yt_accuracy long = NaN
        /\ yt_accuracy abc = NaN)
  /\ (exists abc long,
        outcome (YouTube_search stripText_model getWeight_model (absorb_failures first_fails)
                   q_artists q_track q_album q_duration)
        = Return [abc; long]
        /\ yt_videoId abc = "abc"
        /\ yt_videoId long = "long"
        /\ num_same (yt_accuracy abc) (Fin 100)
        /\ num_same (yt_accuracy long) (Fin (-20))).
Proof.
  split; [vm_compute; reflexivity|]. split.
  - eexists. eexists. split; [vm_compute; reflexivity|]. repeat split; reflexivity.
  - eexists. eexists. split; [vm_compute; reflexivity|]. repeat split; reflexivity.
Qed.

(** The spec's scenario 4, every variant fails, and a search in which the
    first variant fails and the others succeed. *)
Lemma YouTube_failed_variants_witness :
  _getSearchArgs q_artists q_track q_album q_duration = inr q_args
  /\ ((forall xf, In xf variants ->
         exists e,
           all_fail (variant_query (YouTube_strippedMeta stripText_model q_args) xf) = inl e)
      /\ all_fail (variant_query (YouTube_strippedMeta stripText_model q_args) [[]])
         = inl timeout_error
      /\ outcome (YouTube_search stripText_model getWeight_model all_fail
                    q_artists q_track q_album q_duration)
         = Throw (SearchError
                    {| se_message := "Timeout awaiting response";
                       se_statusCode := None;
                       se_status := Some "ETIMEDOUT";
                       se_body := None |}))
  /\ ((exists xf videos,
         In xf variants
         /\ first_fails (variant_query (YouTube_strippedMeta stripText_model q_args) xf)
            = inr videos)
      /\ (exists xf e,
            In xf variants
            /\ first_fails (variant_query (YouTube_strippedMeta stripText_model q_args) xf)
               = inl e)
      /\ exists l,
           outcome (YouTube_search stripText_model getWeight_model first_fails
                      q_artists q_track q_album q_duration)
           = Return l
           /\ (forall c, In c l ->
                 exists xf videos item,
                   In xf variants
                   /\ first_fails
                        (variant_query (YouTube_strippedMeta stripText_model q_args) xf)
                      = inr videos
                   /\ In item videos
                   /\ kept stripText_model getWeight_model
                        (YouTube_strippedMeta stripText_model q_args) item = true
                   /\ v_videoId item = Some (yt_videoId c)
                   /\ yt_title c = v_title item
                   /\ yt_xFilters c = xf)
           /\ (forall xf videos item id,
                 In xf variants ->
                 first_fails
                   (variant_query (YouTube_strippedMeta stripText_model q_args) xf)
                 = inr videos ->
                 In item videos ->
                 kept stripText_model getWeight_model
                   (YouTube_strippedMeta stripText_model q_args) item = true ->
                 v_videoId item = Some id ->
                 inherited id = false ->
                 exists c, In c l /\ yt_videoId c = id)
           /\ (exists l',
                 outcome (YouTube_search stripText_model getWeight_model
                            (absorb_failures first_fails)
                            q_artists q_track q_album q_duration)
                 = Return l'
                 /\ Permutation (map without_accuracy l) (map without_accuracy l'))
           /\ (forall c, In c l -> yt_accuracy c = NaN)
           /\ l = Object_values
                    (YouTube_final stripText_model getWeight_model
                       (stripText_model (va_artists q_args)) (va_duration q_args)
                       (YouTube_sources stripText_model getWeight_model first_fails q_args))).
Proof.
  assert (Hargs : _getSearchArgs q_artists q_track q_album q_duration = inr q_args)
    by reflexivity.
  split; [exact Hargs|]. split.
  - assert (Hall : forall xf, In xf variants ->
              exists e,
                all_fail (variant_query (YouTube_strippedMeta stripText_model q_args) xf)
                = inl e)
      by (intros xf _; now exists timeout_error).
    split; [exact Hall|]. split; [reflexivity|].
    exact (proj1 (YouTube_failed_variants stripText_model getWeight_model all_fail
                    q_artists q_track q_album q_duration q_args Hargs)
             Hall timeout_error eq_refl).
  - assert (Hsome : exists xf videos,
              In xf variants
              /\ first_fails
                   (variant_query (YouTube_strippedMeta stripText_model q_args) xf)
                 = inr videos).
    { exists [[]], [video_long; video_ok]. split; [right; right; right; left; reflexivity|].
      vm_compute. reflexivity. }
    assert (Hfail : exists xf e,
              In xf variants
              /\ first_fails
                   (variant_query (YouTube_strippedMeta stripText_model q_args) xf)
                 = inl e).
    { exists [["Official Audio"]], timeout_error. split; [left; reflexivity|].
      vm_compute. reflexivity. }
    split; [exact Hsome|]. split; [exact Hfail|].
    destruct (proj2 (YouTube_failed_variants stripText_model getWeight_model first_fails
                       q_artists q_track q_album q_duration q_args Hargs) Hsome)
      as [l [Hl [Hfrom [Hto [Hempty Hnan]]]]].
    destruct (Hnan Hfail) as [Hnan1 Hnan2].
    exists l. split; [exact Hl|]. split; [exact Hfrom|]. split; [exact Hto|].
    split; [exact Hempty|]. split; [exact Hnan1|exact Hnan2].
Defined.

(** The spec's scenario 3, run: the one video of the variant that succeeded
    is returned, and nothing is thrown.  Its accuracy is NaN: the failed
    variants leave [highestViews] undefined, and [Math.max] of line 428
    turns that into NaN. *)
Lemma YouTube_last_variant_succeeds :
  exists c,
    outcome (YouTube_search stripText_model getWeight_model last_succeeds
               q_artists q_track q_album q_duration)
    = Return [c]
    /\ yt_videoId c = "abc"
    /\ yt_xFilters c = [[]]
    /\ yt_accuracy c = NaN.
Proof.
  eexists. split; [vm_compute; reflexivity|]. repeat split; reflexivity.
Qed.

Lemma accuracy_monotone_witness :
  (0 <= 320000
   /\ type (mk_cleanItem decimalToNumber item_song_2 (Some "s2"))
      = type (mk_cleanItem decimalToNumber item_song_1 (Some "s1"))
   /\ duration_ms (mk_cleanItem decimalToNumber item_song_2 (Some "s2")) = Fin 320000
   /\ duration_ms (mk_cleanItem decimalToNumber item_song_1 (Some "s1")) = Fin 330000
   /\ Qabs (320000 - 320000) <= Qabs (320000 - 330000)
   /\ (YouTubeMusic_calculateAccuracyFor (JNum (Fin 320000))
         (mk_cleanItem decimalToNumber item_song_2 (Some "s2")) (Fin 100)
       >=? YouTubeMusic_calculateAccuracyFor (JNum (Fin 320000))
             (mk_cleanItem decimalToNumber item_song_1 (Some "s1")) (Fin 100))%num = true)
  /\ (well_formed_duration q_duration
      /\ 0 < 100
      /\ (10 <= 50)%N
      /\ (YouTube_calculateAccuracyFor stripText_model getWeight_model ["daft"; "punk"]
            q_duration (Fin 100) (set_views video_ok 50)
          >=? YouTube_calculateAccuracyFor stripText_model getWeight_model ["daft"; "punk"]
                q_duration (Fin 100) (set_views video_ok 10))%num = true).
Proof.
  destruct (accuracy_monotone stripText_model getWeight_model) as [HA HB].
  assert (Hd : 0 <= 320000) by discriminate.
  assert (Hclose : Qabs (320000 - 320000) <= Qabs (320000 - 330000)) by discriminate.
  assert (Hwf : well_formed_duration q_duration).
  { right. exists 320000. split; [reflexivity|]. discriminate. }
  assert (Hh : 0 < 100) by reflexivity.
  assert (Hv : (10 <= 50)%N) by discriminate.
  split.
  - split; [exact Hd|]. split; [reflexivity|]. split; [reflexivity|].
    split; [reflexivity|]. split; [exact Hclose|].
    exact (HA 320000 100 320000 330000
              (mk_cleanItem decimalToNumber item_song_2 (Some "s2"))
              (mk_cleanItem decimalToNumber item_song_1 (Some "s1"))
              Hd eq_refl eq_refl eq_refl Hclose).
  - split; [exact Hwf|]. split; [exact Hh|]. split; [exact Hv|].
    exact (HB ["daft"; "punk"] q_duration 100 video_ok 10%N 50%N Hwf Hh Hv).
Defined.

(** C8, as stated, fails.  An expected duration of -100000 ms passes the
    checks of [_getSearchArgs], and then the nearer duration is the worse
    one: Backend A gives the song 0:00 long 150 and the song 1:40 long 200,
    and Backend B gives a video less with each view.  And in the binary64
    arithmetic of the language Backend B can give less for one more view,
    with a positive expected duration: for 320000 ms expected, a video of
    1280 s whose author matches and a batch maximum of 6941689281138253
    views, 2990744756030719 views give less than 2990744756030718. *)
Lemma accuracy_is_not_monotone :
  _getSearchArgs q_artists q_track q_album negative_duration
  = inr (mkValid ["Daft Punk"] "One More Time" "Discovery" negative_duration)
  /\ (exists near far,
        duration_ms (mk_cleanItem decimalToNumber item_start (Some "t0")) = Fin near
        /\ duration_ms (mk_cleanItem decimalToNumber item_short (Some "t1")) = Fin far
        /\ Qabs (-100000 - near) < Qabs (-100000 - far)
        /\ num_same
             (YouTubeMusic_calculateAccuracyFor negative_duration
                (mk_cleanItem decimalToNumber item_start (Some "t0")) (Fin 100))
             (Fin 150)
        /\ num_same
             (YouTubeMusic_calculateAccuracyFor negative_duration
                (mk_cleanItem decimalToNumber item_short (Some "t1")) (Fin 100))
             (Fin 200))
  /\ (num_same
        (YouTube_calculateAccuracyFor stripText_model getWeight_model ["daft"; "punk"]
           negative_duration (Fin 100) (set_views video_ok 0))
        (Fin 268)
      /\ num_same
           (YouTube_calculateAccuracyFor stripText_model getWeight_model ["daft"; "punk"]
              negative_duration (Fin 100) (set_views video_ok 100))
           (Fin (668 # 5)))
  /\ PrimFloat.ltb
       (Binary64.YouTube_calculateAccuracyFor true (Some Binary64.expected_ms)
          Binary64.batch_views Binary64.one_more_view Binary64.seconds)
       (Binary64.YouTube_calculateAccuracyFor true (Some Binary64.expected_ms)
          Binary64.batch_views Binary64.some_views Binary64.seconds)
     = true.
Proof.
  split; [reflexivity|]. split; [|split].
  - eexists. eexists. split; [vm_compute; reflexivity|]. split; [vm_compute; reflexivity|].
    repeat split; vm_compute; reflexivity.
  - split; vm_compute; reflexivity.
  - vm_compute. reflexivity.
Qed.

(** An expected duration of 0, on the studio recording (Backend A) and on
    the right video with a batch maximum of 100 views (Backend B). *)
Lemma zero_duration_is_no_duration_witness :
  (exists q,
      YouTubeMusic_calculateAccuracyFor (JNum (Fin 0))
        (mk_cleanItem decimalToNumber item_studio (Some "abc")) (Fin 100)
      = Fin q
      /\ q == 75)
  /\ (0 < 100
      /\ v_views video_ok = Some 100%N
      /\ exists q,
           YouTube_calculateAccuracyFor stripText_model getWeight_model ["daft"; "punk"]
             (JNum (Fin 0)) (Fin 100) video_ok
           = Fin q
           /\ q == 96).
Proof.
  destruct (zero_duration_is_no_duration stripText_model getWeight_model decimalToNumber)
    as [_ [_ [_ [HA [_ [HB _]]]]]].
  split.
  - destruct (HA (mk_cleanItem decimalToNumber item_studio (Some "abc")) 100) as [q [Hq Hf]].
    exists q. split; [exact Hq|]. rewrite Hf. vm_compute. reflexivity.
  - assert (Hh : 0 < 100) by reflexivity.
    split; [exact Hh|]. split; [reflexivity|].
    destruct (HB ["daft"; "punk"] 100 video_ok 100%N Hh eq_refl) as [q [Hq Hf]].
    exists q. split; [exact Hq|]. rewrite Hf. vm_compute. reflexivity.
Defined.

(* ================================================================= *)
(** ** The further properties on the example data *)

Lemma getSearchArgs_idempotent_witness :
  _getSearchArgs (JStr "Daft Punk") q_track q_album q_duration = inr q_args
  /\ _getSearchArgs (JArr (map JStr (va_artists q_args))) (JStr (va_track q_args))
       (JStr (va_album q_args)) (va_duration q_args)
     = inr q_args.
Proof.
  assert (H : _getSearchArgs (JStr "Daft Punk") q_track q_album q_duration = inr q_args)
    by reflexivity.
  split; [exact H|].
  exact (getSearchArgs_idempotent (JStr "Daft Punk") q_track q_album q_duration q_args H).
Defined.

Lemma lone_artist_is_artist_or_track_witness :
  "Daft Punk" <> "" /\ "One More Time" <> ""
  /\ (truthy q_duration = false \/ typeof q_duration = "number")
  /\ _getSearchArgs (JStr "Daft Punk") JUndefined (JStr "Discovery") q_duration
     = inr (mkValid [] "Daft Punk" "Discovery" q_duration)
  /\ _getSearchArgs (JStr "Daft Punk") (JStr "") (JStr "Discovery") q_duration
     = inr (mkValid [] "Daft Punk" "Discovery" q_duration)
  /\ _getSearchArgs (JStr "Daft Punk") (JStr "One More Time") (JStr "Discovery") q_duration
     = inr (mkValid ["Daft Punk"] "One More Time" "Discovery" q_duration)
  /\ _getSearchArgs (JStr "") (JStr "One More Time") (JStr "Discovery") q_duration
     = inr (mkValid [] "One More Time" "Discovery" q_duration).
Proof.
  assert (Ha : "Daft Punk" <> "") by discriminate.
  assert (Ht : "One More Time" <> "") by discriminate.
  assert (Hd : truthy q_duration = false \/ typeof q_duration = "number")
    by (right; reflexivity).
  split; [exact Ha|]. split; [exact Ht|]. split; [exact Hd|].
  exact (lone_artist_is_artist_or_track "Daft Punk" "One More Time" "Discovery" q_duration
           Ha Ht Hd).
Defined.


(** The recording 10:40 long is not returned for an expected 320000 ms;
    the one 5:20 long is, and it is within the tolerance. *)
Lemma YouTubeMusic_duration_tolerance_witness :
  exists c m,
    outcome (YouTubeMusic_search stripText_model getWeight_model decimalToNumber
               (songs_shelf [item_long; item_song_2]) q_artists q_track q_album q_duration)
    = Return [c]
    /\ duration_ms (clean c) = Fin m
    /\ Qabs (320000 - m) * 100 < 40 * 320000.
Proof.
  assert (Hpos : 0 < 320000) by reflexivity.
  eexists.
  destruct (YouTubeMusic_duration_tolerance stripText_model getWeight_model decimalToNumber
              (songs_shelf [item_long; item_song_2]) q_artists q_track q_album q_duration
              q_args _ _ 320000 getWeight_model_le_100 eq_refl eq_refl Hpos
              ltac:(vm_compute; reflexivity) (or_introl eq_refl))
    as [m [Hm Hclose]].
  exists m. split; [vm_compute; reflexivity|]. split; [exact Hm|exact Hclose].
Defined.

(** Every variant lists the one video with no view count. *)
Lemma YouTube_no_views_no_accuracy_witness :
  exists c,
    outcome (YouTube_search stripText_model getWeight_model no_views
               q_artists q_track q_album q_duration)
    = Return [c]
    /\ yt_videoId c = "long"
    /\ yt_accuracy c = NaN.
Proof.
  eexists. split; [vm_compute; reflexivity|]. split; [reflexivity|].
  eapply (YouTube_no_views_no_accuracy stripText_model getWeight_model no_views
            q_artists q_track q_album q_duration q_args).
  - reflexivity.
  - intros xf Hxf. exists [video_long]. split; [reflexivity|].
    vm_compute. reflexivity.
  - vm_compute. reflexivity.
  - now left.
Defined.

(** Three variants fail and the last one lists a video. *)
Lemma YouTube_failed_variant_spoils_accuracy_witness :
  exists c,
    outcome (YouTube_search stripText_model getWeight_model last_succeeds
               q_artists q_track q_album q_duration)
    = Return [c]
    /\ yt_videoId c = "abc"
    /\ yt_accuracy c = NaN.
Proof.
  eexists. split; [vm_compute; reflexivity|]. split; [reflexivity|].
  eapply (YouTube_failed_variant_spoils_accuracy stripText_model getWeight_model
            last_succeeds q_artists q_track q_album q_duration q_args _
            [["Audio"]] timeout_error).
  - reflexivity.
  - right. now left.
  - vm_compute. reflexivity.
  - vm_compute. reflexivity.
  - now left.
Defined.

Lemma parse_duration_ms_base_60_witness :
  occurs colon "1" = false /\ occurs colon "02" = false /\ occurs colon "03" = false
  /\ parse_duration_ms decimalToNumber "03" = (Fin 3 * Fin 1000)%num
  /\ parse_duration_ms decimalToNumber "02:03"
     = ((Fin 60 * Fin 2 + Fin 3) * Fin 1000)%num
  /\ parse_duration_ms decimalToNumber "1:02:03"
     = ((Fin 60 * (Fin 60 * Fin 1 + Fin 2) + Fin 3) * Fin 1000)%num.
Proof.
  split; [reflexivity|]. split; [reflexivity|]. split; [reflexivity|].
  exact (parse_duration_ms_base_60 decimalToNumber "1" "02" "03" eq_refl eq_refl eq_refl).
Defined.

(** The runs of the example song that lead somewhere: the artist and the
    album. *)
Lemma artists_and_album_partition_witness :
  exists artist album,
    artists_and_album
      [VObj [("name", VStr "Daft Punk"); ("id", VStr "UCOP7nLCrjcOGMrbkhCWvVyQ")];
       VObj [("name", VStr "Discovery"); ("id", VStr "MPREb_Fi6ZaP4Ey0e")]]
    = inr ([artist], album)
    /\ [artist]
       = filter is_channel
           [VObj [("name", VStr "Daft Punk"); ("id", VStr "UCOP7nLCrjcOGMrbkhCWvVyQ")];
            VObj [("name", VStr "Discovery"); ("id", VStr "MPREb_Fi6ZaP4Ey0e")]]
    /\ album
       = last (filter (fun item => negb (is_channel item))
                 [VObj [("name", VStr "Daft Punk"); ("id", VStr "UCOP7nLCrjcOGMrbkhCWvVyQ")];
                  VObj [("name", VStr "Discovery"); ("id", VStr "MPREb_Fi6ZaP4Ey0e")]])
            VNull.
Proof.
  eexists _, _. split; [reflexivity|].
  apply artists_and_album_partition. reflexivity.
Defined.

(** The song with no video id under its play button, in the shelf
    "Songs": the key [videoId] is there, with the value [undefined]. *)
Lemma Songs_items_are_songs_witness :
  exists item title artists album duration,
    parse_content toLowerCase_ascii parseInt10_digits (VStr "Songs") raw_song_no_id
    = inr item
    /\ item = [("type", VStr "song"); ("title", title); ("artists", VArr artists);
               ("album", album); ("videoId", VUndefined); ("duration", duration)]
    /\ Forall (fun artist =>
                 exists name id,
                   artist = VObj [("name", name); ("id", VStr id)]
                   /\ String.prefix "UC" id = true)
              artists
    /\ (album = VNull
        \/ exists name id,
             album = VObj [("name", name); ("id", VStr id)]
             /\ String.prefix "UC" id = false).
Proof.
  destruct (Songs_items_are_songs toLowerCase_ascii parseInt10_digits raw_song_no_id _
              eq_refl)
    as [title [artists [album [videoId [duration [Hitem [Hartists Halbum]]]]]]].
  injection Hitem as <- <- <- <- <-.
  eexists _, _, _, _, _. split; [reflexivity|]. split; [reflexivity|].
  split; [exact Hartists|exact Halbum].
Defined.

(** The album of the example answer, and the artist with nowhere to
    browse to, in the shelf "Albums". *)
Lemma item_keys_by_type_witness :
  (exists item,
     parse_content toLowerCase_ascii parseInt10_digits (VStr "Albums") raw_album = inr item
     /\ map fst item = ["type"; "title"; "artists"; "browseId"; "year"])
  /\ (parse_content toLowerCase_ascii parseInt10_digits (VStr "Albums") raw_artist = inr []
      /\ exists inner type,
           get raw_artist "musicResponsiveListItemRenderer" = inr inner
           /\ content_type toLowerCase_ascii (VStr "Albums") inner = inr type
           /\ (map fst (@nil (string * value)) = item_keys type
               \/ @nil (string * value) = []
                  /\ includes ["artist"; "album"; "playlist"] type = true
                  /\ value_truthy (walk inner NAVIGATION_BROWSE_ID) = false)).
Proof.
  split.
  - eexists. split; [reflexivity|]. reflexivity.
  - split; [reflexivity|].
    exact (item_keys_by_type toLowerCase_ascii parseInt10_digits (VStr "Albums") raw_artist []
             eq_refl).
Defined.

(** The video of the example answer, in the shelf "Top result". *)
Lemma video_items_have_views_and_no_album_witness :
  exists inner item,
    get raw_video "musicResponsiveListItemRenderer" = inr inner
    /\ content_type toLowerCase_ascii (VStr "Top result") inner = inr "video"
    /\ parse_content toLowerCase_ascii parseInt10_digits (VStr "Top result") raw_video
       = inr item
    /\ js_in "album" item = false
    /\ js_get "views" item = Some (VStr "512M")
    /\ js_get "duration" item = Some (VStr "5:22")
    /\ exists runs texts text,
         item_runs inner = inr runs
         /\ mapM (fun run => get run "text") (slice_last 2 runs) = inr texts
         /\ nth 0 texts VUndefined = VStr text
         /\ js_get "views" item = Some (VStr (first_word text))
         /\ occurs space (first_word text) = false
         /\ js_get "duration" item = Some (nth 1 texts VUndefined).
Proof.
  eexists _, _. split; [reflexivity|]. split; [reflexivity|]. split; [reflexivity|].
  split; [reflexivity|]. split; [reflexivity|]. split; [reflexivity|].
  exact (proj2 (video_items_have_views_and_no_album toLowerCase_ascii parseInt10_digits
                  (VStr "Top result") raw_video _ _ eq_refl eq_refl eq_refl)).
Defined.

Lemma sectionKey_injective_witness :
  sectionKey ToString_plain (VStr "Songs") = sectionKey ToString_plain (VStr "Songs")
  /\ "Songs" = "Songs".
Proof.
  split; [reflexivity|].
  exact (sectionKey_injective ToString_plain "Songs" "Songs" eq_refl).
Defined.

(** The shelf "Albums" of the example answer: two elements, two items,
    the second of them empty. *)
Lemma parse_layer_keeps_every_item_witness :
  exists layer first,
    get (raw_shelf "Albums" [raw_album; raw_artist] []) "musicShelfRenderer" = inr layer
    /\ parse_layer toLowerCase_ascii parseInt10_digits ToString_plain layer
       = inr ("albums", mkShelf [first; []] (Some None) (Some None))
    /\ exists elements found,
         get layer "contents" = inr found
         /\ as_array (value_or found (VArr [])) = inr elements
         /\ "albums" = sectionKey ToString_plain (walk layer TITLE_TEXT)
         /\ Forall2 (fun content item =>
                       parse_content toLowerCase_ascii parseInt10_digits
                         (walk layer TITLE_TEXT) content
                       = inr item)
              elements [first; []]
         /\ List.length [first; []] = List.length elements.
Proof.
  eexists _, _. split; [reflexivity|]. split; [vm_compute; reflexivity|].
  destruct (parse_layer_keeps_every_item toLowerCase_ascii parseInt10_digits ToString_plain
              (VObj [("title", VObj [("runs", VArr [text_run "Albums"])]);
                     ("contents", VArr [raw_album; raw_artist])])
              "albums" (mkShelf _ (Some None) (Some None))
              ltac:(vm_compute; reflexivity))
    as [elements [found [H1 [H2 [H3 [H4 [H5 _]]]]]]].
  exists elements, found. repeat split; assumption.
Defined.

(** The example answer has two shelves titled "Songs": the section
    [songs] is that of the second one, whose song has a video id. *)
Lemma sections_last_layer_wins_witness :
  exists sections,
    parse_response toLowerCase_ascii parseInt10_digits ToString_plain example_response
    = inr sections
    /\ map fst sections = ["top"; "songs"; "albums"]
    /\ option_map (fun section => map (js_get "videoId") (shelf_contents section))
         (js_get "songs" sections)
       = Some [Some (VStr "abc")]
    /\ exists shelf entries,
         shelf_of example_response = inr shelf
         /\ Forall2 (fun layer entry =>
                       parse_layer toLowerCase_ascii parseInt10_digits ToString_plain layer
                       = inr entry)
              shelf entries
         /\ NoDup (map fst sections)
         /\ (forall key, js_get key sections = js_get key (rev entries))
         /\ (forall key, js_in key sections = true <-> In key (map fst entries)).
Proof.
  eexists. split; [vm_compute; reflexivity|]. split; [reflexivity|].
  split; [reflexivity|].
  apply (sections_last_layer_wins toLowerCase_ascii parseInt10_digits ToString_plain
           example_response).
  vm_compute. reflexivity.
Defined.

(** The answer to a continuation has its one shelf under "other". *)
Lemma continuation_has_one_section_witness :
  exists sections section,
    has_key "continuationContents" example_continuation = inr true
    /\ parse_response toLowerCase_ascii parseInt10_digits ToString_plain
         example_continuation
       = inr sections
    /\ sections = [("other", section)]
    /\ js_get "other" sections = Some section.
Proof.
  eexists. 
  destruct (continuation_has_one_section toLowerCase_ascii parseInt10_digits ToString_plain
              example_continuation _ eq_refl ltac:(vm_compute; reflexivity))
    as [layer [section [Hlayer [_ [Hsections [Hother _]]]]]].
  exists section. split; [reflexivity|]. split; [vm_compute; reflexivity|].
  subst layer. split; [exact Hsections|]. apply Hother. reflexivity.
Defined.

(** An answer with no section list. *)
Lemma parse_response_throws_only_TypeError_witness :
  exists e,
    parse_response toLowerCase_ascii parseInt10_digits ToString_plain (VObj []) = inl e
    /\ e = TypeError.
Proof.
  eexists. split; [reflexivity|].
  exact (parse_response_throws_only_TypeError toLowerCase_ascii parseInt10_digits
           ToString_plain (VObj []) _ eq_refl).
Defined.

(** A new instance derives the configuration of the example page with
    one request, and answers it from the cache when asked again. *)
Lemma deriveConfig_caches_witness :
  exists w' config,
    deriveConfig ytcfg_match_example JSON_parse_example got_example false new_instance
    = (w', inr config)
    /\ config = VObj example_config
    /\ sent w' = [config_request]
    /\ apiConfig w' = config
    /\ value_truthy config = true
    /\ (sent w' = sent new_instance \/ sent w' = sent new_instance ++ [config_request])
    /\ deriveConfig ytcfg_match_example JSON_parse_example got_example false w'
       = (w', inr config).
Proof.
  eexists _, _. split; [vm_compute; reflexivity|]. split; [reflexivity|].
  split; [reflexivity|].
  apply (deriveConfig_caches ytcfg_match_example JSON_parse_example got_example false
           new_instance).
  vm_compute. reflexivity.
Defined.

(** A forced refresh while the service is down keeps the configuration
    the instance holds. *)
Lemma deriveConfig_failure_keeps_cache_witness :
  exists w' e,
    deriveConfig ytcfg_match_example JSON_parse_example got_down true configured_instance
    = (w', inl e)
    /\ e = Thrown (SearchError
                     (new_YouTubeSearchError "connect ECONNREFUSED" None
                        (Some "ECONNREFUSED") None))
    /\ apiConfig w' = apiConfig configured_instance
    /\ sent w' = sent configured_instance ++ [config_request]
    /\ forall message, e <> Thrown (Error message).
Proof.
  eexists _, _. split; [vm_compute; reflexivity|]. split; [reflexivity|].
  apply (deriveConfig_failure_keeps_cache ytcfg_match_example JSON_parse_example got_down
           true configured_instance).
  vm_compute. reflexivity.
Defined.

(** A query that is a string is refused before anything is sent. *)
Lemma private_search_plain_errors_witness :
  private_search toLowerCase_ascii parseInt10_digits ToString_plain ytcfg_match_example
    JSON_parse_example got_example (VStr "one more time") VUndefined new_instance
  = (new_instance, inl (Thrown (Error "<queryObject> must be an object")))
  /\ new_instance = new_instance
  /\ valid_query (VStr "one more time") VUndefined = false
  /\ ("<queryObject> must be an object" = "<queryObject> must be an object"
      \/ "<queryObject> must be an object" = "<params>, if defined must be an object").
Proof.
  split; [reflexivity|].
  exact (private_search_plain_errors toLowerCase_ascii parseInt10_digits ToString_plain
           ytcfg_match_example JSON_parse_example got_example (VStr "one more time")
           VUndefined new_instance new_instance "<queryObject> must be an object" eq_refl).
Defined.

(** The first search of a new instance sends two requests, the next one
    a single one. *)
Lemma config_is_derived_once_witness :
  exists w1 sections,
    private_search toLowerCase_ascii parseInt10_digits ToString_plain ytcfg_match_example
      JSON_parse_example got_example (VObj [("query", VStr "one more time")]) VUndefined
      new_instance
    = (w1, inr sections)
    /\ List.length (sent w1) = 2%nat
    /\ List.length
         (sent (fst (private_search toLowerCase_ascii parseInt10_digits ToString_plain
                       ytcfg_match_example JSON_parse_example got_example
                       (VObj [("query", VStr "discovery")]) VUndefined w1)))
       = 3%nat
    /\ value_truthy (apiConfig w1) = true
    /\ forall queryObject' params',
         valid_query queryObject' params' = true ->
         exists key name version,
           get (apiConfig w1) "INNERTUBE_API_KEY" = inr key
           /\ get (apiConfig w1) "INNERTUBE_CLIENT_NAME" = inr name
           /\ get (apiConfig w1) "INNERTUBE_CLIENT_VERSION" = inr version
           /\ sent (fst (private_search toLowerCase_ascii parseInt10_digits ToString_plain
                           ytcfg_match_example JSON_parse_example got_example
                           queryObject' params' w1))
              = sent w1 ++ [search_request key name version queryObject' params']
           /\ apiConfig (fst (private_search toLowerCase_ascii parseInt10_digits
                                ToString_plain ytcfg_match_example JSON_parse_example
                                got_example queryObject' params' w1))
              = apiConfig w1.
Proof.
  eexists _, _. split; [vm_compute; reflexivity|]. split; [reflexivity|].
  split; [vm_compute; reflexivity|].
  destruct (config_is_derived_once toLowerCase_ascii parseInt10_digits ToString_plain
              ytcfg_match_example JSON_parse_example got_example
              (VObj [("query", VStr "one more time")]) VUndefined new_instance _ _
              ltac:(vm_compute; reflexivity))
    as [Ht [_ Hnext]].
  split; [exact Ht|exact Hnext].
Defined.

(** The second shelf "Songs" of the example answer has a continuation. *)
Lemma loadMore_sends_the_continuation_witness :
  exists layer r,
    layer = VObj [("continuations", continuation_data)]
    /\ loadMore toLowerCase_ascii parseInt10_digits ToString_plain ytcfg_match_example
         JSON_parse_example got_example layer configured_instance
       = ({| apiConfig := VObj example_config;
             sent := [search_request (VStr "AIza") (VStr "WEB_REMIX") (VStr "1.2") (VObj [])
                        (VObj [("icit", VStr "clicks"); ("continuation", VStr "token")])] |},
          r)
    /\ opt_searchParams
         (search_request (VStr "AIza") (VStr "WEB_REMIX") (VStr "1.2") (VObj [])
            (VObj [("icit", VStr "clicks"); ("continuation", VStr "token")]))
       = Some [("alt", VStr "json"); ("key", VStr "AIza"); ("icit", VStr "clicks");
               ("continuation", VStr "token")].
Proof.
  destruct (loadMore_sends_the_continuation toLowerCase_ascii parseInt10_digits
              ToString_plain ytcfg_match_example JSON_parse_example got_example
              (VObj [("continuations", continuation_data)]) configured_instance
              _ _ _ _ _ eq_refl eq_refl eq_refl eq_refl eq_refl eq_refl)
    as [key [name [version [r [Hkey [Hname [Hversion [Hrun Hparams]]]]]]]].
  injection Hkey as <-. injection Hname as <-. injection Hversion as <-.
  exists (VObj [("continuations", continuation_data)]), r.
  split; [reflexivity|]. split; [exact Hrun|exact Hparams].
Defined.

(** A shelf whose bottom endpoint leads to a page, not to a search. *)
Lemma expand_needs_a_search_endpoint_witness :
  exists layer bottomEndpoint,
    layer = VObj [("bottomEndpoint", bottomEndpoint)]
    /\ bottomEndpoint = VObj [("browseEndpoint", VObj [("browseId", VStr "VLPL123")])]
    /\ get bottomEndpoint "searchEndpoint" = inr VUndefined
    /\ value_typeof VUndefined <> "object"
    /\ expand toLowerCase_ascii parseInt10_digits ToString_plain ytcfg_match_example
         JSON_parse_example got_example layer configured_instance
       = (configured_instance, inl (Thrown (Error "<queryObject> must be an object"))).
Proof.
  assert (Ht : value_typeof VUndefined <> "object") by discriminate.
  eexists _, _. split; [reflexivity|]. split; [reflexivity|]. split; [reflexivity|].
  split; [exact Ht|].
  exact (expand_needs_a_search_endpoint toLowerCase_ascii parseInt10_digits ToString_plain
           ytcfg_match_example JSON_parse_example got_example
           (VObj [("bottomEndpoint",
                   VObj [("browseEndpoint", VObj [("browseId", VStr "VLPL123")])])])
           configured_instance
           (VObj [("browseEndpoint", VObj [("browseId", VStr "VLPL123")])])
           VUndefined eq_refl eq_refl Ht).
Defined.

(** Every variant lists the two example videos; the batch maximum of
    views is 100. *)
Lemma YouTube_accuracy_formula_witness :
  exists l c,
    outcome (YouTube_search stripText_model getWeight_model all_succeed
               q_artists q_track q_album q_duration)
    = Return l
    /\ In c l
    /\ exists h src item v q,
         YouTube_highestViews
           (YouTube_sources stripText_model getWeight_model all_succeed q_args)
         = of_N h
         /\ In (Some src) (YouTube_sources stripText_model getWeight_model all_succeed q_args)
         /\ In item (results src)
         /\ v_videoId item = Some (yt_videoId c)
         /\ v_views item = Some v
         /\ (v <= h)%N
         /\ yt_duration_ms c = Fin (Q_of_N (v_seconds item) * 1000)
         /\ yt_accuracy c = Fin q
         /\ q == accB_Q
                   (authorMatches stripText_model getWeight_model
                      (stripText_model (va_artists q_args)) item)
                   (penalty_Q (expected_Q (va_duration q_args))
                      (Q_of_N (v_seconds item) * 1000))
                   (Q_of_N v) (Q_of_N h).
Proof.
  assert (Hwf : well_formed_duration (va_duration q_args)).
  { right. exists 320000. split; [reflexivity|]. discriminate. }
  eexists _, _. split; [vm_compute; reflexivity|]. split; [now left|].
  eapply (YouTube_accuracy_formula stripText_model getWeight_model all_succeed
            q_artists q_track q_album q_duration q_args).
  - reflexivity.
  - exact Hwf.
  - vm_compute. reflexivity.
  - vm_compute. reflexivity.
  - now left.
Defined.
